(** * Randomised placement scripts: a shallow embedding and its properties

    The five scripts of the repository place the selected objects of a scene
    at random positions of a circle or of a rectangle, away from exclusion
    zones and from each other:

      - [DistributeWithinCircle.py], [DistributeWithinSquare.py]: linear
        scan over the list [positions];
      - [DistributeAndDuplicateWithinCircle.py],
        [DistributeAndDuplicateWithinSquare.py]: a uniform grid (a dict from
        cell to list) and duplication;
      - [DistributeAndDuplicateObjectsAddon.py]: one function for both
        shapes, linear scan.

    Modelling choices.
      - Python floats are real numbers ([R]): rounding, infinities and NaN
        are left out.  Comparisons are decided with [bool_decide].
      - [mathutils.Vector] is a record of three reals; a 2D vector is one
        whose [z] is [0].
      - The module-level random generator is a stream of the values that
        [random.random()] returns, with a cursor in the world.
      - The lists and dicts that the closures of a script share
        ([positions], [grid]) live in the world, as do the effects on the
        host (object moved, copy linked, message printed), kept in order in
        [trace].
      - A script is a computation in a state-and-exception monad [M].  The
        exceptions modelled are the [ZeroDivisionError] of [//] by a zero
        cell size and the [TypeError] of the add-on when a size has not the
        shape that [is_circle] announces.
      - [samplings] counts the iterations of the attempt loops; it is ghost
        state, not read by any script. *)

From Stdlib Require Import Reals Lra Lia ZArith String.
From stdpp Require Import base decidable option list gmap.

Open Scope R_scope.

(** ** Deciding comparisons of reals *)

#[global] Instance Rlt_decision : RelDecision Rlt := Rlt_dec.
#[global] Instance Rle_decision : RelDecision Rle := Rle_dec.
#[global] Instance Rgt_decision : RelDecision Rgt := Rgt_dec.
#[global] Instance Rge_decision : RelDecision Rge := Rge_dec.
#[global] Instance Req_decision : EqDecision R := Req_dec_T.

(** ** [mathutils.Vector] *)

Module Vector.
Record t : Type := make { x : R; y : R; z : R }.

  (** [a - b] *)
Definition sub (a b : t) : t := make (x a - x b) (y a - y b) (z a - z b).

  (** [v.length] *)
Definition length (v : t) : R := sqrt (x v ^ 2 + y v ^ 2 + z v ^ 2).

  (** [v.xy]: the 2D vector of the first two components. *)
Definition xy (v : t) : t := make (x v) (y v) 0.
End Vector.

(** ** The host: objects, effects, messages *)

Record object : Type := { name : string; dimensions : Vector.t }.

Inductive message : Type :=
| NoObjectsSelected
| CouldNotPlaceObject (obj_name : string)
| CouldNotPlaceDuplicate (obj_name : string).

Inductive event : Type :=
| Printed (m : message)
| SetLocation (obj : object) (position : Vector.t)
| LinkCopy (obj : object) (position : Vector.t).

(** A placement record: a position and the footprint placed there. *)
Abbreviation record := (Vector.t * Vector.t)%type.

Record world : Type := {
  random_stream : nat → R;
  random_pos : nat;
  positions : list record;
  grid : gmap (Z * Z) (list record);
  trace : list event;
  samplings : nat
}.

Definition with_random_pos (n : nat) (w : world) : world :=
  {| random_stream := random_stream w; random_pos := n;
     positions := positions w; grid := grid w; trace := trace w;
     samplings := samplings w |}.

Definition with_positions (l : list record) (w : world) : world :=
  {| random_stream := random_stream w; random_pos := random_pos w;
     positions := l; grid := grid w; trace := trace w;
     samplings := samplings w |}.

Definition with_grid (g : gmap (Z * Z) (list record)) (w : world) : world :=
  {| random_stream := random_stream w; random_pos := random_pos w;
     positions := positions w; grid := g; trace := trace w;
     samplings := samplings w |}.

Definition with_trace (t : list event) (w : world) : world :=
  {| random_stream := random_stream w; random_pos := random_pos w;
     positions := positions w; grid := grid w; trace := t;
     samplings := samplings w |}.

Definition with_samplings (n : nat) (w : world) : world :=
  {| random_stream := random_stream w; random_pos := random_pos w;
     positions := positions w; grid := grid w; trace := trace w;
     samplings := n |}.

(** ** The monad of the scripts *)

Inductive exn : Type := ZeroDivisionError | TypeError.

Inductive result (A : Type) : Type :=
| Ok (a : A)
| Raise (e : exn).
Arguments Ok {A} a.
Arguments Raise {A} e.

Definition M (A : Type) : Type := world → result A * world.

Definition ret {A} (a : A) : M A := λ w, (Ok a, w).

Definition bind {A B} (m : M A) (f : A → M B) : M B :=
  λ w, match m w with
       | (Ok a, w') => f a w'
       | (Raise e, w') => (Raise e, w')
       end.

Definition raise {A} (e : exn) : M A := λ w, (Raise e, w).

Notation "x <- m ;; k" := (bind m (λ x, k))
  (at level 100, m at next level, right associativity).
Notation "m ;; k" := (bind m (λ _, k))
  (at level 100, right associativity).

(** Reads and writes of the shared state. *)

Definition get_positions : M (list record) := λ w, (Ok (positions w), w).
Definition get_grid : M (gmap (Z * Z) (list record)) := λ w, (Ok (grid w), w).
Definition set_positions (l : list record) : M unit :=
  λ w, (Ok tt, with_positions l w).
Definition set_grid (g : gmap (Z * Z) (list record)) : M unit :=
  λ w, (Ok tt, with_grid g w).
Definition emit (e : event) : M unit :=
  λ w, (Ok tt, with_trace (trace w ++ [e]) w).
Definition tick : M unit :=
  λ w, (Ok tt, with_samplings (S (samplings w)) w).

(** [positions.append(r)] *)
Definition positions_append (r : record) : M unit :=
  l <- get_positions ;; set_positions (l ++ [r]).

(** [random.random()] and [random.uniform(a, b)], which CPython computes as
    [a + (b - a) * random()]. *)
Definition random : M R :=
  λ w, (Ok (random_stream w (random_pos w)), with_random_pos (S (random_pos w)) w).

Definition uniform (a b : R) : M R :=
  u <- random ;; ret (a + (b - a) * u).

(** ** Python loops *)

(** [for attempt in range(n): ... break ... else: ...]: the body answers
    [true] when it leaves the loop through [break]. *)
Fixpoint for_range_else (n : nat) (body : M bool) (orelse : M unit) : M unit :=
  match n with
  | O => orelse
  | S k => b <- body ;; if b : bool then ret tt else for_range_else k body orelse
  end.

(** [for _ in range(n): ...] *)
Fixpoint for_range (n : nat) (body : M unit) : M unit :=
  match n with
  | O => ret tt
  | S k => body ;; for_range k body
  end.

(** [for a in l: ...] *)
Fixpoint for_each {A} (l : list A) (body : A → M unit) : M unit :=
  match l with
  | [] => ret tt
  | a :: l' => body a ;; for_each l' body
  end.

(** ** What the scripts share *)

(** [max(dims.x, dims.y) / 2 + max(existing.x, existing.y) / 2 + padding] *)
Definition min_dist (obj_dimensions existing_dims : Vector.t) (padding : R) : R :=
  Rmax (Vector.x obj_dimensions) (Vector.y obj_dimensions) / 2 +
  Rmax (Vector.x existing_dims) (Vector.y existing_dims) / 2 + padding.

(** [sqrt((a.x - b.x) ** 2 + (a.y - b.y) ** 2)] *)
Definition planar_dist (a b : Vector.t) : R :=
  sqrt ((Vector.x a - Vector.x b) ^ 2 + (Vector.y a - Vector.y b) ^ 2).

(** [x // grid_size] followed by [int]: the floor of the quotient; float
    floor division by zero raises. *)
Definition floordiv (a b : R) : M Z :=
  if bool_decide (b = 0) then raise ZeroDivisionError else ret (Zfloor (a / b)).

(** [(int(pos.x // grid_size), int(pos.y // grid_size))] *)
Definition grid_cell_of (grid_size : R) (pos : Vector.t) : M (Z * Z) :=
  cx <- floordiv (Vector.x pos) grid_size ;;
  cy <- floordiv (Vector.y pos) grid_size ;;
  ret (cx, cy).

(** [[(c[0] + dx, c[1] + dy) for dx in range(-1, 2) for dy in range(-1, 2)]] *)
Definition neighbors_of (c : Z * Z) : list (Z * Z) :=
  dx ← [-1; 0; 1]%Z; dy ← [-1; 0; 1]%Z; [(c.1 + dx, c.2 + dy)%Z].

(** The inner loop of every overlap check,
    [for existing_pos, existing_dims in records: ... if dist < min_dist: return False],
    answering [true] when it returns; the scripts differ in how they write
    the distance. *)
Definition overlaps (dist : Vector.t → Vector.t → R) (padding : R)
    (pos obj_dimensions : Vector.t) (records : list record) : bool :=
  existsb (λ '(existing_pos, existing_dims),
    bool_decide (dist pos existing_pos < min_dist obj_dimensions existing_dims padding))
    records.

(** [add_to_grid], the same text in both grid scripts; [grid_size] is the
    variable of the enclosing function. *)
Definition add_to_grid (grid_size : R) (pos obj_dimensions : Vector.t) : M unit :=
  grid_cell <- grid_cell_of grid_size pos ;;
  g <- get_grid ;;
  (match g !! grid_cell with
   | None => set_grid (<[grid_cell := []]> g)
   | Some _ => ret tt
   end) ;;
  g <- get_grid ;;
  set_grid (<[grid_cell := default [] (g !! grid_cell) ++ [(pos, obj_dimensions)]]> g).

(** The overlap check of both grid scripts: the records of the nine cells
    around the candidate's. *)
Definition overlaps_in_grid (dist : Vector.t → Vector.t → R) (grid_size padding : R)
    (pos obj_dimensions : Vector.t) : M bool :=
  grid_cell <- grid_cell_of grid_size pos ;;
  let neighbors := neighbors_of grid_cell in
  g <- get_grid ;;
  ret (existsb (λ neighbor,
         match g !! neighbor with
         | Some records => overlaps dist padding pos obj_dimensions records
         | None => false
         end)
       neighbors).

(** The views of the trace that the specification speaks of. *)

Inductive outcome : Type :=
| Placed (item : object) (position : Vector.t)
| Failed (item_name : string).

Definition outcome_of (e : event) : option outcome :=
  match e with
  | Printed NoObjectsSelected => None
  | Printed (CouldNotPlaceObject n) => Some (Failed n)
  | Printed (CouldNotPlaceDuplicate n) => Some (Failed n)
  | SetLocation o p => Some (Placed o p)
  | LinkCopy o p => Some (Placed o p)
  end.

Definition outcomes (t : list event) : list outcome := omap outcome_of t.

Definition placed_of (e : event) : option record :=
  match e with
  | Printed _ => None
  | SetLocation o p => Some (p, dimensions o)
  | LinkCopy o p => Some (p, dimensions o)
  end.

(** The records of the committed placements, oldest first. *)
Definition placed (t : list event) : list record := omap placed_of t.

(** ** DistributeWithinCircle.py *)

Module DistributeWithinCircle.

Section Closures.
Variables (area_center : Vector.t) (area_radius : R).
Variables (exclusion_zones : list (Vector.t * R)) (padding : R).

    (** [(pos.xy - existing_pos.xy).length] *)
Definition dist (pos existing_pos : Vector.t) : R :=
      Vector.length (Vector.sub (Vector.xy pos) (Vector.xy existing_pos)).

Definition is_valid_position (pos obj_dimensions : Vector.t) : M bool :=
      if bool_decide (Vector.length (Vector.sub pos area_center) > area_radius)
      then ret false
      else if existsb (λ '(zone_center, zone_radius),
                bool_decide (Vector.length (Vector.sub pos zone_center) <= zone_radius))
              exclusion_zones
      then ret false
      else
        existing <- get_positions ;;
        if overlaps dist padding pos obj_dimensions existing
        then ret false
        else ret true.

    (** Lines 49 to 53: the candidate of one attempt. *)
Definition sample_position : M Vector.t :=
      angle <- uniform 0 (2 * PI) ;;
      radius <- uniform 0 area_radius ;;
      let rand_x := Vector.x area_center + radius * cos angle in
      let rand_y := Vector.y area_center + radius * sin angle in
      ret (Vector.make rand_x rand_y (Vector.z area_center)).

    (** Lines 49 to 58: one attempt; [true] is [break]. *)
Definition attempt (obj : object) : M bool :=
      let obj_dimensions := dimensions obj in
      tick ;;
      position <- sample_position ;;
      ok <- is_valid_position position obj_dimensions ;;
      if ok : bool then
        positions_append (position, obj_dimensions) ;;
        emit (SetLocation obj position) ;;
        ret true
      else ret false.

    (** Lines 48 to 60: the attempts for one object. *)
Definition place_object (obj : object) : M unit :=
      for_range_else 1000 (attempt obj)
        (emit (Printed (CouldNotPlaceObject (name obj)))).
End Closures.

Definition distribute_objects_in_area (selected_objects : list object)
      (area_center : Vector.t) (area_radius : R)
      (exclusion_zones : option (list (Vector.t * R))) (padding : R) : M unit :=
    match selected_objects with
    | [] => emit (Printed NoObjectsSelected)
    | _ =>
        let exclusion_zones := default [] exclusion_zones in
        set_positions [] ;;
        for_each selected_objects
          (place_object area_center area_radius exclusion_zones padding)
    end.

End DistributeWithinCircle.

(** ** DistributeWithinSquare.py *)

Module DistributeWithinSquare.

Section Closures.
Variables (area_min area_max : Vector.t).
Variables (exclusion_zones : list (Vector.t * Vector.t)) (padding : R).

    (** [(pos - existing_pos).length] *)
Definition dist (pos existing_pos : Vector.t) : R :=
      Vector.length (Vector.sub pos existing_pos).

Definition is_valid_position (pos obj_dimensions : Vector.t) : M bool :=
      if existsb (λ '(zone_min, zone_max),
           bool_decide (Vector.x zone_min <= Vector.x pos)
           && bool_decide (Vector.x pos <= Vector.x zone_max)
           && bool_decide (Vector.y zone_min <= Vector.y pos)
           && bool_decide (Vector.y pos <= Vector.y zone_max))
         exclusion_zones
      then ret false
      else
        existing <- get_positions ;;
        if overlaps dist padding pos obj_dimensions existing
        then ret false
        else ret true.

    (** Lines 44 to 46. *)
Definition sample_position : M Vector.t :=
      rand_x <- uniform (Vector.x area_min) (Vector.x area_max) ;;
      rand_y <- uniform (Vector.y area_min) (Vector.y area_max) ;;
      ret (Vector.make rand_x rand_y 0).

    (** Lines 44 to 51: one attempt; [true] is [break]. *)
Definition attempt (obj : object) : M bool :=
      let obj_dimensions := dimensions obj in
      tick ;;
      position <- sample_position ;;
      ok <- is_valid_position position obj_dimensions ;;
      if ok : bool then
        positions_append (position, obj_dimensions) ;;
        emit (SetLocation obj position) ;;
        ret true
      else ret false.

    (** Lines 43 to 53. *)
Definition place_object (obj : object) : M unit :=
      for_range_else 1000 (attempt obj)
        (emit (Printed (CouldNotPlaceObject (name obj)))).
End Closures.

Definition distribute_objects_in_area (selected_objects : list object)
      (area_min area_max : Vector.t)
      (exclusion_zones : option (list (Vector.t * Vector.t))) (padding : R) : M unit :=
    match selected_objects with
    | [] => emit (Printed NoObjectsSelected)
    | _ =>
        let exclusion_zones := default [] exclusion_zones in
        set_positions [] ;;
        for_each selected_objects
          (place_object area_min area_max exclusion_zones padding)
    end.

End DistributeWithinSquare.

(** ** DistributeAndDuplicateWithinCircle.py *)

Module DistributeAndDuplicateWithinCircle.

Section Closures.
Variables (area_center : Vector.t) (area_radius : R).
Variables (exclusion_zones : list (Vector.t * R)) (padding : R).

Definition grid_size : R := area_radius / 50.

Definition is_valid_position (pos obj_dimensions : Vector.t) : M bool :=
      if bool_decide (planar_dist pos area_center > area_radius)
      then ret false
      else if existsb (λ '(zone_center, zone_radius),
                bool_decide (planar_dist pos zone_center < zone_radius))
              exclusion_zones
      then ret false
      else
        hit <- overlaps_in_grid planar_dist grid_size padding pos obj_dimensions ;;
        if hit : bool then ret false else ret true.

    (** Lines 66 to 70 and 83 to 87. *)
Definition sample_position : M Vector.t :=
      rand_angle <- uniform 0 (2 * PI) ;;
      u <- uniform 0 1 ;;
      let rand_radius := sqrt u * area_radius in
      let rand_x := Vector.x area_center + rand_radius * cos rand_angle in
      let rand_y := Vector.y area_center + rand_radius * sin rand_angle in
      ret (Vector.make rand_x rand_y 0).

    (** Lines 66 to 75 and 83 to 97: one attempt; [true] is [break].  The
        two loops differ in [effect]: the original is moved, a duplicate is
        copied and linked. *)
Definition attempt (effect : object → Vector.t → event) (obj : object) : M bool :=
      let obj_dimensions := dimensions obj in
      tick ;;
      position <- sample_position ;;
      ok <- is_valid_position position obj_dimensions ;;
      if ok : bool then
        emit (effect obj position) ;;
        add_to_grid grid_size position obj_dimensions ;;
        ret true
      else ret false.

    (** Lines 65 to 77: the attempts for the original. *)
Definition place_original (obj : object) : M unit :=
      for_range_else 1000 (attempt SetLocation obj)
        (emit (Printed (CouldNotPlaceObject (name obj)))).

    (** Lines 82 to 99: the attempts for one duplicate. *)
Definition place_duplicate (obj : object) : M unit :=
      for_range_else 1000 (attempt LinkCopy obj)
        (emit (Printed (CouldNotPlaceDuplicate (name obj)))).

    (** Lines 61 to 99: the body of the loop over the selection. *)
Definition place_object (num_duplicates : Z) (obj : object) : M unit :=
      place_original obj ;;
      for_range (Z.to_nat num_duplicates) (place_duplicate obj).
End Closures.

Definition distribute_and_duplicate_objects (selected_objects : list object)
      (area_center : Vector.t) (area_radius : R) (num_duplicates : Z)
      (exclusion_zones : option (list (Vector.t * R))) (padding : R) : M unit :=
    match selected_objects with
    | [] => emit (Printed NoObjectsSelected)
    | _ =>
        let exclusion_zones := default [] exclusion_zones in
        set_positions [] ;;
        set_grid ∅ ;;
        for_each selected_objects
          (place_object area_center area_radius exclusion_zones padding num_duplicates)
    end.

End DistributeAndDuplicateWithinCircle.

(** ** DistributeAndDuplicateWithinSquare.py *)

Module DistributeAndDuplicateWithinSquare.

Section Closures.
Variables (area_min area_max : Vector.t).
Variables (exclusion_zones : list (Vector.t * Vector.t)) (padding : R).

Definition grid_size : R :=
      Rmax (Vector.x (Vector.sub area_max area_min))
           (Vector.y (Vector.sub area_max area_min)) / 100.

    (** [(pos - existing_pos).length] *)
Definition dist (pos existing_pos : Vector.t) : R :=
      Vector.length (Vector.sub pos existing_pos).

Definition is_valid_position (pos obj_dimensions : Vector.t) : M bool :=
      if existsb (λ '(zone_min, zone_max),
           bool_decide (Vector.x zone_min <= Vector.x pos)
           && bool_decide (Vector.x pos <= Vector.x zone_max)
           && bool_decide (Vector.y zone_min <= Vector.y pos)
           && bool_decide (Vector.y pos <= Vector.y zone_max))
         exclusion_zones
      then ret false
      else
        hit <- overlaps_in_grid dist grid_size padding pos obj_dimensions ;;
        if hit : bool then ret false else ret true.

    (** Lines 62 to 64 and 77 to 79. *)
Definition sample_position : M Vector.t :=
      rand_x <- uniform (Vector.x area_min) (Vector.x area_max) ;;
      rand_y <- uniform (Vector.y area_min) (Vector.y area_max) ;;
      ret (Vector.make rand_x rand_y 0).

    (** Lines 62 to 69 and 77 to 89: one attempt; [true] is [break]. *)
Definition attempt (effect : object → Vector.t → event) (obj : object) : M bool :=
      let obj_dimensions := dimensions obj in
      tick ;;
      position <- sample_position ;;
      ok <- is_valid_position position obj_dimensions ;;
      if ok : bool then
        emit (effect obj position) ;;
        add_to_grid grid_size position obj_dimensions ;;
        ret true
      else ret false.

Definition place_original (obj : object) : M unit :=
      for_range_else 1000 (attempt SetLocation obj)
        (emit (Printed (CouldNotPlaceObject (name obj)))).

Definition place_duplicate (obj : object) : M unit :=
      for_range_else 1000 (attempt LinkCopy obj)
        (emit (Printed (CouldNotPlaceDuplicate (name obj)))).

Definition place_object (num_duplicates : Z) (obj : object) : M unit :=
      place_original obj ;;
      for_range (Z.to_nat num_duplicates) (place_duplicate obj).
End Closures.

Definition distribute_and_duplicate_objects (selected_objects : list object)
      (area_min area_max : Vector.t) (num_duplicates : Z)
      (exclusion_zones : option (list (Vector.t * Vector.t))) (padding : R) : M unit :=
    match selected_objects with
    | [] => emit (Printed NoObjectsSelected)
    | _ =>
        let exclusion_zones := default [] exclusion_zones in
        set_positions [] ;;
        set_grid ∅ ;;
        for_each selected_objects
          (place_object area_min area_max exclusion_zones padding num_duplicates)
    end.

End DistributeAndDuplicateWithinSquare.

(** ** DistributeAndDuplicateObjectsAddon.py *)

Module Addon.

  (** [area_size] and [zone_size]: a float for a circle, a pair for a square. *)
Inductive size : Type :=
  | Float (r : R)
  | Pair (width height : R).

  (** A size used as a number: [... <= area_size], [sqrt(...) * area_size]. *)
Definition as_float (s : size) : M R :=
    match s with
    | Float r => ret r
    | Pair _ _ => raise TypeError
    end.

  (** A size used as a pair: [area_size[0] / 2, area_size[1] / 2]. *)
Definition halves (s : size) : M (R * R) :=
    match s with
    | Float _ => raise TypeError
    | Pair width height => ret (width / 2, height / 2)
    end.

Section Closures.
Variables (area_center : Vector.t) (area_size : size).
Variables (zone_center : Vector.t) (zone_size : size).
Variables (padding : R) (is_circle : bool).

    (** [(pos - existing_pos).length] *)
Definition dist (pos existing_pos : Vector.t) : R :=
      Vector.length (Vector.sub pos existing_pos).

Definition is_inside_area (pos : Vector.t) : M bool :=
      if is_circle then
        r <- as_float area_size ;;
        ret (bool_decide (Vector.length (Vector.sub pos area_center) <= r))
      else
        halved <- halves area_size ;;
        let '(half_width, half_height) := halved in
        ret (bool_decide (Vector.x area_center - half_width <= Vector.x pos)
             && bool_decide (Vector.x pos <= Vector.x area_center + half_width)
             && bool_decide (Vector.y area_center - half_height <= Vector.y pos)
             && bool_decide (Vector.y pos <= Vector.y area_center + half_height)).

Definition is_inside_exclusion_zone (pos : Vector.t) : M bool :=
      if is_circle then
        r <- as_float zone_size ;;
        if bool_decide (Vector.length (Vector.sub pos zone_center) < r)
        then ret true else ret false
      else
        halved <- halves zone_size ;;
        let '(half_width, half_height) := halved in
        if bool_decide (Vector.x zone_center - half_width <= Vector.x pos)
           && bool_decide (Vector.x pos <= Vector.x zone_center + half_width)
           && bool_decide (Vector.y zone_center - half_height <= Vector.y pos)
           && bool_decide (Vector.y pos <= Vector.y zone_center + half_height)
        then ret true else ret false.

Definition is_valid_position (pos obj_dimensions : Vector.t) : M bool :=
      inside <- is_inside_area pos ;;
      if negb inside then ret false
      else
        excluded <- is_inside_exclusion_zone pos ;;
        if excluded : bool then ret false
        else
          existing <- get_positions ;;
          if overlaps dist padding pos obj_dimensions existing
          then ret false
          else ret true.

Definition random_position : M Vector.t :=
      if is_circle then
        rand_angle <- uniform 0 (2 * PI) ;;
        u <- uniform 0 1 ;;
        r <- as_float area_size ;;
        let rand_radius := sqrt u * r in
        ret (Vector.make (Vector.x area_center + rand_radius * cos rand_angle)
                         (Vector.y area_center + rand_radius * sin rand_angle)
                         0)
      else
        halved <- halves area_size ;;
        let '(half_width, half_height) := halved in
        rand_x <- uniform (Vector.x area_center - half_width)
                          (Vector.x area_center + half_width) ;;
        rand_y <- uniform (Vector.y area_center - half_height)
                          (Vector.y area_center + half_height) ;;
        ret (Vector.make rand_x rand_y 0).

    (** Lines 86 to 90 and 99 to 105: one attempt; [true] is [break]. *)
Definition attempt (effect : object → Vector.t → event) (obj : object) : M bool :=
      let obj_dimensions := dimensions obj in
      tick ;;
      position <- random_position ;;
      ok <- is_valid_position position obj_dimensions ;;
      if ok : bool then
        emit (effect obj position) ;;
        positions_append (position, obj_dimensions) ;;
        ret true
      else ret false.

    (** Lines 85 to 92. *)
Definition place_original (obj : object) : M unit :=
      for_range_else 1000 (attempt SetLocation obj)
        (emit (Printed (CouldNotPlaceObject (name obj)))).

    (** Lines 98 to 107. *)
Definition place_duplicate (obj : object) : M unit :=
      for_range_else 1000 (attempt LinkCopy obj)
        (emit (Printed (CouldNotPlaceDuplicate (name obj)))).

    (** Lines 82 to 107: the body of the loop over the selection. *)
Definition place_object (num_duplicates : Z) (distribute_only : bool)
        (obj : object) : M unit :=
      place_original obj ;;
      if distribute_only then ret tt
      else for_range (Z.to_nat num_duplicates) (place_duplicate obj).
End Closures.

Definition distribute_and_duplicate_objects (selected_objects : list object)
      (area_center : Vector.t) (area_size : size)
      (zone_center : Vector.t) (zone_size : size) (num_duplicates : Z)
      (padding : R) (is_circle distribute_only : bool) : M unit :=
    match selected_objects with
    | [] => emit (Printed NoObjectsSelected)
    | _ =>
        set_positions [] ;;
        for_each selected_objects
          (place_object area_center area_size zone_center zone_size padding
             is_circle num_duplicates distribute_only)
    end.

  (** The operator [OBJECT_OT_DistributeAndDuplicate]: its properties and
      [execute].  The selection is the ambient [bpy.context.selected_objects]. *)
Inductive area_form_item : Type := CIRCLE | SQUARE.

Record operator : Type := {
    distribute_only : bool;
    area_form : area_form_item;
    area_radius : R;
    area_width : R;
    area_height : R;
    num_duplicates : Z;
    padding : R;
    exclusion_zone_radius : R;
    exclusion_zone_width : R;
    exclusion_zone_height : R
  }.

Inductive operator_result : Type := FINISHED.

Definition is_CIRCLE (form : area_form_item) : bool :=
    match form with CIRCLE => true | SQUARE => false end.

Definition execute (self : operator) (selected_objects : list object)
      : M operator_result :=
    let zone_center := Vector.make 0 0 0 in
    let zone_size :=
      if is_CIRCLE (area_form self) then Float (exclusion_zone_radius self)
      else Pair (exclusion_zone_width self) (exclusion_zone_height self) in
    let area_center := Vector.make 0 0 0 in
    let area_size :=
      if is_CIRCLE (area_form self) then Float (area_radius self)
      else Pair (area_width self) (area_height self) in
    distribute_and_duplicate_objects selected_objects area_center area_size
      zone_center zone_size (num_duplicates self) (padding self)
      (is_CIRCLE (area_form self)) (distribute_only self) ;;
    ret FINISHED.

End Addon.

(** A world at the start of a session: nothing placed, nothing printed; the
    stream stands for the seed. *)
Definition initial_world (stream : nat → R) : world :=
  {| random_stream := stream; random_pos := 0; positions := [];
     grid := ∅; trace := []; samplings := 0 |}.

(** * Specification vocabulary *)

(** [hoare P m Q E]: from a world in [P], [m] ends in [Q] when it returns
    and in [E] when it raises.  [M] is a type of total functions, so [m]
    always does one of the two. *)
Definition hoare {A} (P : world → Prop) (m : M A)
    (Q : A → world → Prop) (E : exn → world → Prop) : Prop :=
  ∀ w, P w → match m w with
             | (Ok a, w') => Q a w'
             | (Raise e, w') => E e w'
             end.

(** [m] runs at most [n] iterations of the attempt loops. *)
Definition cost_le {A} (m : M A) (n : nat) : Prop :=
  ∀ w, (samplings (m w).2 ≤ samplings w + n)%nat.

(** The number of records of an index, over all its cells. *)
Definition record_count (g : gmap (Z * Z) (list record)) : nat :=
  map_fold (λ _ records n, (length records + n)%nat) 0%nat g.

(** [g'] holds the records of [g], each in the cell and at the place in the
    cell it had. *)
Definition grid_extends (g g' : gmap (Z * Z) (list record)) : Prop :=
  ∀ c records, g !! c = Some records → ∃ more, g' !! c = Some (records ++ more).

(** The cell that the grid scripts compute for a position. *)
Definition cell_of (grid_size : R) (pos : Vector.t) : Z * Z :=
  (Zfloor (Vector.x pos / grid_size), Zfloor (Vector.y pos / grid_size)).

(** Two cells are in each other's three by three neighbourhood. *)
Definition adjacent (c1 c2 : Z * Z) : Prop :=
  (Z.abs (c1.1 - c2.1) ≤ 1)%Z ∧ (Z.abs (c1.2 - c2.2) ≤ 1)%Z.

(** Every record of the index sits in the cell of its own position. *)
Definition grid_wf (grid_size : R) (g : gmap (Z * Z) (list record)) : Prop :=
  ∀ c records r, g !! c = Some records → r ∈ records → cell_of grid_size r.1 = c.

(** Every committed placement is found in the index, in its own cell. *)
Definition indexed (grid_size : R) (w : world) : Prop :=
  ∀ r, r ∈ placed (trace w) →
    ∃ records, grid w !! cell_of grid_size r.1 = Some records ∧ r ∈ records.

(** The world after the tick and the two draws of one attempt. *)
Definition after_sampling (w : world) : world :=
  with_random_pos (S (S (random_pos w))) (with_samplings (S (samplings w)) w).

(** The commit of the grid scripts: the host effect, then [add_to_grid]. *)
Definition grid_commit (grid_size : R) (effect : object → Vector.t → event)
    (obj : object) (pos : Vector.t) (w : world) : world :=
  let cell := cell_of grid_size pos in
  with_grid (<[cell := default [] (grid w !! cell) ++ [(pos, dimensions obj)]]> (grid w))
    (with_trace (trace w ++ [effect obj pos]) w).

(** The commit of the list scripts: [positions.append], then the host
    effect. *)
Definition list_commit (obj : object) (pos : Vector.t) (w : world) : world :=
  with_trace (trace w ++ [SetLocation obj pos])
    (with_positions (positions w ++ [(pos, dimensions obj)]) w).

(** What one attempt does, whatever the script: it samples; it then rejects
    the candidate and changes nothing else, or raises (only where [fails]),
    or commits a candidate that validation [accepted]. *)
Definition step (commit : object → Vector.t → world → world) (fails : Prop)
    (sampled : world → Vector.t) (accepted : Vector.t → Vector.t → world → Prop)
    (obj : object) (w : world) (res : result bool) (w' : world) : Prop :=
  match res with
  | Ok false => w' = after_sampling w
  | Ok true =>
      ¬ fails ∧ accepted (sampled w) (dimensions obj) w ∧
      w' = commit obj (sampled w) (after_sampling w)
  | Raise e => e = ZeroDivisionError ∧ fails ∧ w' = after_sampling w
  end.

Definition attempt_spec (commit : object → Vector.t → world → world) (fails : Prop)
    (sampled : world → Vector.t) (accepted : Vector.t → Vector.t → world → Prop)
    (attempt : object → M bool) : Prop :=
  ∀ obj w res w', attempt obj w = (res, w') →
    step commit fails sampled accepted obj w res w'.

(** An effect that places: moving the original or linking a copy. *)
Definition places (effect : object → Vector.t → event) : Prop :=
  ∀ obj pos, placed_of (effect obj pos) = Some (pos, dimensions obj) ∧
             outcome_of (effect obj pos) = Some (Placed obj pos).

(** What a candidate that passed the overlap check of a grid script is
    known to satisfy. *)
Definition clear_of_neighbors (dist : Vector.t → Vector.t → R) (grid_size padding : R)
    (pos dims : Vector.t) (g : gmap (Z * Z) (list record)) : Prop :=
  ∀ c records r, adjacent (cell_of grid_size pos) c →
    g !! c = Some records → r ∈ records →
    min_dist dims r.2 padding <= dist pos r.1.

(** The loop body of both grid scripts over an object: the original, then
    the duplicates. *)
Definition grid_place_object (attempt : (object → Vector.t → event) → object → M bool)
    (num_duplicates : Z) (obj : object) : M unit :=
  for_range_else 1000 (attempt SetLocation obj)
    (emit (Printed (CouldNotPlaceObject (name obj)))) ;;
  for_range (Z.to_nat num_duplicates)
    (for_range_else 1000 (attempt LinkCopy obj)
       (emit (Printed (CouldNotPlaceDuplicate (name obj))))).

(** The copies a run of a duplicating script is asked for. *)
Definition total_copies (selected_objects : list object) (num_duplicates : Z) : nat :=
  (length selected_objects * (1 + Z.to_nat num_duplicates))%nat.

(** *** The circular grid script *)

Definition DDWC_sampled (c : Vector.t) (r : R) (w : world) : Vector.t :=
  let rand_angle := 0 + (2 * PI - 0) * random_stream w (random_pos w) in
  let u := 0 + (1 - 0) * random_stream w (S (random_pos w)) in
  Vector.make (Vector.x c + sqrt u * r * cos rand_angle)
              (Vector.y c + sqrt u * r * sin rand_angle) 0.

(** In the circle and in no exclusion zone. *)
Definition DDWC_inside (c : Vector.t) (r : R) (zones : list (Vector.t * R))
    (pos : Vector.t) : Prop :=
  planar_dist pos c <= r ∧
  ∀ zone_center zone_radius, (zone_center, zone_radius) ∈ zones →
    zone_radius <= planar_dist pos zone_center.

Definition DDWC_accepted (c : Vector.t) (r : R) (zones : list (Vector.t * R))
    (padding : R) (pos dims : Vector.t) (w : world) : Prop :=
  DDWC_inside c r zones pos ∧
  clear_of_neighbors planar_dist (DistributeAndDuplicateWithinCircle.grid_size r)
    padding pos dims (grid w).

(** *** The rectangular scripts *)

Definition square_sampled (area_min area_max : Vector.t) (w : world) : Vector.t :=
  Vector.make
    (Vector.x area_min
     + (Vector.x area_max - Vector.x area_min) * random_stream w (random_pos w))
    (Vector.y area_min
     + (Vector.y area_max - Vector.y area_min) * random_stream w (S (random_pos w)))
    0.

(** Axis-aligned containment in the box of two corners. *)
Definition in_box (box_min box_max pos : Vector.t) : Prop :=
  Vector.x box_min <= Vector.x pos <= Vector.x box_max ∧
  Vector.y box_min <= Vector.y pos <= Vector.y box_max.

Definition outside_boxes (zones : list (Vector.t * Vector.t)) (pos : Vector.t) : Prop :=
  ∀ zone_min zone_max, (zone_min, zone_max) ∈ zones → ¬ in_box zone_min zone_max pos.

Definition DDWS_accepted (area_min area_max : Vector.t)
    (zones : list (Vector.t * Vector.t)) (padding : R)
    (pos dims : Vector.t) (w : world) : Prop :=
  outside_boxes zones pos ∧
  clear_of_neighbors DistributeAndDuplicateWithinSquare.dist
    (DistributeAndDuplicateWithinSquare.grid_size area_min area_max)
    padding pos dims (grid w).

Definition DWS_accepted (zones : list (Vector.t * Vector.t)) (padding : R)
    (pos dims : Vector.t) (w : world) : Prop :=
  outside_boxes zones pos ∧
  ∀ r, r ∈ positions w →
    min_dist dims r.2 padding <= DistributeWithinSquare.dist pos r.1.

(** Over an object and over a selection the index only grows, by one record
    for each placement. *)
Definition grows_from (w0 w : world) : Prop :=
  grid_extends (grid w0) (grid w) ∧
  (size (grid w0) ≤ size (grid w))%nat ∧
  (length (placed (trace w0)) ≤ length (placed (trace w)))%nat ∧
  (record_count (grid w) + length (placed (trace w0))
   = record_count (grid w0) + length (placed (trace w)))%nat.

(** A position left of the origin, for the floor of a negative coordinate. *)
Definition left_of_origin : Vector.t := Vector.make (-1 / 2) (3 / 2) 0.

(** Any two placements of [l] that are [near] each other keep their
    distance. *)
Definition separated (dist : Vector.t → Vector.t → R) (padding : R)
    (near : record → record → Prop) (l : list record) : Prop :=
  ∀ i j r1 r2, i ≠ j → l !! i = Some r1 → l !! j = Some r2 → near r1 r2 →
    min_dist r1.2 r2.2 padding <= dist r1.1 r2.1.

Definition same_neighborhood (grid_size : R) (r1 r2 : record) : Prop :=
  adjacent (cell_of grid_size r1.1) (cell_of grid_size r2.1).

(** A rectangle whose corners are in the wrong order, and an object. *)
Definition swapped_min : Vector.t := Vector.make 1 1 0.
Definition swapped_max : Vector.t := Vector.make (-1) (-1) 0.
Definition cube : object := {| name := "Cube"; dimensions := Vector.make 2 2 2 |}.

(** The origin, a smaller object, a random source stuck at 0, and the
    rectangle from (-10, -10) to (10, 10). *)
Definition origin : Vector.t := Vector.make 0 0 0.
Definition half_cube : object :=
  {| name := "Cube.001"; dimensions := Vector.make (1 / 2) (1 / 2) (1 / 2) |}.
Definition zeros : nat → R := λ _, 0.
Definition box_min : Vector.t := Vector.make (-10) (-10) 0.
Definition box_max : Vector.t := Vector.make 10 10 0.

(** Two objects in a circle of radius 50 (cells of size 1): the first lands
    on the centre, the second one cell to the right. *)
Definition circle_stream : nat → R := λ n, if (n =? 3)%nat then 1 / 2500 else 0.
Definition circle_w0 : world := initial_world circle_stream.
Definition circle_w1 : world :=
  grid_commit (DistributeAndDuplicateWithinCircle.grid_size 50) SetLocation half_cube
    (DDWC_sampled origin 50 circle_w0) (after_sampling circle_w0).
Definition circle_w2 : world :=
  grid_commit (DistributeAndDuplicateWithinCircle.grid_size 50) SetLocation half_cube
    (DDWC_sampled origin 50 circle_w1) (after_sampling circle_w1).

(** Two objects in a square of side 10, placed by the list script one unit
    apart. *)
Definition square_stream : nat → R := λ n, if (n =? 2)%nat then 1 / 10 else 0.
Definition square_max : Vector.t := Vector.make 10 10 0.
Definition square_w0 : world := initial_world square_stream.
Definition square_w1 : world :=
  list_commit half_cube (square_sampled origin square_max square_w0)
    (after_sampling square_w0).
Definition square_w2 : world :=
  list_commit half_cube (square_sampled origin square_max square_w1)
    (after_sampling square_w1).

(** The sampler of the specification, in its words: the radius is
    [sqrt(uniform(0, 1)) * R], the angle [uniform(0, 2 * pi)], the result the
    Cartesian offset from the centre.  The angle is drawn first, as in the
    scripts. *)
Definition area_uniform_position (center : Vector.t) (radius : R) : M (R * R) :=
  angle <- uniform 0 (2 * PI) ;;
  u <- uniform 0 1 ;;
  let r := sqrt u * radius in
  ret (Vector.x center + r * cos angle, Vector.y center + r * sin angle).

(** A random source whose second value is 1/4, the others 0. *)
Definition quarter_stream : nat → R := λ n, if (n =? 1)%nat then 1 / 4 else 0.

(** The name that an outcome reports. *)
Definition outcome_name (o : outcome) : string :=
  match o with
  | Placed item _ => name item
  | Failed item_name => item_name
  end.

(** The message of a failed copy names the object. *)
Definition message_names (msg : message) (obj : object) : Prop :=
  msg = CouldNotPlaceObject (name obj) ∨ msg = CouldNotPlaceDuplicate (name obj).

(** A commit that leaves the counters alone and adds one event. *)
Definition commit_emits (effect : object → Vector.t → event)
    (commit : object → Vector.t → world → world) : Prop :=
  ∀ obj pos w,
    trace (commit obj pos w) = trace w ++ [effect obj pos] ∧
    samplings (commit obj pos w) = samplings w ∧
    random_pos (commit obj pos w) = random_pos w ∧
    random_stream (commit obj pos w) = random_stream w.

Definition DWC_sampled (c : Vector.t) (r : R) (w : world) : Vector.t :=
  let angle := 0 + (2 * PI - 0) * random_stream w (random_pos w) in
  let radius := 0 + (r - 0) * random_stream w (S (random_pos w)) in
  Vector.make (Vector.x c + radius * cos angle)
              (Vector.y c + radius * sin angle) (Vector.z c).

(** In the circle and in no exclusion zone, as [DistributeWithinCircle.py]
    tests it: the zones are closed discs. *)
Definition DWC_inside (c : Vector.t) (r : R) (zones : list (Vector.t * R))
    (pos : Vector.t) : Prop :=
  Vector.length (Vector.sub pos c) <= r ∧
  ∀ zone_center zone_radius, (zone_center, zone_radius) ∈ zones →
    zone_radius < Vector.length (Vector.sub pos zone_center).

Definition DWC_accepted (c : Vector.t) (r : R) (zones : list (Vector.t * R))
    (padding : R) (pos dims : Vector.t) (w : world) : Prop :=
  DWC_inside c r zones pos ∧
  ∀ rec, rec ∈ positions w → min_dist dims rec.2 padding <= planar_dist pos rec.1.

(** The loop of a list script over the selection. *)
Definition list_place_object (attempt : object → M bool) (obj : object) : M unit :=
  for_range_else 1000 (attempt obj)
    (emit (Printed (CouldNotPlaceObject (name obj)))).

(** Two objects in the ring of the example of [DistributeWithinCircle.py]
    (radius 27, a zone of radius 18 on the centre), one unit apart. *)
Definition ring_stream : nat → R :=
  λ n, if (n =? 1)%nat then 20 / 27 else if (n =? 3)%nat then 21 / 27 else 0.
Definition ring_w0 : world := initial_world ring_stream.
Definition ring_w1 : world :=
  list_commit half_cube (DWC_sampled origin 27 ring_w0) (after_sampling ring_w0).
Definition ring_w2 : world :=
  list_commit half_cube (DWC_sampled origin 27 ring_w1) (after_sampling ring_w1).

(** How a copy ends, with the attempts it took: it fails after all [n]
    attempts, or commits within them, or is cut short by the exception of a
    zero cell size; every attempt draws twice from the random source. *)
Definition ends_counted (fails : Prop) (effect : object → Vector.t → event)
    (msg : message) (obj : object) (n : nat) (w : world)
    (out : result unit * world) : Prop :=
  random_pos out.2 = (random_pos w + 2 * (samplings out.2 - samplings w))%nat ∧
  random_stream out.2 = random_stream w ∧
  match out.1 with
  | Ok _ =>
      (trace out.2 = trace w ++ [Printed msg] ∧
       samplings out.2 = (samplings w + n)%nat)
      ∨ (∃ pos k, (1 ≤ k ≤ n)%nat ∧
           trace out.2 = trace w ++ [effect obj pos] ∧
           samplings out.2 = (samplings w + k)%nat)
  | Raise e =>
      e = ZeroDivisionError ∧ fails ∧ trace out.2 = trace w ∧
      ∃ k, (1 ≤ k ≤ n)%nat ∧ samplings out.2 = (samplings w + k)%nat
  end.

(** The names that the outcomes of a trace report, in order. *)
Definition reported (t : list event) : list string :=
  outcome_name <$> outcomes t.

(** The names a run of a duplicating script is to report: every object
    once for itself and once for each duplicate, in the order of the
    selection. *)
Definition requested (objs : list object) (num_duplicates : Z) : list string :=
  objs ≫= (λ obj, replicate (1 + Z.to_nat num_duplicates) (name obj)).

(** A size has the shape that [is_circle] announces. *)
Definition shaped (is_circle : bool) (s : Addon.size) : Prop :=
  match is_circle, s with
  | true, Addon.Float _ => True
  | false, Addon.Pair _ _ => True
  | _, _ => False
  end.

(** The corners of the rectangle of a centre, a width and a height. *)
Definition corner_min (c : Vector.t) (width height : R) : Vector.t :=
  Vector.make (Vector.x c - width / 2) (Vector.y c - height / 2) 0.
Definition corner_max (c : Vector.t) (width height : R) : Vector.t :=
  Vector.make (Vector.x c + width / 2) (Vector.y c + height / 2) 0.

(** In the area: the closed disc or the rectangle. *)
Definition Addon_in_area (c : Vector.t) (s : Addon.size) (pos : Vector.t) : Prop :=
  match s with
  | Addon.Float r => Vector.length (Vector.sub pos c) <= r
  | Addon.Pair width height =>
      in_box (corner_min c width height) (corner_max c width height) pos
  end.

(** In the exclusion zone: the open disc or the rectangle. *)
Definition Addon_in_zone (c : Vector.t) (s : Addon.size) (pos : Vector.t) : Prop :=
  match s with
  | Addon.Float r => Vector.length (Vector.sub pos c) < r
  | Addon.Pair width height =>
      in_box (corner_min c width height) (corner_max c width height) pos
  end.

Definition Addon_accepted (ac : Vector.t) (asz : Addon.size) (zc : Vector.t)
    (zsz : Addon.size) (padding : R) (pos dims : Vector.t) (w : world) : Prop :=
  Addon_in_area ac asz pos ∧ ¬ Addon_in_zone zc zsz pos ∧
  ∀ rec, rec ∈ positions w →
    min_dist dims rec.2 padding <= Vector.length (Vector.sub pos rec.1).

Definition Addon_sampled (ac : Vector.t) (asz : Addon.size) (w : world) : Vector.t :=
  match asz with
  | Addon.Float r => DDWC_sampled ac r w
  | Addon.Pair width height =>
      square_sampled (corner_min ac width height) (corner_max ac width height) w
  end.

(** The commit of the add-on: the host effect, then [positions.append]. *)
Definition addon_commit (effect : object → Vector.t → event)
    (obj : object) (pos : Vector.t) (w : world) : world :=
  with_positions (positions w ++ [(pos, dimensions obj)])
    (with_trace (trace w ++ [effect obj pos]) w).

(** Nothing placed or recorded between two worlds, and the same random
    source. *)
Definition same_placements (w w' : world) : Prop :=
  positions w' = positions w ∧ trace w' = trace w ∧
  random_stream w' = random_stream w.

(** The effects that a run passes to its attempts: the original is moved,
    and a duplicate is linked unless the run only distributes. *)
Definition addon_effect (distribute_only : bool)
    (effect : object → Vector.t → event) : Prop :=
  effect = SetLocation ∨ (effect = LinkCopy ∧ distribute_only = false).

(** No event of the trace links a copy. *)
Definition no_copy (t : list event) : Prop :=
  ∀ obj pos, LinkCopy obj pos ∉ t.

(** The number of duplicates the add-on makes of an object. *)
Definition Addon_duplicates (distribute_only : bool) (num_duplicates : Z) : Z :=
  if distribute_only then 0%Z else num_duplicates.

(** An object and its duplicate in the square of side 20 about the origin,
    with an excluded square of side 2: one unit apart on the x axis. *)
Definition addon_stream : nat → R :=
  λ n, if (n =? 0)%nat then 3 / 4 else if (n =? 2)%nat then 4 / 5 else 1 / 2.
Definition addon_area : Addon.size := Addon.Pair 20 20.
Definition addon_zone : Addon.size := Addon.Pair 2 2.
Definition addon_w0 : world := initial_world addon_stream.
Definition addon_w1 : world :=
  addon_commit SetLocation half_cube (Addon_sampled origin addon_area addon_w0)
    (after_sampling addon_w0).
Definition addon_w2 : world :=
  addon_commit LinkCopy half_cube (Addon_sampled origin addon_area addon_w1)
    (after_sampling addon_w1).

(** Two objects in the square from the origin to (100, 100) (cells of size
    1), placed by the rectangular grid script: the first on the corner, the
    second one cell to the right. *)
Definition lattice_stream : nat → R := λ n, if (n =? 2)%nat then 1 / 100 else 0.
Definition lattice_max : Vector.t := Vector.make 100 100 0.
Definition lattice_w0 : world := initial_world lattice_stream.
Definition lattice_w1 : world :=
  grid_commit (DistributeAndDuplicateWithinSquare.grid_size origin lattice_max)
    SetLocation half_cube (square_sampled origin lattice_max lattice_w0)
    (after_sampling lattice_w0).
Definition lattice_w2 : world :=
  grid_commit (DistributeAndDuplicateWithinSquare.grid_size origin lattice_max)
    SetLocation half_cube (square_sampled origin lattice_max lattice_w1)
    (after_sampling lattice_w1).

(** * Rules for the monad and the loops *)

Arguments for_range_else : simpl never.
Arguments for_range : simpl never.
Arguments for_each : simpl never.

Lemma for_range_else_S n body orelse :
  for_range_else (S n) body orelse
  = (b <- body ;; if b : bool then ret tt else for_range_else n body orelse).
Proof. reflexivity. Qed.

Lemma for_range_S n body : for_range (S n) body = (body ;; for_range n body).
Proof. reflexivity. Qed.

Lemma for_each_cons {A} (a : A) l body :
  for_each (a :: l) body = (body a ;; for_each l body).
Proof. reflexivity. Qed.

Lemma hoare_ret {A} (P : world → Prop) (a : A) Q E :
  (∀ w, P w → Q a w) → hoare P (ret a) Q E.
Proof. intros H w Hw. cbn. auto. Qed.

Lemma hoare_bind {A B} (P : world → Prop) (m : M A) (f : A → M B) Q R E :
  hoare P m Q E → (∀ a, hoare (Q a) (f a) R E) → hoare P (bind m f) R E.
Proof.
  intros Hm Hf w Hw. unfold bind. specialize (Hm w Hw).
  destruct (m w) as [[a|e] w']; [exact (Hf a w' Hm) | exact Hm].
Qed.

Lemma hoare_conseq {A} (P P' : world → Prop) (m : M A)
    (Q Q' : A → world → Prop) (E E' : exn → world → Prop) :
  hoare P' m Q' E' →
  (∀ w, P w → P' w) → (∀ a w, Q' a w → Q a w) → (∀ e w, E' e w → E e w) →
  hoare P m Q E.
Proof.
  intros Hm HP HQ HE w Hw. specialize (Hm w (HP w Hw)).
  destruct (m w) as [[a|e] w']; auto.
Qed.

(** The attempt loop: [I] holds before every attempt; an attempt that
    breaks establishes [Q], and so does the [else] branch. *)
Lemma hoare_for_range_else (I : world → Prop) n body orelse Q E :
  hoare I body (λ b w, if b : bool then Q tt w else I w) E →
  hoare I orelse Q E →
  hoare I (for_range_else n body orelse) Q E.
Proof.
  intros Hbody Helse. induction n as [|n IH]; [exact Helse|].
  rewrite for_range_else_S.
  eapply hoare_bind; [exact Hbody|].
  intros [|]; [apply hoare_ret; auto | exact IH].
Qed.

Lemma hoare_for_range (I : world → Prop) n body E :
  hoare I body (λ _, I) E → hoare I (for_range n body) (λ _, I) E.
Proof.
  intros Hbody. induction n as [|n IH]; [apply hoare_ret; auto|].
  rewrite for_range_S. eapply hoare_bind; [exact Hbody|]. intros []. exact IH.
Qed.

Lemma hoare_for_each {A} (I : world → Prop) (l : list A) body E :
  (∀ a, a ∈ l → hoare I (body a) (λ _, I) E) →
  hoare I (for_each l body) (λ _, I) E.
Proof.
  induction l as [|a l IH]; intros Hbody; [apply hoare_ret; auto|].
  rewrite for_each_cons. eapply hoare_bind; [apply Hbody; left|].
  intros []. apply IH. intros b Hb. apply Hbody. by right.
Qed.

Lemma hoare_emit (P : world → Prop) e (Q : unit → world → Prop) E :
  (∀ w, P w → Q tt (with_trace (trace w ++ [e]) w)) → hoare P (emit e) Q E.
Proof. intros H w Hw. cbn. auto. Qed.

(** Counting the attempts. *)

Lemma cost_le_weaken {A} (m : M A) n n' :
  cost_le m n → (n ≤ n')%nat → cost_le m n'.
Proof. intros H Hn w. specialize (H w). lia. Qed.

Lemma cost_le_ret {A} (a : A) : cost_le (ret a) 0.
Proof. intros w. cbn. lia. Qed.

Lemma cost_le_emit e : cost_le (emit e) 0.
Proof. intros w. cbn. lia. Qed.

Lemma cost_le_bind {A B} (m : M A) (f : A → M B) a b :
  cost_le m a → (∀ x, cost_le (f x) b) → cost_le (bind m f) (a + b).
Proof.
  intros Hm Hf w. unfold bind. specialize (Hm w).
  destruct (m w) as [[x|e] w1]; cbn in *; [|lia].
  specialize (Hf x w1). lia.
Qed.

Lemma cost_le_for_range_else n body orelse :
  cost_le body 1 → cost_le orelse 0 → cost_le (for_range_else n body orelse) n.
Proof.
  intros Hbody Helse. induction n as [|n IH]; [exact Helse|].
  rewrite for_range_else_S. change (S n) with (1 + n)%nat.
  apply cost_le_bind; [exact Hbody|].
  intros [|]; [|exact IH]. eapply cost_le_weaken; [apply cost_le_ret | lia].
Qed.

Lemma cost_le_for_range n body c :
  cost_le body c → cost_le (for_range n body) (n * c).
Proof.
  intros Hbody. induction n as [|n IH]; [apply cost_le_ret|].
  rewrite for_range_S. change (S n * c)%nat with (c + n * c)%nat.
  apply cost_le_bind; auto.
Qed.

Lemma cost_le_for_each {A} (l : list A) body c :
  (∀ a, cost_le (body a) c) → cost_le (for_each l body) (length l * c).
Proof.
  intros Hbody. induction l as [|a l IH]; [apply cost_le_ret|].
  rewrite for_each_cons. change (length (a :: l) * c)%nat with (c + length l * c)%nat.
  apply cost_le_bind; auto.
Qed.

(** * What validation and commit do *)

Lemma existsb_false {A} (f : A → bool) (l : list A) :
  existsb f l = false ↔ ∀ a, a ∈ l → f a = false.
Proof.
  induction l as [|b l IH]; cbn.
  - split; [intros _ a Ha; inversion Ha | done].
  - rewrite orb_false_iff, IH. split.
    + intros [Hb Hl] a Ha. apply elem_of_cons in Ha as [->|Ha]; auto.
    + intros H. split; [apply H; left | intros a Ha; apply H; by right].
Qed.

Lemma elem_of_neighbors_of c c' : c' ∈ neighbors_of c ↔ adjacent c c'.
Proof.
  destruct c as [cx cy], c' as [cx' cy']. unfold neighbors_of, adjacent. cbn.
  rewrite !elem_of_cons, elem_of_nil. split.
  - intros H. repeat destruct H as [H|H]; try done; injection H as -> ->; lia.
  - intros [Hx Hy].
    assert (cx' = cx + -1 ∨ cx' = cx + 0 ∨ cx' = cx + 1)%Z as Hcx by lia.
    assert (cy' = cy + -1 ∨ cy' = cy + 0 ∨ cy' = cy + 1)%Z as Hcy by lia.
    destruct Hcx as [->|[->| ->]], Hcy as [->|[->| ->]]; tauto.
Qed.

Lemma adjacent_sym c1 c2 : adjacent c1 c2 → adjacent c2 c1.
Proof. unfold adjacent. lia. Qed.

Lemma min_dist_sym d1 d2 padding : min_dist d1 d2 padding = min_dist d2 d1 padding.
Proof. unfold min_dist. lra. Qed.

Lemma planar_dist_sym a b : planar_dist a b = planar_dist b a.
Proof. unfold planar_dist. f_equal. lra. Qed.

Lemma planar_dist_nonneg a b : 0 <= planar_dist a b.
Proof. apply sqrt_pos. Qed.

Lemma length_sub_sym a b :
  Vector.length (Vector.sub a b) = Vector.length (Vector.sub b a).
Proof. unfold Vector.length, Vector.sub. cbn. f_equal. lra. Qed.

(** For positions in the plane [z = 0], as the scripts build them, the
    length of the difference is the planar distance. *)
Lemma length_sub_planar a b :
  Vector.z a = Vector.z b → Vector.length (Vector.sub a b) = planar_dist a b.
Proof.
  intros Hz. unfold Vector.length, Vector.sub, planar_dist. cbn. f_equal.
  rewrite Hz. lra.
Qed.

Lemma grid_cell_of_eq gs pos w :
  grid_cell_of gs pos w
  = if bool_decide (gs = 0) then (Raise ZeroDivisionError, w)
    else (Ok (cell_of gs pos), w).
Proof. unfold grid_cell_of, bind, floordiv. by case_bool_decide. Qed.

Lemma overlaps_false dist padding pos dims (records : list record) :
  overlaps dist padding pos dims records = false ↔
  ∀ r, r ∈ records → min_dist dims r.2 padding <= dist pos r.1.
Proof.
  unfold overlaps. rewrite existsb_false. split.
  - intros H [p d] Hr. specialize (H _ Hr). cbn in *.
    apply bool_decide_eq_false in H. lra.
  - intros H [p d] Hr. specialize (H _ Hr). cbn in *.
    apply bool_decide_eq_false. lra.
Qed.

Lemma overlaps_in_grid_eq dist gs padding pos dims w :
  match overlaps_in_grid dist gs padding pos dims w with
  | (Ok hit, w') =>
      w' = w ∧ gs ≠ 0 ∧
      (hit = false ↔ clear_of_neighbors dist gs padding pos dims (grid w))
  | (Raise e, w') => w' = w ∧ e = ZeroDivisionError ∧ gs = 0
  end.
Proof.
  unfold overlaps_in_grid, bind. rewrite grid_cell_of_eq.
  case_bool_decide as Hgs; [done|]. unfold get_grid, ret.
  split; [done|]. split; [done|].
  rewrite existsb_false. unfold clear_of_neighbors. split.
  - intros H c records r Hc Hl Hr. apply elem_of_neighbors_of in Hc.
    specialize (H c Hc). rewrite Hl in H. by eapply overlaps_false in H.
  - intros H c Hc. apply elem_of_neighbors_of in Hc.
    destruct (grid w !! c) as [records|] eqn:Hl; [|done].
    apply overlaps_false. intros r Hr. by eapply H.
Qed.

Lemma add_to_grid_eq gs pos dims w :
  add_to_grid gs pos dims w
  = if bool_decide (gs = 0) then (Raise ZeroDivisionError, w)
    else (Ok tt,
          with_grid (<[cell_of gs pos :=
                         default [] (grid w !! cell_of gs pos) ++ [(pos, dims)]]> (grid w)) w).
Proof.
  unfold add_to_grid, bind. rewrite grid_cell_of_eq.
  case_bool_decide as Hgs; [done|]. unfold get_grid.
  destruct (grid w !! cell_of gs pos) as [records|] eqn:Hl;
    unfold ret, set_grid; simpl.
  - by rewrite Hl.
  - rewrite lookup_insert_eq. simpl. by rewrite insert_insert_eq.
Qed.

Lemma outside_boxes_spec zones pos :
  existsb (λ '(zone_min, zone_max),
     bool_decide (Vector.x zone_min <= Vector.x pos)
     && bool_decide (Vector.x pos <= Vector.x zone_max)
     && bool_decide (Vector.y zone_min <= Vector.y pos)
     && bool_decide (Vector.y pos <= Vector.y zone_max)) zones = false
  ↔ outside_boxes zones pos.
Proof.
  rewrite existsb_false. unfold outside_boxes, in_box. split.
  - intros H zmin zmax Hz [[H1 H2] [H3 H4]]. specialize (H _ Hz). cbn in H.
    rewrite !bool_decide_eq_true_2 in H by done. done.
  - intros H [zmin zmax] Hz. specialize (H _ _ Hz).
    apply not_true_is_false. intros Ht.
    rewrite !andb_true_iff, !bool_decide_eq_true in Ht. tauto.
Qed.

(** ** The attempts of the three scripts with loops to reason about *)

Lemma DDWC_is_valid_position_eq c r zones padding pos dims w :
  match DistributeAndDuplicateWithinCircle.is_valid_position
          c r zones padding pos dims w with
  | (Ok ok, w') =>
      w' = w ∧
      (ok = true →
         DistributeAndDuplicateWithinCircle.grid_size r ≠ 0 ∧
         DDWC_accepted c r zones padding pos dims w)
  | (Raise e, w') =>
      w' = w ∧ e = ZeroDivisionError ∧
      DistributeAndDuplicateWithinCircle.grid_size r = 0
  end.
Proof.
  unfold DistributeAndDuplicateWithinCircle.is_valid_position.
  case_bool_decide as Harea; [done|].
  destruct (existsb _ zones) eqn:Hzones; [done|].
  unfold bind.
  pose proof (overlaps_in_grid_eq planar_dist
                (DistributeAndDuplicateWithinCircle.grid_size r) padding pos dims w) as Hg.
  destruct (overlaps_in_grid _ _ _ _ _ w) as [[hit|e] w']; [|done].
  destruct Hg as (-> & Hgs & Hhit).
  destruct hit; [done|]. split; [done|]. intros _. split; [done|].
  split; [|by apply Hhit]. split; [lra|].
  intros zc zr Hz. rewrite existsb_false in Hzones. specialize (Hzones _ Hz).
  cbn in Hzones. apply bool_decide_eq_false in Hzones. lra.
Qed.

Lemma DDWC_attempt_spec c r zones padding effect :
  attempt_spec
    (grid_commit (DistributeAndDuplicateWithinCircle.grid_size r) effect)
    (DistributeAndDuplicateWithinCircle.grid_size r = 0)
    (DDWC_sampled c r) (DDWC_accepted c r zones padding)
    (DistributeAndDuplicateWithinCircle.attempt c r zones padding effect).
Proof.
  intros obj w res w'.
  set (pos := DDWC_sampled c r w). set (dims := dimensions obj).
  assert (DistributeAndDuplicateWithinCircle.attempt c r zones padding effect obj w
          = (ok <- DistributeAndDuplicateWithinCircle.is_valid_position
                     c r zones padding pos dims ;;
             if ok : bool then
               emit (effect obj pos) ;;
               add_to_grid (DistributeAndDuplicateWithinCircle.grid_size r) pos dims ;;
               ret true
             else ret false) (after_sampling w)) as -> by reflexivity.
  unfold bind at 1.
  pose proof (DDWC_is_valid_position_eq c r zones padding pos dims
                (after_sampling w)) as Hv.
  destruct (DistributeAndDuplicateWithinCircle.is_valid_position _ _ _ _ _ _ _)
    as [[[|]|e] w1].
  - destruct Hv as [-> [Hgs Hacc]]; [done|]. unfold bind, emit.
    rewrite add_to_grid_eq, bool_decide_eq_false_2 by done.
    intros [= <- <-]. split; [done|]. split; [exact Hacc|]. reflexivity.
  - destruct Hv as [-> _]. by intros [= <- <-].
  - destruct Hv as (-> & -> & ?). by intros [= <- <-].
Qed.

Lemma DDWS_is_valid_position_eq amin amax zones padding pos dims w :
  match DistributeAndDuplicateWithinSquare.is_valid_position
          amin amax zones padding pos dims w with
  | (Ok ok, w') =>
      w' = w ∧
      (ok = true →
         DistributeAndDuplicateWithinSquare.grid_size amin amax ≠ 0 ∧
         DDWS_accepted amin amax zones padding pos dims w)
  | (Raise e, w') =>
      w' = w ∧ e = ZeroDivisionError ∧
      DistributeAndDuplicateWithinSquare.grid_size amin amax = 0
  end.
Proof.
  unfold DistributeAndDuplicateWithinSquare.is_valid_position.
  destruct (existsb _ zones) eqn:Hzones; [done|].
  unfold bind.
  pose proof (overlaps_in_grid_eq DistributeAndDuplicateWithinSquare.dist
                (DistributeAndDuplicateWithinSquare.grid_size amin amax)
                padding pos dims w) as Hg.
  destruct (overlaps_in_grid _ _ _ _ _ w) as [[hit|e] w']; [|done].
  destruct Hg as (-> & Hgs & Hhit).
  destruct hit; [done|]. split; [done|]. intros _. split; [done|].
  split; [by apply outside_boxes_spec | by apply Hhit].
Qed.

Lemma DDWS_attempt_spec amin amax zones padding effect :
  attempt_spec
    (grid_commit (DistributeAndDuplicateWithinSquare.grid_size amin amax) effect)
    (DistributeAndDuplicateWithinSquare.grid_size amin amax = 0)
    (square_sampled amin amax) (DDWS_accepted amin amax zones padding)
    (DistributeAndDuplicateWithinSquare.attempt amin amax zones padding effect).
Proof.
  intros obj w res w'.
  set (pos := square_sampled amin amax w). set (dims := dimensions obj).
  assert (DistributeAndDuplicateWithinSquare.attempt amin amax zones padding effect obj w
          = (ok <- DistributeAndDuplicateWithinSquare.is_valid_position
                     amin amax zones padding pos dims ;;
             if ok : bool then
               emit (effect obj pos) ;;
               add_to_grid (DistributeAndDuplicateWithinSquare.grid_size amin amax)
                 pos dims ;;
               ret true
             else ret false) (after_sampling w)) as -> by reflexivity.
  unfold bind at 1.
  pose proof (DDWS_is_valid_position_eq amin amax zones padding pos dims
                (after_sampling w)) as Hv.
  destruct (DistributeAndDuplicateWithinSquare.is_valid_position _ _ _ _ _ _ _)
    as [[[|]|e] w1].
  - destruct Hv as [-> [Hgs Hacc]]; [done|]. unfold bind, emit.
    rewrite add_to_grid_eq, bool_decide_eq_false_2 by done.
    intros [= <- <-]. split; [done|]. split; [exact Hacc|]. reflexivity.
  - destruct Hv as [-> _]. by intros [= <- <-].
  - destruct Hv as (-> & -> & ?). by intros [= <- <-].
Qed.

Lemma DWS_is_valid_position_eq zones padding pos dims w :
  ∃ ok, DistributeWithinSquare.is_valid_position zones padding pos dims w = (Ok ok, w)
        ∧ (ok = true → DWS_accepted zones padding pos dims w).
Proof.
  unfold DistributeWithinSquare.is_valid_position.
  destruct (existsb _ zones) eqn:Hzones; [by exists false|].
  unfold bind, get_positions.
  destruct (overlaps _ _ _ _ _) eqn:Hov; [by exists false|].
  exists true. split; [done|]. intros _.
  split; [by apply outside_boxes_spec | by apply overlaps_false].
Qed.

Lemma DWS_attempt_spec amin amax zones padding :
  attempt_spec list_commit False (square_sampled amin amax)
    (DWS_accepted zones padding)
    (DistributeWithinSquare.attempt amin amax zones padding).
Proof.
  intros obj w res w'.
  set (pos := square_sampled amin amax w). set (dims := dimensions obj).
  assert (DistributeWithinSquare.attempt amin amax zones padding obj w
          = (ok <- DistributeWithinSquare.is_valid_position zones padding pos dims ;;
             if ok : bool then
               positions_append (pos, dims) ;;
               emit (SetLocation obj pos) ;;
               ret true
             else ret false) (after_sampling w)) as -> by reflexivity.
  unfold bind at 1.
  destruct (DWS_is_valid_position_eq zones padding pos dims (after_sampling w))
    as (ok & -> & Hacc).
  destruct ok.
  - intros [= <- <-]. split; [tauto|]. split; [by apply Hacc|]. reflexivity.
  - by intros [= <- <-].
Qed.

(** ** From one attempt to a copy, an object, a run *)

Lemma places_SetLocation : places SetLocation.
Proof. by intros obj pos. Qed.

Lemma places_LinkCopy : places LinkCopy.
Proof. by intros obj pos. Qed.

Section Copies.
Variable commit : object → Vector.t → world → world.
Variable fails : Prop.
Variable sampled : world → Vector.t.
Variable accepted : Vector.t → Vector.t → world → Prop.
Variable attempt : object → M bool.
Hypothesis attempt_ok : attempt_spec commit fails sampled accepted attempt.

Lemma hoare_attempt (I Q : world → Prop) obj :
    (∀ w, I w → I (after_sampling w)) →
    (∀ w, I w → ¬ fails → accepted (sampled w) (dimensions obj) w →
       Q (commit obj (sampled w) (after_sampling w))) →
    hoare I (attempt obj) (λ b w, if b : bool then Q w else I w)
      (λ e w, e = ZeroDivisionError ∧ fails ∧ I w).
Proof.
    intros Hsample Hcommit w Hw.
    pose proof (attempt_ok obj w) as Hstep.
    destruct (attempt obj w) as [res w']. specialize (Hstep res w' eq_refl).
    destruct res as [[|]|e]; cbn in Hstep.
    - destruct Hstep as (Hf & Hacc & ->). auto.
    - subst w'. auto.
    - destruct Hstep as (-> & Hf & ->). auto.
Qed.

Lemma hoare_place_copy (I Q : world → Prop) obj msg n :
    (∀ w, I w → I (after_sampling w)) →
    (∀ w, I w → ¬ fails → accepted (sampled w) (dimensions obj) w →
       Q (commit obj (sampled w) (after_sampling w))) →
    (∀ w, I w → Q (with_trace (trace w ++ [Printed msg]) w)) →
    hoare I (for_range_else n (attempt obj) (emit (Printed msg))) (λ _, Q)
      (λ e w, e = ZeroDivisionError ∧ fails ∧ I w).
Proof.
    intros Hsample Hcommit Hprint.
    apply hoare_for_range_else; [by apply hoare_attempt|].
    apply hoare_emit. auto.
Qed.

Lemma cost_le_attempt obj :
    (∀ o pos w, samplings (commit o pos w) = samplings w) →
    cost_le (attempt obj) 1.
Proof.
    intros Hc w. pose proof (attempt_ok obj w) as Hstep.
    destruct (attempt obj w) as [res w']. specialize (Hstep res w' eq_refl).
    destruct res as [[|]|e]; cbn in *.
    - destruct Hstep as (_ & _ & ->). rewrite Hc. cbn. lia.
    - subst w'. cbn. lia.
    - destruct Hstep as (_ & _ & ->). cbn. lia.
Qed.

Lemma cost_le_place_copy obj msg n :
    (∀ o pos w, samplings (commit o pos w) = samplings w) →
    cost_le (for_range_else n (attempt obj) (emit (Printed msg))) n.
Proof.
    intros Hc. apply cost_le_for_range_else;
      [by apply cost_le_attempt | apply cost_le_emit].
Qed.
End Copies.

Section GridRuns.
Variable grid_size : R.
Variable sampled : world → Vector.t.
Variable accepted : Vector.t → Vector.t → world → Prop.
Variable attempt : (object → Vector.t → event) → object → M bool.
Hypothesis attempt_ok :
    ∀ effect, attempt_spec (grid_commit grid_size effect) (grid_size = 0)
                sampled accepted (attempt effect).

Lemma hoare_grid_place_object (I : world → Prop) num_duplicates obj :
    (∀ w, I w → I (after_sampling w)) →
    (∀ effect w, places effect → I w → grid_size ≠ 0 →
       accepted (sampled w) (dimensions obj) w →
       I (grid_commit grid_size effect obj (sampled w) (after_sampling w))) →
    (∀ m w, I w → I (with_trace (trace w ++ [Printed m]) w)) →
    hoare I (grid_place_object attempt num_duplicates obj) (λ _, I)
      (λ e w, e = ZeroDivisionError ∧ grid_size = 0 ∧ I w).
Proof.
    intros Hsample Hcommit Hprint. unfold grid_place_object.
    eapply hoare_bind.
    - apply (hoare_place_copy _ _ _ _ _ (attempt_ok SetLocation) I I); auto.
      intros w Hw Hgs Hacc. apply Hcommit; auto using places_SetLocation.
    - intros []. apply hoare_for_range.
      apply (hoare_place_copy _ _ _ _ _ (attempt_ok LinkCopy) I I); auto.
      intros w Hw Hgs Hacc. apply Hcommit; auto using places_LinkCopy.
Qed.

Lemma hoare_grid_run (I : world → Prop) num_duplicates objs :
    (∀ w, I w → I (after_sampling w)) →
    (∀ effect obj w, places effect → obj ∈ objs → I w → grid_size ≠ 0 →
       accepted (sampled w) (dimensions obj) w →
       I (grid_commit grid_size effect obj (sampled w) (after_sampling w))) →
    (∀ m w, I w → I (with_trace (trace w ++ [Printed m]) w)) →
    hoare I (for_each objs (grid_place_object attempt num_duplicates)) (λ _, I)
      (λ e w, e = ZeroDivisionError ∧ grid_size = 0 ∧ I w).
Proof.
    intros Hsample Hcommit Hprint. apply hoare_for_each. intros obj Hobj.
    apply hoare_grid_place_object; auto.
Qed.

Lemma cost_le_grid_place_object num_duplicates obj :
    cost_le (grid_place_object attempt num_duplicates obj)
      (1000 + Z.to_nat num_duplicates * 1000).
Proof.
    unfold grid_place_object. apply cost_le_bind.
    - by apply (cost_le_place_copy _ _ _ _ _ (attempt_ok SetLocation)).
    - intros _. apply cost_le_for_range.
      by apply (cost_le_place_copy _ _ _ _ _ (attempt_ok LinkCopy)).
Qed.

Lemma cost_le_grid_run num_duplicates objs :
    cost_le (for_each objs (grid_place_object attempt num_duplicates))
      (total_copies objs num_duplicates * 1000).
Proof.
    eapply cost_le_weaken.
    - apply cost_le_for_each. intros obj. apply cost_le_grid_place_object.
    - unfold total_copies. lia.
Qed.
End GridRuns.

(** From a triple to the world that a computation leaves. *)

Lemma hoare_run {A} (m : M A) (P : world → Prop) Q E w :
  hoare P m Q E → P w →
  match (m w).1 with Ok a => Q a (m w).2 | Raise e => E e (m w).2 end.
Proof. intros H Hw. specialize (H w Hw). by destruct (m w) as [[a|e] w']. Qed.

Lemma hoare_invariant {A} (m : M A) (I : world → Prop) E w :
  hoare I m (λ _, I) E → (∀ e w', E e w' → I w') → I w → I (m w).2.
Proof.
  intros H HE Hw. specialize (H w Hw).
  destruct (m w) as [[a|e] w']; cbn; eauto.
Qed.

(** * The runs as loops over [grid_place_object] *)

Lemma DDWC_place_object_eq c r zones padding nd :
  DistributeAndDuplicateWithinCircle.place_object c r zones padding nd
  = grid_place_object (DistributeAndDuplicateWithinCircle.attempt c r zones padding) nd.
Proof. reflexivity. Qed.

Lemma DDWS_place_object_eq amin amax zones padding nd :
  DistributeAndDuplicateWithinSquare.place_object amin amax zones padding nd
  = grid_place_object (DistributeAndDuplicateWithinSquare.attempt amin amax zones padding) nd.
Proof. reflexivity. Qed.

(** A run on a selection that is not empty is its initialisation followed
    by its loop. *)
Lemma DDWC_run_eq objs c r nd zones padding w :
  objs ≠ [] →
  DistributeAndDuplicateWithinCircle.distribute_and_duplicate_objects
    objs c r nd zones padding w
  = for_each objs
      (grid_place_object
         (DistributeAndDuplicateWithinCircle.attempt c r (default [] zones) padding) nd)
      (with_grid ∅ (with_positions [] w)).
Proof. by destruct objs. Qed.

Lemma DDWS_run_eq objs amin amax nd zones padding w :
  objs ≠ [] →
  DistributeAndDuplicateWithinSquare.distribute_and_duplicate_objects
    objs amin amax nd zones padding w
  = for_each objs
      (grid_place_object
         (DistributeAndDuplicateWithinSquare.attempt amin amax (default [] zones) padding) nd)
      (with_grid ∅ (with_positions [] w)).
Proof. by destruct objs. Qed.

Lemma DWS_run_eq objs amin amax zones padding w :
  objs ≠ [] →
  DistributeWithinSquare.distribute_objects_in_area objs amin amax zones padding w
  = for_each objs
      (DistributeWithinSquare.place_object amin amax (default [] zones) padding)
      (with_positions [] w).
Proof. by destruct objs. Qed.

(** * Termination bound *)

Lemma grid_commit_samplings gs effect obj pos w :
  samplings (grid_commit gs effect obj pos w) = samplings w.
Proof. reflexivity. Qed.

Lemma list_commit_samplings obj pos w :
  samplings (list_commit obj pos w) = samplings w.
Proof. reflexivity. Qed.

Lemma cost_le_DDWC_run objs c r nd zones padding :
  cost_le (DistributeAndDuplicateWithinCircle.distribute_and_duplicate_objects
             objs c r nd zones padding)
    (total_copies objs nd * 1000).
Proof.
  destruct objs as [|o objs]; [intros w; cbn; lia|].
  intros w. rewrite DDWC_run_eq by done.
  apply (cost_le_grid_run _ _ _ _
           (λ effect, DDWC_attempt_spec c r (default [] zones) padding effect)
           nd (o :: objs) (with_grid ∅ (with_positions [] w))).
Qed.

Lemma cost_le_DWS_place_object amin amax zones padding obj :
  cost_le (DistributeWithinSquare.place_object amin amax zones padding obj) 1000.
Proof.
  unfold DistributeWithinSquare.place_object.
  eapply cost_le_place_copy;
    [apply (DWS_attempt_spec amin amax zones padding) | apply list_commit_samplings].
Qed.

Lemma cost_le_DWS_run objs amin amax zones padding :
  cost_le (DistributeWithinSquare.distribute_objects_in_area
             objs amin amax zones padding)
    (length objs * 1000).
Proof.
  destruct objs as [|o objs]; [intros w; cbn; lia|].
  intros w. rewrite DWS_run_eq by done.
  exact (cost_le_for_each (o :: objs) _ 1000
           (cost_le_DWS_place_object amin amax (default [] zones) padding)
           (with_positions [] w)).
Qed.

(** What a copy leaves in the trace: one outcome when the loop returns,
    nothing when it raises. *)
Lemma place_copy_one_outcome commit fails sampled accepted attempt
    (effect : object → Vector.t → event) obj msg n w :
  attempt_spec commit fails sampled accepted attempt →
  places effect → msg ≠ NoObjectsSelected →
  (∀ pos w, trace (commit obj pos w) = trace w ++ [effect obj pos]) →
  let out := for_range_else n (attempt obj) (emit (Printed msg)) w in
  match out.1 with
  | Ok _ => ∃ o, outcomes (trace out.2) = outcomes (trace w) ++ [o]
  | Raise _ => trace out.2 = trace w
  end.
Proof.
  intros Hspec Heff Hmsg Htrace.
  apply (hoare_run _ (λ w', trace w' = trace w)
           (λ _ w', ∃ o, outcomes (trace w') = outcomes (trace w) ++ [o])
           (λ _ w', trace w' = trace w)); [|done].
  eapply hoare_conseq.
  - apply (hoare_place_copy _ _ _ _ _ Hspec (λ w', trace w' = trace w)
             (λ w', ∃ o, outcomes (trace w') = outcomes (trace w) ++ [o])).
    + done.
    + intros w1 Hw1 _ _. exists (Placed obj (sampled w1)).
      rewrite Htrace. cbn. rewrite Hw1. unfold outcomes.
      rewrite omap_app. cbn. by rewrite (proj2 (Heff _ _)).
    + intros w1 Hw1. cbn. rewrite Hw1. unfold outcomes. rewrite omap_app. cbn.
      destruct msg; [done | by eexists | by eexists].
  - done.
  - done.
  - by intros e w1 (_ & _ & ?).
Qed.

(** * The index *)

Lemma record_count_comm (z1 z2 : list record) (y : nat) :
  (length z1 + (length z2 + y) = length z2 + (length z1 + y))%nat.
Proof. lia. Qed.

Lemma record_count_empty : record_count ∅ = 0%nat.
Proof. apply map_fold_empty. Qed.

Lemma record_count_insert_None (g : gmap (Z * Z) (list record)) c records :
  g !! c = None →
  record_count (<[c := records]> g) = (length records + record_count g)%nat.
Proof.
  intros Hc. unfold record_count.
  rewrite map_fold_insert_L; [done | | done].
  intros. apply record_count_comm.
Qed.

Lemma record_count_delete (g : gmap (Z * Z) (list record)) c records :
  g !! c = Some records →
  record_count g = (length records + record_count (delete c g))%nat.
Proof.
  intros Hc. unfold record_count.
  rewrite (map_fold_delete_L _ _ c records g); [done | | done].
  intros. apply record_count_comm.
Qed.

Lemma record_count_append (g : gmap (Z * Z) (list record)) c r :
  record_count (<[c := default [] (g !! c) ++ [r]]> g) = S (record_count g).
Proof.
  destruct (g !! c) as [records|] eqn:Hc; cbn.
  - rewrite <- insert_delete_eq.
    rewrite record_count_insert_None by apply lookup_delete_eq.
    rewrite (record_count_delete g c records Hc), length_app. cbn. lia.
  - by rewrite record_count_insert_None.
Qed.

Lemma size_insert_le (g : gmap (Z * Z) (list record)) c records :
  (size g ≤ size (<[c := records]> g))%nat.
Proof. rewrite map_size_insert. destruct (g !! c); cbn; lia. Qed.

Lemma grid_extends_refl g : grid_extends g g.
Proof. intros c records Hc. exists []. by rewrite app_nil_r. Qed.

Lemma grid_extends_trans g1 g2 g3 :
  grid_extends g1 g2 → grid_extends g2 g3 → grid_extends g1 g3.
Proof.
  intros H12 H23 c records Hc.
  destruct (H12 c records Hc) as [m1 H1]. destruct (H23 c _ H1) as [m2 H2].
  exists (m1 ++ m2). by rewrite app_assoc.
Qed.

Lemma grid_extends_append (g : gmap (Z * Z) (list record)) c r :
  grid_extends g (<[c := default [] (g !! c) ++ [r]]> g).
Proof.
  intros c' records Hc'. destruct (decide (c = c')) as [->|Hne].
  - rewrite lookup_insert_eq, Hc'. by exists [r].
  - rewrite lookup_insert_ne by done. exists []. by rewrite app_nil_r.
Qed.

Lemma grid_wf_empty (gs : R) : grid_wf gs ∅.
Proof. intros c records r Hc. by rewrite lookup_empty in Hc. Qed.

Lemma grid_wf_append (gs : R) (g : gmap (Z * Z) (list record)) (pos dims : Vector.t) :
  grid_wf gs g →
  grid_wf gs (<[cell_of gs pos :=
                  default [] (g !! cell_of gs pos) ++ [(pos, dims)]]> g).
Proof.
  intros Hwf c records r Hc Hr.
  destruct (decide (cell_of gs pos = c)) as [<-|Hne].
  - rewrite lookup_insert_eq in Hc. injection Hc as <-.
    apply elem_of_app in Hr as [Hr|Hr].
    + destruct (g !! cell_of gs pos) as [old|] eqn:Hold; [|by inversion Hr].
      by apply (Hwf _ old).
    + apply list_elem_of_singleton in Hr. by subst r.
  - rewrite lookup_insert_ne in Hc by done. by apply (Hwf _ records).
Qed.

Lemma Zfloor_spec x : IZR (Zfloor x) <= x < IZR (Zfloor x) + 1.
Proof. apply Zfloor_bound. Qed.

(** A copy of a grid script ends in one of three ways. *)
Lemma grid_copy_cases gs sampled accepted attempt effect obj msg n w :
  attempt_spec (grid_commit gs effect) (gs = 0) sampled accepted attempt →
  let out := for_range_else n (attempt obj) (emit (Printed msg)) w in
  match out.1 with
  | Ok _ =>
      (trace out.2 = trace w ++ [Printed msg] ∧ grid out.2 = grid w)
      ∨ (∃ pos,
           trace out.2 = trace w ++ [effect obj pos] ∧
           grid out.2 = <[cell_of gs pos :=
                            default [] (grid w !! cell_of gs pos)
                            ++ [(pos, dimensions obj)]]> (grid w) ∧
           record_count (grid out.2) = S (record_count (grid w)) ∧
           (size (grid w) ≤ size (grid out.2))%nat)
  | Raise _ => trace out.2 = trace w ∧ grid out.2 = grid w
  end.
Proof.
  intros Hspec.
  set (I := λ w', trace w' = trace w ∧ grid w' = grid w).
  set (Q := λ w',
         (trace w' = trace w ++ [Printed msg] ∧ grid w' = grid w)
         ∨ (∃ pos,
              trace w' = trace w ++ [effect obj pos] ∧
              grid w' = <[cell_of gs pos :=
                            default [] (grid w !! cell_of gs pos)
                            ++ [(pos, dimensions obj)]]> (grid w) ∧
              record_count (grid w') = S (record_count (grid w)) ∧
              (size (grid w) ≤ size (grid w'))%nat)).
  assert (hoare I (for_range_else n (attempt obj) (emit (Printed msg)))
            (λ _, Q) (λ e w', e = ZeroDivisionError ∧ gs = 0 ∧ I w')) as Hh.
  { apply (hoare_place_copy _ _ _ _ _ Hspec I Q).
    - done.
    - intros w1 [Ht Hg] _ _. right. exists (sampled w1). cbn.
      rewrite Ht, Hg. split; [done|]. split; [done|].
      split; [apply record_count_append | apply size_insert_le].
    - intros w1 [Ht Hg]. left. cbn. by rewrite Ht, Hg. }
  pose proof (hoare_run _ _ _ _ w Hh (conj eq_refl eq_refl)) as Hrun.
  cbn. destruct (for_range_else _ _ _ w) as [[[]|e] w']; cbn in *;
    [exact Hrun | apply Hrun].
Qed.

Lemma placed_snoc_effect effect obj pos t :
  places effect → placed (t ++ [effect obj pos]) = placed t ++ [(pos, dimensions obj)].
Proof.
  intros Heff. unfold placed. rewrite omap_app. cbn.
  by rewrite (proj1 (Heff obj pos)).
Qed.

Lemma placed_snoc_printed m t : placed (t ++ [Printed m]) = placed t.
Proof. unfold placed. rewrite omap_app. cbn. by rewrite app_nil_r. Qed.

Lemma grid_run_grows gs sampled accepted attempt nd objs w :
  (∀ effect, attempt_spec (grid_commit gs effect) (gs = 0) sampled accepted
               (attempt effect)) →
  grows_from w (for_each objs (grid_place_object attempt nd) w).2.
Proof.
  intros Hspec.
  assert (hoare (grows_from w) (for_each objs (grid_place_object attempt nd))
            (λ _, grows_from w)
            (λ e w', e = ZeroDivisionError ∧ gs = 0 ∧ grows_from w w')) as Hh.
  { apply (hoare_grid_run gs sampled accepted attempt Hspec).
    - done.
    - intros effect obj w1 Heff _ (Hext & Hsize & Hlen & Hcount) _ _.
      unfold grows_from. cbn. rewrite placed_snoc_effect by done.
      rewrite length_app, record_count_append. cbn.
      split; [|split; [|lia]].
      + eapply grid_extends_trans; [exact Hext | apply grid_extends_append].
      + etrans; [exact Hsize | apply size_insert_le].
    - intros m w1 (Hext & Hsize & Hlen & Hcount).
      unfold grows_from. cbn. by rewrite placed_snoc_printed. }
  apply (hoare_invariant _ _ _ w Hh); [by intros e w' (_ & _ & ?)|].
  split; [apply grid_extends_refl|]. lia.
Qed.

Lemma grid_run_wf gs sampled accepted attempt nd objs w :
  (∀ effect, attempt_spec (grid_commit gs effect) (gs = 0) sampled accepted
               (attempt effect)) →
  grid_wf gs (grid w) →
  grid_wf gs (grid (for_each objs (grid_place_object attempt nd) w).2).
Proof.
  intros Hspec Hw.
  assert (hoare (λ w', grid_wf gs (grid w'))
            (for_each objs (grid_place_object attempt nd))
            (λ _ w', grid_wf gs (grid w'))
            (λ e w', e = ZeroDivisionError ∧ gs = 0 ∧ grid_wf gs (grid w'))) as Hh.
  { apply (hoare_grid_run gs sampled accepted attempt Hspec
             (λ w', grid_wf gs (grid w'))).
    - done.
    - intros effect obj w1 _ _ Hwf _ _. cbn. by apply grid_wf_append.
    - done. }
  by apply (hoare_invariant _ _ _ w Hh); [intros e w' (_ & _ & ?)|].
Qed.

Lemma DDWC_valid_reads_grid c r zones padding pos dims w w0 :
  (DistributeAndDuplicateWithinCircle.is_valid_position c r zones padding pos dims w).1
  = (DistributeAndDuplicateWithinCircle.is_valid_position c r zones padding pos dims
       (with_grid (grid w) w0)).1.
Proof.
  unfold DistributeAndDuplicateWithinCircle.is_valid_position.
  case_bool_decide; [done|]. destruct (existsb _ zones); [done|].
  unfold overlaps_in_grid, bind. rewrite !grid_cell_of_eq.
  case_bool_decide; [done|]. unfold get_grid, ret.
  change (grid (with_grid (grid w) w0)) with (grid w).
  match goal with
  | |- context [existsb ?f (neighbors_of ?cell)] =>
      by destruct (existsb f (neighbors_of cell))
  end.
Qed.

Lemma DDWC_place_original_cost c r zones padding obj :
  cost_le (DistributeAndDuplicateWithinCircle.place_original c r zones padding obj) 1000.
Proof.
  unfold DistributeAndDuplicateWithinCircle.place_original.
  eapply cost_le_place_copy;
    [apply (DDWC_attempt_spec c r zones padding SetLocation)
    | apply grid_commit_samplings].
Qed.

Lemma DDWC_place_duplicate_cost c r zones padding obj :
  cost_le (DistributeAndDuplicateWithinCircle.place_duplicate c r zones padding obj) 1000.
Proof.
  unfold DistributeAndDuplicateWithinCircle.place_duplicate.
  eapply cost_le_place_copy;
    [apply (DDWC_attempt_spec c r zones padding LinkCopy)
    | apply grid_commit_samplings].
Qed.

(** C6: every run returns or raises after a bounded number of sampling
    iterations.  A copy (the original or a duplicate) takes at most 1000
    iterations and, unless the run is cut short by an exception, leaves
    exactly one outcome: committed or failed.  A run of the circular grid
    script asked for [total_copies] copies takes at most [total_copies * 1000]
    iterations, and a run of the rectangular list script at most 1000 for
    each selected object. *)
Theorem sampling_iterations_bounded :
  (∀ c r zones padding obj w,
     let out := DistributeAndDuplicateWithinCircle.place_original
                  c r zones padding obj w in
     (samplings out.2 ≤ samplings w + 1000)%nat ∧
     match out.1 with
     | Ok _ => ∃ o, outcomes (trace out.2) = outcomes (trace w) ++ [o]
     | Raise _ => trace out.2 = trace w
     end) ∧
  (∀ c r zones padding obj w,
     let out := DistributeAndDuplicateWithinCircle.place_duplicate
                  c r zones padding obj w in
     (samplings out.2 ≤ samplings w + 1000)%nat ∧
     match out.1 with
     | Ok _ => ∃ o, outcomes (trace out.2) = outcomes (trace w) ++ [o]
     | Raise _ => trace out.2 = trace w
     end) ∧
  (∀ objs c r nd zones padding w,
     (samplings (DistributeAndDuplicateWithinCircle.distribute_and_duplicate_objects
                   objs c r nd zones padding w).2
      ≤ samplings w + total_copies objs nd * 1000)%nat) ∧
  (∀ amin amax zones padding obj w,
     let out := DistributeWithinSquare.place_object amin amax zones padding obj w in
     (samplings out.2 ≤ samplings w + 1000)%nat ∧
     match out.1 with
     | Ok _ => ∃ o, outcomes (trace out.2) = outcomes (trace w) ++ [o]
     | Raise _ => trace out.2 = trace w
     end) ∧
  (∀ objs amin amax zones padding w,
     (samplings (DistributeWithinSquare.distribute_objects_in_area
                   objs amin amax zones padding w).2
      ≤ samplings w + length objs * 1000)%nat).
Proof.
  split; [|split; [|split; [|split]]].
  - intros c r zones padding obj w. split.
    + apply DDWC_place_original_cost.
    + apply (place_copy_one_outcome _ _ _ _ _ SetLocation obj
               (CouldNotPlaceObject (name obj)) 1000 w
               (DDWC_attempt_spec c r zones padding SetLocation));
        [apply places_SetLocation | done | done].
  - intros c r zones padding obj w. split.
    + apply DDWC_place_duplicate_cost.
    + apply (place_copy_one_outcome _ _ _ _ _ LinkCopy obj
               (CouldNotPlaceDuplicate (name obj)) 1000 w
               (DDWC_attempt_spec c r zones padding LinkCopy));
        [apply places_LinkCopy | done | done].
  - intros objs c r nd zones padding w. apply cost_le_DDWC_run.
  - intros amin amax zones padding obj w. split.
    + apply cost_le_DWS_place_object.
    + apply (place_copy_one_outcome _ _ _ _ _ SetLocation obj
               (CouldNotPlaceObject (name obj)) 1000 w
               (DWS_attempt_spec amin amax zones padding));
        [apply places_SetLocation | done | done].
  - intros objs amin amax zones padding w. apply cost_le_DWS_run.
Qed.

(** C7: a copy of the circular grid script that exhausts its attempts
    prints its failure and leaves the index as it was, so later validation,
    which reads the index and nothing else of the world, is not affected by
    it; a copy that is committed adds exactly one record.  Over a whole
    selection the number of cells and the number of records never decrease,
    and the records added are as many as the placements committed. *)
Theorem failed_copy_not_indexed :
  (∀ c r zones padding obj w,
     let gs := DistributeAndDuplicateWithinCircle.grid_size r in
     let out := DistributeAndDuplicateWithinCircle.place_original
                  c r zones padding obj w in
     match out.1 with
     | Ok _ =>
         (trace out.2 = trace w ++ [Printed (CouldNotPlaceObject (name obj))]
          ∧ grid out.2 = grid w)
         ∨ (∃ pos,
              trace out.2 = trace w ++ [SetLocation obj pos] ∧
              grid out.2 = <[cell_of gs pos :=
                               default [] (grid w !! cell_of gs pos)
                               ++ [(pos, dimensions obj)]]> (grid w) ∧
              record_count (grid out.2) = S (record_count (grid w)) ∧
              (size (grid w) ≤ size (grid out.2))%nat)
     | Raise _ => trace out.2 = trace w ∧ grid out.2 = grid w
     end) ∧
  (∀ c r zones padding obj w,
     let gs := DistributeAndDuplicateWithinCircle.grid_size r in
     let out := DistributeAndDuplicateWithinCircle.place_duplicate
                  c r zones padding obj w in
     match out.1 with
     | Ok _ =>
         (trace out.2 = trace w ++ [Printed (CouldNotPlaceDuplicate (name obj))]
          ∧ grid out.2 = grid w)
         ∨ (∃ pos,
              trace out.2 = trace w ++ [LinkCopy obj pos] ∧
              grid out.2 = <[cell_of gs pos :=
                               default [] (grid w !! cell_of gs pos)
                               ++ [(pos, dimensions obj)]]> (grid w) ∧
              record_count (grid out.2) = S (record_count (grid w)) ∧
              (size (grid w) ≤ size (grid out.2))%nat)
     | Raise _ => trace out.2 = trace w ∧ grid out.2 = grid w
     end) ∧
  (∀ c r zones padding pos dims w w0,
     (DistributeAndDuplicateWithinCircle.is_valid_position
        c r zones padding pos dims w).1
     = (DistributeAndDuplicateWithinCircle.is_valid_position
          c r zones padding pos dims (with_grid (grid w) w0)).1) ∧
  (∀ objs c r nd zones padding w,
     let out := for_each objs
                  (DistributeAndDuplicateWithinCircle.place_object
                     c r zones padding nd) w in
     (size (grid w) ≤ size (grid out.2))%nat ∧
     (record_count (grid w) ≤ record_count (grid out.2))%nat ∧
     (record_count (grid out.2) + length (placed (trace w))
      = record_count (grid w) + length (placed (trace out.2)))%nat) ∧
  (∀ objs c r nd zones padding stream,
     let out := DistributeAndDuplicateWithinCircle.distribute_and_duplicate_objects
                  objs c r nd zones padding (initial_world stream) in
     record_count (grid out.2) = length (placed (trace out.2))).
Proof.
  split; [|split; [|split; [|split]]].
  - intros c r zones padding obj w.
    apply (grid_copy_cases _ _ _ _ SetLocation obj
             (CouldNotPlaceObject (name obj)) 1000 w
             (DDWC_attempt_spec c r zones padding SetLocation)).
  - intros c r zones padding obj w.
    apply (grid_copy_cases _ _ _ _ LinkCopy obj
             (CouldNotPlaceDuplicate (name obj)) 1000 w
             (DDWC_attempt_spec c r zones padding LinkCopy)).
  - apply DDWC_valid_reads_grid.
  - intros objs c r nd zones padding w.
    destruct (grid_run_grows _ _ _ _ nd objs w
                (DDWC_attempt_spec c r zones padding)) as (_ & Hsize & Hlen & Hcount).
    cbn. rewrite DDWC_place_object_eq. lia.
  - intros [|o objs] c r nd zones padding stream; [by cbn|].
    cbn zeta. rewrite DDWC_run_eq by done.
    destruct (grid_run_grows _ _ _ _ nd (o :: objs)
                (with_grid ∅ (with_positions [] (initial_world stream)))
                (DDWC_attempt_spec c r (default [] zones) padding))
      as (_ & _ & _ & Hcount).
    cbn in Hcount. rewrite record_count_empty in Hcount. lia.
Qed.

(** C8: where the cell size is not zero, [add_to_grid] returns, and the
    record goes to the end of one cell, the cell of the floors of its
    coordinates over the cell size (floors, so also for negative
    coordinates); no other cell changes.  The record is still in that cell
    after any further placements of either grid script, and after a whole
    run every record of the index sits in the cell of its own position. *)
Theorem record_in_own_cell_only (gs : R) (pos dims : Vector.t) (w : world) :
  gs ≠ 0 →
  let cell := cell_of gs pos in
  let out := add_to_grid gs pos dims w in
  out.1 = Ok tt ∧
  (IZR cell.1 <= Vector.x pos / gs < IZR cell.1 + 1) ∧
  (IZR cell.2 <= Vector.y pos / gs < IZR cell.2 + 1) ∧
  grid out.2 !! cell = Some (default [] (grid w !! cell) ++ [(pos, dims)]) ∧
  (∀ c, c ≠ cell → grid out.2 !! c = grid w !! c) ∧
  (∀ objs c r zones padding nd,
     ∃ records,
       grid (for_each objs
               (DistributeAndDuplicateWithinCircle.place_object c r zones padding nd)
               out.2).2 !! cell = Some records
       ∧ (pos, dims) ∈ records) ∧
  (∀ objs amin amax zones padding nd,
     ∃ records,
       grid (for_each objs
               (DistributeAndDuplicateWithinSquare.place_object
                  amin amax zones padding nd)
               out.2).2 !! cell = Some records
       ∧ (pos, dims) ∈ records) ∧
  (∀ objs c r nd zones padding stream,
     grid_wf (DistributeAndDuplicateWithinCircle.grid_size r)
       (grid (DistributeAndDuplicateWithinCircle.distribute_and_duplicate_objects
                objs c r nd zones padding (initial_world stream)).2)) ∧
  (∀ objs amin amax nd zones padding stream,
     grid_wf (DistributeAndDuplicateWithinSquare.grid_size amin amax)
       (grid (DistributeAndDuplicateWithinSquare.distribute_and_duplicate_objects
                objs amin amax nd zones padding (initial_world stream)).2)).
Proof.
  intros Hgs cell out.
  assert (out = (Ok tt,
                 with_grid (<[cell := default [] (grid w !! cell) ++ [(pos, dims)]]>
                              (grid w)) w)) as Hout.
  { unfold out. by rewrite add_to_grid_eq, bool_decide_eq_false_2. }
  assert (grid out.2 !! cell = Some (default [] (grid w !! cell) ++ [(pos, dims)]))
    as Hcell.
  { rewrite Hout. cbn. apply lookup_insert_eq. }
  split; [by rewrite Hout|].
  split; [apply Zfloor_spec|]. split; [apply Zfloor_spec|].
  split; [exact Hcell|].
  split; [intros c Hc; rewrite Hout; cbn; by rewrite lookup_insert_ne|].
  split; [|split; [|split]].
  - intros objs c r zones padding nd. rewrite DDWC_place_object_eq.
    destruct (grid_run_grows _ _ _ _ nd objs out.2
                (DDWC_attempt_spec c r zones padding)) as (Hext & _).
    destruct (Hext _ _ Hcell) as [more Hmore]. eexists. split; [exact Hmore|].
    set_solver.
  - intros objs amin amax zones padding nd. rewrite DDWS_place_object_eq.
    destruct (grid_run_grows _ _ _ _ nd objs out.2
                (DDWS_attempt_spec amin amax zones padding)) as (Hext & _).
    destruct (Hext _ _ Hcell) as [more Hmore]. eexists. split; [exact Hmore|].
    set_solver.
  - intros [|o objs] c r nd zones padding stream; [apply grid_wf_empty|].
    rewrite DDWC_run_eq by done.
    apply (grid_run_wf _ _ _ _ nd (o :: objs) _
             (DDWC_attempt_spec c r (default [] zones) padding)).
    apply grid_wf_empty.
  - intros [|o objs] amin amax nd zones padding stream; [apply grid_wf_empty|].
    rewrite DDWS_run_eq by done.
    apply (grid_run_wf _ _ _ _ nd (o :: objs) _
             (DDWS_attempt_spec amin amax (default [] zones) padding)).
    apply grid_wf_empty.
Qed.

Lemma record_in_own_cell_only_witness :
  (1 : R) ≠ 0 ∧
  (add_to_grid 1 left_of_origin (dimensions cube) (initial_world zeros)).1 = Ok tt ∧
  grid (add_to_grid 1 left_of_origin (dimensions cube) (initial_world zeros)).2
    !! cell_of 1 left_of_origin
  = Some [(left_of_origin, dimensions cube)] ∧
  IZR (cell_of 1 left_of_origin).1 <= Vector.x left_of_origin / 1
    < IZR (cell_of 1 left_of_origin).1 + 1.
Proof.
  assert ((1 : R) ≠ 0) as H1 by lra.
  destruct (record_in_own_cell_only 1 left_of_origin (dimensions cube)
              (initial_world zeros) H1)
    as (Hok & Hx & _ & Hcell & _).
  split; [exact H1|]. split; [exact Hok|]. split; [exact Hcell | exact Hx].
Defined.

(** The cell of a negative coordinate is the floor, not the truncation. *)
Example cell_of_negative : cell_of 1 left_of_origin = (-1, 1)%Z.
Proof.
  unfold cell_of, left_of_origin. cbn. f_equal.
  - apply Zfloor_eq. cbn. lra.
  - apply Zfloor_eq. cbn. lra.
Qed.

(** * Separation and containment *)

Lemma separated_nil dist padding near : separated dist padding near [].
Proof. intros i j r1 r2 _ Hi. by rewrite lookup_nil in Hi. Qed.

Lemma separated_snoc dist padding (near : record → record → Prop) l r :
  (∀ a b, dist a b = dist b a) →
  (∀ r1 r2, near r1 r2 → near r2 r1) →
  separated dist padding near l →
  (∀ r1, r1 ∈ l → near r r1 → min_dist r.2 r1.2 padding <= dist r.1 r1.1) →
  separated dist padding near (l ++ [r]).
Proof.
  intros Hdist Hnear Hl Hr i j r1 r2 Hij Hi Hj Hn.
  destruct (decide (i < length l)%nat) as [Hil|Hil],
           (decide (j < length l)%nat) as [Hjl|Hjl].
  - rewrite lookup_app_l in Hi, Hj by done. by apply (Hl i j).
  - rewrite lookup_app_l in Hi by done. rewrite lookup_app_r in Hj by lia.
    apply list_lookup_singleton_Some in Hj as [_ <-].
    rewrite min_dist_sym, Hdist. apply Hr; [|by apply Hnear].
    by eapply list_elem_of_lookup_2.
  - rewrite lookup_app_l in Hj by done. rewrite lookup_app_r in Hi by lia.
    apply list_lookup_singleton_Some in Hi as [_ <-].
    apply Hr; [|done]. by eapply list_elem_of_lookup_2.
  - rewrite lookup_app_r in Hi, Hj by lia.
    apply list_lookup_singleton_Some in Hi as [Hi _].
    apply list_lookup_singleton_Some in Hj as [Hj _]. lia.
Qed.

Lemma indexed_commit gs effect obj pos w :
  places effect → indexed gs w →
  indexed gs (grid_commit gs effect obj pos (after_sampling w)).
Proof.
  intros Heff Hw r Hr. cbn in *. rewrite placed_snoc_effect in Hr by done.
  apply elem_of_app in Hr as [Hr|Hr].
  - destruct (Hw r Hr) as (records & Hc & Hin).
    destruct (decide (cell_of gs pos = cell_of gs r.1)) as [Heq|Hne].
    + rewrite <- Heq in *. rewrite lookup_insert_eq, Hc. cbn.
      eexists. split; [done|]. set_solver.
    + rewrite lookup_insert_ne by done. eauto.
  - apply list_elem_of_singleton in Hr as ->. cbn.
    rewrite lookup_insert_eq. eexists. split; [done|]. set_solver.
Qed.

Lemma grid_run_separated gs dist padding sampled inside attempt nd objs w :
  (∀ a b, dist a b = dist b a) →
  (∀ effect,
     attempt_spec (grid_commit gs effect) (gs = 0) sampled
       (λ pos dims w', inside pos ∧ clear_of_neighbors dist gs padding pos dims (grid w'))
       (attempt effect)) →
  placed (trace w) = [] →
  separated dist padding (same_neighborhood gs)
    (placed (trace (for_each objs (grid_place_object attempt nd) w).2)).
Proof.
  intros Hdist Hspec Hw.
  set (I := λ w', indexed gs w' ∧
                  separated dist padding (same_neighborhood gs) (placed (trace w'))).
  assert (hoare I (for_each objs (grid_place_object attempt nd)) (λ _, I)
            (λ e w', e = ZeroDivisionError ∧ gs = 0 ∧ I w')) as Hh.
  { apply (hoare_grid_run gs _ _ attempt Hspec I).
    - done.
    - intros effect obj w1 Heff _ [Hidx Hsep] _ [_ Hclear]. split.
      + by apply indexed_commit.
      + cbn. rewrite placed_snoc_effect by done.
        apply separated_snoc; [done | | done |].
        * intros r1 r2. apply adjacent_sym.
        * intros r1 Hr1 Hnear. destruct (Hidx r1 Hr1) as (records & Hc & Hin).
          by apply (Hclear (cell_of gs r1.1) records r1).
    - intros m w1 [Hidx Hsep]. split.
      + intros r Hr. cbn in *. rewrite placed_snoc_printed in Hr. by apply Hidx.
      + cbn. by rewrite placed_snoc_printed. }
  apply (hoare_invariant _ _ _ w Hh); [by intros e w' (_ & _ & ?)|].
  split; [intros r Hr; rewrite Hw in Hr; by inversion Hr|].
  rewrite Hw. apply separated_nil.
Qed.

(** The list script: every pair is checked. *)
Lemma DWS_run_separated amin amax zones padding objs w :
  positions w = [] → placed (trace w) = [] →
  separated planar_dist padding (λ _ _, True)
    (placed (trace (for_each objs
                      (DistributeWithinSquare.place_object amin amax zones padding)
                      w).2)).
Proof.
  intros Hpos Hw.
  set (I := λ w', positions w' = placed (trace w') ∧
                  (∀ r, r ∈ positions w' → Vector.z r.1 = 0) ∧
                  separated planar_dist padding (λ _ _, True) (placed (trace w'))).
  assert (hoare I (for_each objs
                     (DistributeWithinSquare.place_object amin amax zones padding))
            (λ _, I) (λ e w', e = ZeroDivisionError ∧ False ∧ I w')) as Hh.
  { apply hoare_for_each. intros obj _.
    unfold DistributeWithinSquare.place_object.
    apply (hoare_place_copy _ _ _ _ _
             (DWS_attempt_spec amin amax zones padding) I I).
    - done.
    - intros w1 (Hp & Hz & Hsep) _ [_ Hclear]. split; [|split].
      + cbn. rewrite (placed_snoc_effect SetLocation) by apply places_SetLocation.
        by rewrite Hp.
      + cbn. intros r Hr. apply elem_of_app in Hr as [Hr|Hr]; [by apply Hz|].
        by apply list_elem_of_singleton in Hr as ->.
      + cbn. rewrite (placed_snoc_effect SetLocation) by apply places_SetLocation.
        apply separated_snoc; [apply planar_dist_sym | done | done |].
        intros r1 Hr1 _. rewrite <- Hp in Hr1. cbn.
        rewrite <- (length_sub_planar (square_sampled amin amax w1) r1.1)
          by (by rewrite (Hz r1 Hr1)).
        by apply Hclear.
    - intros w1 (Hp & Hz & Hsep). split; [|split]; cbn.
      + by rewrite placed_snoc_printed.
      + done.
      + by rewrite placed_snoc_printed. }
  apply (hoare_invariant _ _ _ w Hh); [by intros e w' (_ & _ & ?)|].
  split; [by rewrite Hpos, Hw|]. split.
  - intros r Hr. rewrite Hpos in Hr. by inversion Hr.
  - rewrite Hw. apply separated_nil.
Qed.

(** C2: two different placements committed by a run keep the distance of
    [min_dist], that is [max(f1.x, f1.y) / 2 + max(f2.x, f2.y) / 2 + padding];
    in the circular grid script when their cells are in each other's three
    by three neighbourhood, in the rectangular list script always. *)
Theorem placed_pairs_separated :
  (∀ objs c r nd zones padding stream i j p1 f1 p2 f2,
     let gs := DistributeAndDuplicateWithinCircle.grid_size r in
     let placements :=
       placed (trace (DistributeAndDuplicateWithinCircle.distribute_and_duplicate_objects
                        objs c r nd zones padding (initial_world stream)).2) in
     i ≠ j → placements !! i = Some (p1, f1) → placements !! j = Some (p2, f2) →
     adjacent (cell_of gs p1) (cell_of gs p2) →
     min_dist f1 f2 padding <= planar_dist p1 p2) ∧
  (∀ objs amin amax zones padding stream i j p1 f1 p2 f2,
     let placements :=
       placed (trace (DistributeWithinSquare.distribute_objects_in_area
                        objs amin amax zones padding (initial_world stream)).2) in
     i ≠ j → placements !! i = Some (p1, f1) → placements !! j = Some (p2, f2) →
     min_dist f1 f2 padding <= planar_dist p1 p2).
Proof.
  split.
  - intros [|o objs] c r nd zones padding stream i j p1 f1 p2 f2 gs placements
      Hij Hi Hj Hadj; [subst placements; by cbn in Hi|].
    unfold placements in Hi, Hj. rewrite DDWC_run_eq in Hi, Hj by done.
    pose proof (grid_run_separated gs planar_dist padding _ _ _ nd (o :: objs)
                  (with_grid ∅ (with_positions [] (initial_world stream)))
                  planar_dist_sym
                  (DDWC_attempt_spec c r (default [] zones) padding) eq_refl) as Hsep.
    exact (Hsep i j (p1, f1) (p2, f2) Hij Hi Hj Hadj).
  - intros [|o objs] amin amax zones padding stream i j p1 f1 p2 f2 placements
      Hij Hi Hj; [subst placements; by cbn in Hi|].
    unfold placements in Hi, Hj. rewrite DWS_run_eq in Hi, Hj by done.
    pose proof (DWS_run_separated amin amax (default [] zones) padding (o :: objs)
                  (with_positions [] (initial_world stream)) eq_refl eq_refl) as Hsep.
    exact (Hsep i j (p1, f1) (p2, f2) Hij Hi Hj I).
Qed.

Lemma outcomes_snoc_effect effect obj pos t :
  places effect → outcomes (t ++ [effect obj pos]) = outcomes t ++ [Placed obj pos].
Proof.
  intros Heff. unfold outcomes. rewrite omap_app. cbn.
  by rewrite (proj2 (Heff obj pos)).
Qed.

Lemma outcomes_snoc_printed m t o p :
  Placed o p ∈ outcomes (t ++ [Printed m]) → Placed o p ∈ outcomes t.
Proof.
  unfold outcomes. rewrite omap_app. intros H.
  apply elem_of_app in H as [H|H]; [done|].
  destruct m; cbn in H; [by inversion H | |];
    apply list_elem_of_singleton in H; discriminate.
Qed.

(** The positions that a grid script commits are the candidates that its
    validation accepted. *)
Lemma grid_run_placed gs sampled accepted attempt nd objs stream
    (P : Vector.t → Prop) w :
  (∀ effect, attempt_spec (grid_commit gs effect) (gs = 0) sampled accepted
               (attempt effect)) →
  (∀ w' dims, random_stream w' = stream → gs ≠ 0 →
     accepted (sampled w') dims w' → P (sampled w')) →
  random_stream w = stream →
  (∀ o p, Placed o p ∈ outcomes (trace w) → P p) →
  ∀ o p,
    Placed o p ∈ outcomes (trace (for_each objs (grid_place_object attempt nd) w).2) →
    P p.
Proof.
  intros Hspec HP Hs Hw.
  set (I := λ w', random_stream w' = stream ∧
                  ∀ o p, Placed o p ∈ outcomes (trace w') → P p).
  assert (hoare I (for_each objs (grid_place_object attempt nd)) (λ _, I)
            (λ e w', e = ZeroDivisionError ∧ gs = 0 ∧ I w')) as Hh.
  { apply (hoare_grid_run gs _ _ attempt Hspec I).
    - done.
    - intros effect obj w1 Heff _ [Hs1 Hout] Hgs Hacc. split; [done|].
      intros o p. cbn. rewrite outcomes_snoc_effect by done. intros Hin.
      apply elem_of_app in Hin as [Hin|Hin]; [by eapply Hout|].
      apply list_elem_of_singleton in Hin. injection Hin as -> ->.
      by eapply HP.
    - intros m w1 [Hs1 Hout]. split; [done|]. intros o p Hin. cbn in Hin.
      apply outcomes_snoc_printed in Hin. by eapply Hout. }
  by apply (hoare_invariant _ _ _ w Hh); [intros e w' (_ & _ & ?)|].
Qed.

Lemma square_sampled_in_box amin amax w :
  (∀ n, 0 <= random_stream w n < 1) →
  Vector.x amin <= Vector.x amax → Vector.y amin <= Vector.y amax →
  in_box amin amax (square_sampled amin amax w).
Proof.
  intros Hs Hx Hy. unfold in_box, square_sampled. cbn.
  pose proof (Hs (random_pos w)). pose proof (Hs (S (random_pos w))).
  repeat split; nra.
Qed.

(** C3: a position committed by the circular grid script is at most the
    radius away from the centre and inside no exclusion zone; a position
    committed by the rectangular grid script is inside no exclusion zone
    and, although validation does not check it, in the rectangle, because
    [random.uniform] draws between its bounds (a rectangle whose corners
    are in order, a random source in [0, 1)). *)
Theorem placed_positions_contained :
  (∀ objs c r nd zones padding stream o p,
     Placed o p ∈
       outcomes (trace (DistributeAndDuplicateWithinCircle.distribute_and_duplicate_objects
                          objs c r nd zones padding (initial_world stream)).2) →
     planar_dist p c <= r ∧
     ∀ zone_center zone_radius, (zone_center, zone_radius) ∈ default [] zones →
       ¬ planar_dist p zone_center < zone_radius) ∧
  (∀ objs amin amax nd zones padding stream o p,
     (∀ n, 0 <= stream n < 1) →
     Vector.x amin <= Vector.x amax → Vector.y amin <= Vector.y amax →
     Placed o p ∈
       outcomes (trace (DistributeAndDuplicateWithinSquare.distribute_and_duplicate_objects
                          objs amin amax nd zones padding (initial_world stream)).2) →
     in_box amin amax p ∧ outside_boxes (default [] zones) p).
Proof.
  split.
  - intros [|obj objs] c r nd zones padding stream o p Hin;
      [cbn in Hin; by inversion Hin|].
    rewrite DDWC_run_eq in Hin by done.
    pose proof (grid_run_placed _ _ _ _ nd (obj :: objs) stream
                  (DDWC_inside c r (default [] zones))
                  (with_grid ∅ (with_positions [] (initial_world stream)))
                  (DDWC_attempt_spec c r (default [] zones) padding)) as Hrun.
    destruct (Hrun (λ w' dims _ _ Hacc, proj1 Hacc) eq_refl
                (λ o' p' H, False_ind _ (proj1 (elem_of_nil _) H)) o p Hin)
      as [Harea Hzones].
    split; [done|]. intros zc zr Hz. specialize (Hzones zc zr Hz). lra.
  - intros [|obj objs] amin amax nd zones padding stream o p Hs Hx Hy Hin;
      [cbn in Hin; by inversion Hin|].
    rewrite DDWS_run_eq in Hin by done.
    pose proof (grid_run_placed _ _ _ _ nd (obj :: objs) stream
                  (λ q, in_box amin amax q ∧ outside_boxes (default [] zones) q)
                  (with_grid ∅ (with_positions [] (initial_world stream)))
                  (DDWS_attempt_spec amin amax (default [] zones) padding)) as Hrun.
    apply (Hrun) with (o := o); [|done| |done].
    + intros w' dims Hw' _ [Hout _]. split; [|done].
      apply square_sampled_in_box; [|done..]. by rewrite Hw'.
    + intros o' p' H. by inversion H.
Qed.

(** * Configurations that are not valid *)

Lemma DDWC_nonpositive_radius objs c r nd zones padding w :
  r <= 0 → grid w = ∅ → placed (trace w) = [] →
  let out := for_each objs
               (grid_place_object
                  (DistributeAndDuplicateWithinCircle.attempt c r zones padding) nd) w in
  grid out.2 = ∅ ∧ placed (trace out.2) = [] ∧
  match out.1 with
  | Ok _ => True
  | Raise e => e = ZeroDivisionError ∧ r = 0
  end.
Proof.
  intros Hr Hg Hp.
  set (I := λ w', grid w' = ∅ ∧ placed (trace w') = []).
  assert (hoare I (for_each objs
                     (grid_place_object
                        (DistributeAndDuplicateWithinCircle.attempt c r zones padding) nd))
            (λ _, I)
            (λ e w', e = ZeroDivisionError ∧
                     DistributeAndDuplicateWithinCircle.grid_size r = 0 ∧ I w')) as Hh.
  { apply (hoare_grid_run _ _ _ _ (DDWC_attempt_spec c r zones padding) I).
    - done.
    - intros effect obj w1 _ _ _ Hgs [[Harea _] _]. exfalso.
      pose proof (planar_dist_nonneg (DDWC_sampled c r w1) c).
      apply Hgs. unfold DistributeAndDuplicateWithinCircle.grid_size.
      assert (r = 0) as -> by lra. lra.
    - intros m w1 [Hg1 Hp1]. split; [done|]. cbn. by rewrite placed_snoc_printed. }
  pose proof (hoare_run _ _ _ _ w Hh (conj Hg Hp)) as Hrun.
  cbn zeta. destruct (for_each _ _ w) as [[[]|e] w']; cbn in *.
  - by destruct Hrun.
  - destruct Hrun as (-> & Hgs & Hg' & Hp'). split; [done|]. split; [done|].
    split; [done|]. unfold DistributeAndDuplicateWithinCircle.grid_size in Hgs. lra.
Qed.

Lemma placed_nil_all_failed t o :
  placed t = [] → o ∈ outcomes t → ∃ n, o = Failed n.
Proof.
  unfold placed, outcomes.
  induction t as [|e t IH]; [intros _ H; by inversion H|].
  cbn. destruct e as [[| |]| |]; cbn; try done.
  - intros Ht Ho. apply elem_of_cons in Ho as [->|Ho]; [by eexists | auto].
  - intros Ht Ho. apply elem_of_cons in Ho as [->|Ho]; [by eexists | auto].
Qed.

(** C4, as the scripts have it: no script checks its configuration.  In the
    circular grid script a radius that is not positive places nothing: the
    index stays empty and every outcome is a failure; the run returns
    normally when the radius is negative, and when it raises, the radius is
    zero and the exception is the [ZeroDivisionError] of the cell
    computation. *)
Theorem nonpositive_radius_places_nothing objs c r nd zones padding stream :
  r <= 0 →
  let out := DistributeAndDuplicateWithinCircle.distribute_and_duplicate_objects
               objs c r nd zones padding (initial_world stream) in
  grid out.2 = ∅ ∧
  placed (trace out.2) = [] ∧
  (∀ o, o ∈ outcomes (trace out.2) → ∃ n, o = Failed n) ∧
  match out.1 with
  | Ok _ => True
  | Raise e => e = ZeroDivisionError ∧ r = 0
  end.
Proof.
  intros Hr out.
  assert (grid out.2 = ∅ ∧ placed (trace out.2) = [] ∧
          match out.1 with
          | Ok _ => True
          | Raise e => e = ZeroDivisionError ∧ r = 0
          end) as (Hg & Hp & Hres).
  { unfold out. destruct objs as [|o objs]; [done|].
    rewrite DDWC_run_eq by done.
    by apply (DDWC_nonpositive_radius (o :: objs) c r nd (default [] zones) padding). }
  split; [done|]. split; [done|]. split; [|done].
  intros o Ho. by apply (placed_nil_all_failed (trace out.2)).
Qed.

Lemma nonpositive_radius_places_nothing_witness :
  grid (DistributeAndDuplicateWithinCircle.distribute_and_duplicate_objects
          [cube] (Vector.make 0 0 0) (-1) 2 None (1 / 10)
          (initial_world (λ _, 0))).2 = ∅.
Proof.
  assert (-1 <= 0) as H by lra.
  exact (proj1 (nonpositive_radius_places_nothing
                  [cube] (Vector.make 0 0 0) (-1) 2 None (1 / 10) (λ _, 0) H)).
Defined.

(** * Runs on concrete inputs *)

Lemma for_range_else_break n body orelse w w' :
  body w = (Ok true, w') → for_range_else (S n) body orelse w = (Ok tt, w').
Proof. intros H. rewrite for_range_else_S. unfold bind. by rewrite H. Qed.

Lemma clear_of_neighbors_empty dist gs padding pos dims :
  clear_of_neighbors dist gs padding pos dims ∅.
Proof. intros c records r _ Hc. by rewrite lookup_empty in Hc. Qed.

Lemma clear_of_neighbors_singleton dist gs padding pos dims c0 r0 :
  min_dist dims r0.2 padding <= dist pos r0.1 →
  clear_of_neighbors dist gs padding pos dims (<[c0 := [r0]]> ∅).
Proof.
  intros Hr c records r _ Hc Hin.
  destruct (decide (c0 = c)) as [->|Hne].
  - rewrite lookup_insert_eq in Hc. injection Hc as <-.
    by apply list_elem_of_singleton in Hin as ->.
  - by rewrite lookup_insert_ne, lookup_empty in Hc.
Qed.

Lemma overlaps_in_grid_clear dist gs padding pos dims w :
  gs ≠ 0 → clear_of_neighbors dist gs padding pos dims (grid w) →
  overlaps_in_grid dist gs padding pos dims w = (Ok false, w).
Proof.
  intros Hgs Hclear.
  pose proof (overlaps_in_grid_eq dist gs padding pos dims w) as H.
  destruct (overlaps_in_grid _ _ _ _ _ w) as [[hit|e] w'].
  - destruct H as (-> & _ & Hhit). apply Hhit in Hclear. by subst hit.
  - by destruct H as (_ & _ & ?).
Qed.

Lemma DDWC_attempt_accepts c r zones padding effect obj w :
  DistributeAndDuplicateWithinCircle.grid_size r ≠ 0 →
  DDWC_accepted c r zones padding (DDWC_sampled c r w) (dimensions obj) w →
  DistributeAndDuplicateWithinCircle.attempt c r zones padding effect obj w
  = (Ok true,
     grid_commit (DistributeAndDuplicateWithinCircle.grid_size r) effect obj
       (DDWC_sampled c r w) (after_sampling w)).
Proof.
  intros Hgs [[Harea Hzones] Hclear].
  set (pos := DDWC_sampled c r w). set (dims := dimensions obj).
  assert (DistributeAndDuplicateWithinCircle.attempt c r zones padding effect obj w
          = (ok <- DistributeAndDuplicateWithinCircle.is_valid_position
                     c r zones padding pos dims ;;
             if ok : bool then
               emit (effect obj pos) ;;
               add_to_grid (DistributeAndDuplicateWithinCircle.grid_size r) pos dims ;;
               ret true
             else ret false) (after_sampling w)) as -> by reflexivity.
  unfold DistributeAndDuplicateWithinCircle.is_valid_position.
  rewrite bool_decide_eq_false_2 by (fold pos in Harea; lra).
  assert (existsb (λ '(zone_center, zone_radius),
             bool_decide (planar_dist pos zone_center < zone_radius)) zones = false)
    as ->.
  { apply existsb_false. intros [zc zr] Hz. apply bool_decide_eq_false.
    specialize (Hzones zc zr Hz). fold pos in Hzones. lra. }
  unfold bind at 1 2. rewrite overlaps_in_grid_clear by done.
  unfold bind, emit, ret. by rewrite add_to_grid_eq, bool_decide_eq_false_2.
Qed.

Lemma DDWS_attempt_accepts amin amax zones padding effect obj w :
  DistributeAndDuplicateWithinSquare.grid_size amin amax ≠ 0 →
  DDWS_accepted amin amax zones padding (square_sampled amin amax w)
    (dimensions obj) w →
  DistributeAndDuplicateWithinSquare.attempt amin amax zones padding effect obj w
  = (Ok true,
     grid_commit (DistributeAndDuplicateWithinSquare.grid_size amin amax) effect obj
       (square_sampled amin amax w) (after_sampling w)).
Proof.
  intros Hgs [Hzones Hclear].
  set (pos := square_sampled amin amax w). set (dims := dimensions obj).
  assert (DistributeAndDuplicateWithinSquare.attempt amin amax zones padding effect obj w
          = (ok <- DistributeAndDuplicateWithinSquare.is_valid_position
                     amin amax zones padding pos dims ;;
             if ok : bool then
               emit (effect obj pos) ;;
               add_to_grid (DistributeAndDuplicateWithinSquare.grid_size amin amax)
                 pos dims ;;
               ret true
             else ret false) (after_sampling w)) as -> by reflexivity.
  unfold DistributeAndDuplicateWithinSquare.is_valid_position.
  rewrite (proj2 (outside_boxes_spec zones pos)) by done.
  unfold bind at 1 2. rewrite overlaps_in_grid_clear by done.
  unfold bind, emit, ret. by rewrite add_to_grid_eq, bool_decide_eq_false_2.
Qed.

Lemma DWS_attempt_accepts amin amax zones padding obj w :
  DWS_accepted zones padding (square_sampled amin amax w) (dimensions obj) w →
  DistributeWithinSquare.attempt amin amax zones padding obj w
  = (Ok true, list_commit obj (square_sampled amin amax w) (after_sampling w)).
Proof.
  intros [Hzones Hclear].
  set (pos := square_sampled amin amax w). set (dims := dimensions obj).
  assert (DistributeWithinSquare.attempt amin amax zones padding obj w
          = (ok <- DistributeWithinSquare.is_valid_position zones padding pos dims ;;
             if ok : bool then
               positions_append (pos, dims) ;;
               emit (SetLocation obj pos) ;;
               ret true
             else ret false) (after_sampling w)) as -> by reflexivity.
  unfold DistributeWithinSquare.is_valid_position.
  rewrite (proj2 (outside_boxes_spec zones pos)) by done.
  unfold bind at 1 2, get_positions.
  rewrite (proj2 (overlaps_false _ _ _ _ _)) by done.
  reflexivity.
Qed.

(** One object, no duplicate. *)
Lemma grid_place_object_first attempt obj w w' :
  attempt SetLocation obj w = (Ok true, w') →
  grid_place_object attempt 0 obj w = (Ok tt, w').
Proof.
  intros H. unfold grid_place_object, bind.
  by rewrite (for_range_else_break 999 _ _ w w' H).
Qed.

(** A grid run of the rectangular script on one object whose first
    candidate is outside the zones: the candidate is committed. *)
Lemma DDWS_run_first obj amin amax zones padding stream :
  DistributeAndDuplicateWithinSquare.grid_size amin amax ≠ 0 →
  outside_boxes (default [] zones) (square_sampled amin amax (initial_world stream)) →
  DistributeAndDuplicateWithinSquare.distribute_and_duplicate_objects
    [obj] amin amax 0 zones padding (initial_world stream)
  = (Ok tt,
     grid_commit (DistributeAndDuplicateWithinSquare.grid_size amin amax)
       SetLocation obj (square_sampled amin amax (initial_world stream))
       (after_sampling (initial_world stream))).
Proof.
  intros Hgs Hout. rewrite DDWS_run_eq by done.
  change (with_grid ∅ (with_positions [] (initial_world stream)))
    with (initial_world stream).
  rewrite for_each_cons. unfold bind.
  rewrite (grid_place_object_first _ obj _ _
             (DDWS_attempt_accepts amin amax (default [] zones) padding
                SetLocation obj _ Hgs
                (conj Hout (clear_of_neighbors_empty _ _ _ _ _)))).
  reflexivity.
Qed.

Lemma swapped_grid_size :
  DistributeAndDuplicateWithinSquare.grid_size swapped_min swapped_max = -2 / 100.
Proof.
  unfold DistributeAndDuplicateWithinSquare.grid_size. cbn.
  rewrite Rmax_left by lra. lra.
Qed.

(** C4 fails on the code: the corners of this rectangle are in the wrong
    order, so that its extent and the cell size are negative, and the run
    returns normally with the object placed. *)
Lemma invalid_extent_is_not_rejected :
  Vector.x swapped_max - Vector.x swapped_min < 0 ∧
  Vector.y swapped_max - Vector.y swapped_min < 0 ∧
  DistributeAndDuplicateWithinSquare.grid_size swapped_min swapped_max < 0 ∧
  (DistributeAndDuplicateWithinSquare.distribute_and_duplicate_objects
     [cube] swapped_min swapped_max 0 None (1 / 10) (initial_world zeros)).1 = Ok tt ∧
  outcomes
    (trace (DistributeAndDuplicateWithinSquare.distribute_and_duplicate_objects
              [cube] swapped_min swapped_max 0 None (1 / 10) (initial_world zeros)).2)
  = [Placed cube (Vector.make 1 1 0)].
Proof.
  split; [cbn; lra|]. split; [cbn; lra|].
  split; [rewrite swapped_grid_size; lra|].
  rewrite DDWS_run_first.
  - split; [done|]. cbn. do 2 f_equal. unfold square_sampled, zeros. cbn.
    f_equal; lra.
  - rewrite swapped_grid_size. lra.
  - intros zmin zmax Hz. by inversion Hz.
Qed.

(** A valid rectangle, for the containment of what is placed. *)
Lemma box_grid_size :
  DistributeAndDuplicateWithinSquare.grid_size box_min box_max = 20 / 100.
Proof.
  unfold DistributeAndDuplicateWithinSquare.grid_size. cbn.
  rewrite Rmax_left by lra. lra.
Qed.

Lemma box_run_outcomes :
  outcomes
    (trace (DistributeAndDuplicateWithinSquare.distribute_and_duplicate_objects
              [cube] box_min box_max 0 None (1 / 10) (initial_world zeros)).2)
  = [Placed cube (Vector.make (-10) (-10) 0)].
Proof.
  rewrite DDWS_run_first.
  - cbn. do 2 f_equal. unfold square_sampled, zeros. cbn. f_equal; lra.
  - rewrite box_grid_size. lra.
  - intros zmin zmax Hz. by inversion Hz.
Qed.

Lemma circle_grid_size : DistributeAndDuplicateWithinCircle.grid_size 50 = 1.
Proof. unfold DistributeAndDuplicateWithinCircle.grid_size. lra. Qed.

Lemma sqrt_of_square x y : 0 <= y → x = y * y → sqrt x = y.
Proof. intros Hy ->. by apply sqrt_square. Qed.

Lemma DDWC_sampled_angle_0 c r w :
  random_stream w (random_pos w) = 0 →
  DDWC_sampled c r w
  = Vector.make (Vector.x c + sqrt (random_stream w (S (random_pos w))) * r)
                (Vector.y c) 0.
Proof.
  intros H0. unfold DDWC_sampled. rewrite H0.
  replace (0 + (2 * PI - 0) * 0) with 0 by lra. rewrite cos_0, sin_0.
  replace (0 + (1 - 0) * random_stream w (S (random_pos w)))
    with (random_stream w (S (random_pos w))) by lra.
  f_equal; lra.
Qed.

Lemma circle_pos1 : DDWC_sampled origin 50 circle_w0 = Vector.make 0 0 0.
Proof.
  rewrite DDWC_sampled_angle_0 by reflexivity. cbn.
  rewrite sqrt_0. f_equal; lra.
Qed.

Lemma circle_pos2 : DDWC_sampled origin 50 circle_w1 = Vector.make 1 0 0.
Proof.
  rewrite DDWC_sampled_angle_0 by reflexivity. cbn.
  rewrite (sqrt_of_square (1 / 2500) (1 / 50)) by lra. f_equal; lra.
Qed.

Lemma planar_dist_on_axis a b :
  Vector.y a = Vector.y b → Vector.x b <= Vector.x a →
  planar_dist a b = Vector.x a - Vector.x b.
Proof.
  intros Hy Hx. unfold planar_dist. apply sqrt_of_square; [lra|].
  rewrite Hy. lra.
Qed.

Lemma min_dist_half_cube padding :
  min_dist (dimensions half_cube) (dimensions half_cube) padding = 1 / 2 + padding.
Proof. unfold min_dist. cbn. rewrite Rmax_left by lra. lra. Qed.

Lemma circle_run :
  DistributeAndDuplicateWithinCircle.distribute_and_duplicate_objects
    [half_cube; half_cube] origin 50 0 None (1 / 10) circle_w0
  = (Ok tt, circle_w2).
Proof.
  rewrite DDWC_run_eq by done.
  change (with_grid ∅ (with_positions [] circle_w0)) with circle_w0.
  assert (DistributeAndDuplicateWithinCircle.grid_size 50 ≠ 0) as Hgs
    by (rewrite circle_grid_size; lra).
  rewrite for_each_cons. unfold bind at 1.
  rewrite (grid_place_object_first _ half_cube circle_w0 circle_w1).
  2:{ apply DDWC_attempt_accepts; [done|]. split; [split|].
      - rewrite circle_pos1, planar_dist_on_axis; cbn; lra.
      - intros zc zr Hz. by inversion Hz.
      - apply clear_of_neighbors_empty. }
  rewrite for_each_cons. unfold bind at 1.
  rewrite (grid_place_object_first _ half_cube circle_w1 circle_w2).
  2:{ apply DDWC_attempt_accepts; [done|]. split; [split|].
      - rewrite circle_pos2, planar_dist_on_axis; cbn; lra.
      - intros zc zr Hz. by inversion Hz.
      - apply clear_of_neighbors_singleton. cbn [fst snd].
        rewrite min_dist_half_cube, circle_pos1, circle_pos2.
        rewrite planar_dist_on_axis; cbn; lra. }
  reflexivity.
Qed.

Lemma circle_placed :
  placed (trace circle_w2)
  = [(Vector.make 0 0 0, dimensions half_cube);
     (Vector.make 1 0 0, dimensions half_cube)].
Proof.
  change (placed (trace circle_w2))
    with [(DDWC_sampled origin 50 circle_w0, dimensions half_cube);
          (DDWC_sampled origin 50 circle_w1, dimensions half_cube)].
  by rewrite circle_pos1, circle_pos2.
Qed.

Lemma circle_cells_adjacent :
  adjacent (cell_of (DistributeAndDuplicateWithinCircle.grid_size 50) (Vector.make 0 0 0))
           (cell_of (DistributeAndDuplicateWithinCircle.grid_size 50) (Vector.make 1 0 0)).
Proof.
  rewrite circle_grid_size. unfold cell_of. cbn.
  rewrite (Zfloor_eq 0 (0 / 1)) by (cbn; lra).
  rewrite (Zfloor_eq 1 (1 / 1)) by (cbn; lra).
  unfold adjacent. cbn. lia.
Qed.

Lemma square_pos1 : square_sampled origin square_max square_w0 = Vector.make 0 0 0.
Proof. unfold square_sampled. cbn. f_equal; lra. Qed.

Lemma square_pos2 : square_sampled origin square_max square_w1 = Vector.make 1 0 0.
Proof. unfold square_sampled. cbn. f_equal; lra. Qed.

Lemma square_run :
  DistributeWithinSquare.distribute_objects_in_area
    [half_cube; half_cube] origin square_max None (1 / 10) square_w0
  = (Ok tt, square_w2).
Proof.
  rewrite DWS_run_eq by done.
  change (with_positions [] square_w0) with square_w0.
  rewrite for_each_cons. unfold bind at 1.
  unfold DistributeWithinSquare.place_object at 1.
  rewrite (for_range_else_break 999 _ _ square_w0 square_w1).
  2:{ apply DWS_attempt_accepts. split.
      - intros zmin zmax Hz. by inversion Hz.
      - intros r Hr. by inversion Hr. }
  rewrite for_each_cons. unfold bind at 1.
  unfold DistributeWithinSquare.place_object at 1.
  rewrite (for_range_else_break 999 _ _ square_w1 square_w2).
  2:{ apply DWS_attempt_accepts. split.
      - intros zmin zmax Hz. by inversion Hz.
      - intros r Hr. apply list_elem_of_singleton in Hr as ->. cbn [fst snd].
        rewrite min_dist_half_cube, square_pos1, square_pos2.
        unfold DistributeWithinSquare.dist.
        rewrite length_sub_planar, planar_dist_on_axis; cbn; lra. }
  reflexivity.
Qed.

Lemma square_placed :
  placed (trace square_w2)
  = [(Vector.make 0 0 0, dimensions half_cube);
     (Vector.make 1 0 0, dimensions half_cube)].
Proof.
  change (placed (trace square_w2))
    with [(square_sampled origin square_max square_w0, dimensions half_cube);
          (square_sampled origin square_max square_w1, dimensions half_cube)].
  by rewrite square_pos1, square_pos2.
Qed.

(** * The samplers *)

Lemma DDWC_sample_is_area_uniform c r w :
  DistributeAndDuplicateWithinCircle.sample_position c r w
  = (p <- area_uniform_position c r ;; ret (Vector.make p.1 p.2 0)) w.
Proof. reflexivity. Qed.

Lemma Addon_sample_is_area_uniform c r w :
  Addon.random_position c (Addon.Float r) true w
  = (p <- area_uniform_position c r ;; ret (Vector.make p.1 p.2 0)) w.
Proof. reflexivity. Qed.

(** The angle of every circular sampler is in [0, 2 * pi). *)
Lemma uniform_angle_range w :
  0 <= random_stream w (random_pos w) < 1 →
  ∃ angle, (uniform 0 (2 * PI) w).1 = Ok angle ∧ 0 <= angle < 2 * PI.
Proof.
  intros Hu. eexists. split; [reflexivity|].
  pose proof PI_RGT_0. split; nra.
Qed.

(** C1 fails in [DistributeWithinCircle.py]: its radius is
    [uniform(0, area_radius)].  With a centre at the origin, a radius of 4, a
    first draw of 0 (the angle) and a second draw of 1/4, the script puts the
    candidate at distance 1 from the centre, where the sampler of the specification,
    which the two other circular scripts have, puts it at distance 2. *)
Theorem DistributeWithinCircle_radius_is_uniform :
  (DistributeWithinCircle.sample_position origin 4 (initial_world quarter_stream)).1
  = Ok (Vector.make 1 0 0) ∧
  (area_uniform_position origin 4 (initial_world quarter_stream)).1 = Ok (2, 0) ∧
  (DistributeAndDuplicateWithinCircle.sample_position origin 4
     (initial_world quarter_stream)).1 = Ok (Vector.make 2 0 0) ∧
  (Addon.random_position origin (Addon.Float 4) true
     (initial_world quarter_stream)).1 = Ok (Vector.make 2 0 0).
Proof.
  assert (0 + (2 * PI - 0) * 0 = 0) as Hangle by lra.
  assert (sqrt (0 + (1 - 0) * (1 / 4)) = 1 / 2) as Hsqrt
    by (apply sqrt_of_square; lra).
  split; [|split; [|split]]; cbn; unfold quarter_stream; cbn;
    rewrite ?Hangle, ?Hsqrt, cos_0, sin_0; f_equal; f_equal; lra.
Qed.

(** * The exclusion zones *)

Lemma length_on_axis a b :
  Vector.y a = Vector.y b → Vector.z a = Vector.z b → Vector.x b <= Vector.x a →
  Vector.length (Vector.sub a b) = Vector.x a - Vector.x b.
Proof.
  intros Hy Hz Hx. rewrite length_sub_planar by done.
  by apply planar_dist_on_axis.
Qed.

(** In the add-on a circular zone excludes the candidates closer to its
    centre than its radius, and no other. *)
Lemma Addon_zone_is_open zc zr pos w :
  Addon.is_inside_exclusion_zone zc (Addon.Float zr) true pos w
  = (Ok (bool_decide (Vector.length (Vector.sub pos zc) < zr)), w).
Proof.
  unfold Addon.is_inside_exclusion_zone. cbn. unfold bind. cbn.
  by case_bool_decide.
Qed.

(** C5 fails in [DistributeWithinCircle.py], which tests
    [(pos - zone_center).length <= zone_radius]: with the zone of radius 18
    on the origin of its own example, the candidate (18, 0, 0), at distance
    exactly 18, is rejected.  The circular grid script, which tests [<],
    accepts the same candidate. *)
Theorem DistributeWithinCircle_excludes_zone_boundary :
  Vector.length (Vector.sub (Vector.make 18 0 0) origin) = 18 ∧
  (DistributeWithinCircle.is_valid_position origin 27 [(origin, 18)] (1 / 10)
     (Vector.make 18 0 0) (dimensions cube) (initial_world zeros)).1 = Ok false ∧
  (DistributeAndDuplicateWithinCircle.is_valid_position origin 27 [(origin, 18)]
     (1 / 10) (Vector.make 18 0 0) (dimensions cube) (initial_world zeros)).1
  = Ok true.
Proof.
  assert (Vector.length (Vector.sub (Vector.make 18 0 0) origin) = 18) as Hlen
    by (rewrite length_on_axis; cbn; lra).
  assert (planar_dist (Vector.make 18 0 0) origin = 18) as Hdist
    by (rewrite planar_dist_on_axis; cbn; lra).
  split; [exact Hlen|]. split.
  - unfold DistributeWithinCircle.is_valid_position.
    rewrite bool_decide_eq_false_2 by (rewrite Hlen; lra).
    cbn [existsb]. rewrite bool_decide_eq_true_2 by (rewrite Hlen; lra).
    reflexivity.
  - unfold DistributeAndDuplicateWithinCircle.is_valid_position.
    rewrite bool_decide_eq_false_2 by (rewrite Hdist; lra).
    cbn [existsb]. rewrite bool_decide_eq_false_2 by (rewrite Hdist; lra).
    cbn [orb]. unfold bind.
    rewrite overlaps_in_grid_clear; [done | | apply clear_of_neighbors_empty].
    unfold DistributeAndDuplicateWithinCircle.grid_size. lra.
Qed.

(** * The empty selection *)

(** C9: with nothing selected every script prints its message and returns:
    no exception, nothing drawn from the random source, no attempt, no
    position recorded, no object moved or copied; the message is no outcome. *)
Theorem empty_selection_is_noop :
  (∀ c r zones padding w,
     DistributeWithinCircle.distribute_objects_in_area [] c r zones padding w
     = (Ok tt, with_trace (trace w ++ [Printed NoObjectsSelected]) w)) ∧
  (∀ amin amax zones padding w,
     DistributeWithinSquare.distribute_objects_in_area [] amin amax zones padding w
     = (Ok tt, with_trace (trace w ++ [Printed NoObjectsSelected]) w)) ∧
  (∀ c r nd zones padding w,
     DistributeAndDuplicateWithinCircle.distribute_and_duplicate_objects
       [] c r nd zones padding w
     = (Ok tt, with_trace (trace w ++ [Printed NoObjectsSelected]) w)) ∧
  (∀ amin amax nd zones padding w,
     DistributeAndDuplicateWithinSquare.distribute_and_duplicate_objects
       [] amin amax nd zones padding w
     = (Ok tt, with_trace (trace w ++ [Printed NoObjectsSelected]) w)) ∧
  (∀ ac asz zc zsz nd padding is_circle distribute_only w,
     Addon.distribute_and_duplicate_objects
       [] ac asz zc zsz nd padding is_circle distribute_only w
     = (Ok tt, with_trace (trace w ++ [Printed NoObjectsSelected]) w)) ∧
  (∀ w, outcomes (trace (with_trace (trace w ++ [Printed NoObjectsSelected]) w))
        = outcomes (trace w)) ∧
  outcomes (trace (with_trace (trace (initial_world zeros)
                               ++ [Printed NoObjectsSelected])
                     (initial_world zeros))) = [].
Proof.
  repeat split; try reflexivity.
  intros w. cbn. unfold outcomes. rewrite omap_app. cbn. apply app_nil_r.
Qed.

(** * Validation is read-only *)

Lemma DDWC_is_valid_position_frame c r zones padding pos dims w :
  (DistributeAndDuplicateWithinCircle.is_valid_position c r zones padding pos dims w).2
  = w.
Proof.
  pose proof (DDWC_is_valid_position_eq c r zones padding pos dims w) as H.
  destruct (DistributeAndDuplicateWithinCircle.is_valid_position _ _ _ _ _ _ _)
    as [[ok|e] w']; cbn; by destruct H.
Qed.

Lemma DWS_is_valid_position_frame zones padding pos dims w :
  (DistributeWithinSquare.is_valid_position zones padding pos dims w).2 = w.
Proof.
  by destruct (DWS_is_valid_position_eq zones padding pos dims w) as (ok & -> & _).
Qed.

Lemma Addon_is_valid_position_frame ac asz zc zsz padding is_circle pos dims w :
  (Addon.is_valid_position ac asz zc zsz padding is_circle pos dims w).2 = w.
Proof.
  unfold Addon.is_valid_position, Addon.is_inside_area,
    Addon.is_inside_exclusion_zone, Addon.as_float, Addon.halves, bind.
  destruct is_circle, asz, zsz; cbn; try done;
    repeat (case_match; cbn; try done);
    unfold ret in *; simplify_eq; done.
Qed.

(** An attempt that does not commit leaves what has been placed as it
    was. *)
Lemma step_not_committed commit fails sampled accepted obj w res w' :
  step commit fails sampled accepted obj w res w' → res ≠ Ok true →
  grid w' = grid w ∧ positions w' = positions w ∧ trace w' = trace w.
Proof.
  destruct res as [[|]|e]; cbn; [done | by intros -> | by intros (_ & _ & ->)].
Qed.

Lemma Addon_attempt_not_committed ac asz zc zsz padding is_circle effect obj w res w' :
  Addon.attempt ac asz zc zsz padding is_circle effect obj w = (res, w') →
  res ≠ Ok true →
  grid w' = grid w ∧ positions w' = positions w ∧ trace w' = trace w.
Proof.
  unfold Addon.attempt.
  set (dims := dimensions obj). unfold bind at 1. unfold tick at 1.
  set (w1 := with_samplings _ w). unfold bind at 1.
  assert (∃ sampled w2, Addon.random_position ac asz is_circle w1 = (sampled, w2) ∧
                        grid w2 = grid w ∧ positions w2 = positions w ∧
                        trace w2 = trace w) as (sampled & w2 & -> & Hg & Hp & Ht).
  { unfold Addon.random_position, Addon.as_float, Addon.halves.
    destruct is_circle, asz; (eexists _, _; split; [reflexivity|done]). }
  destruct sampled as [pos|e]; [|by intros [= <- <-]].
  unfold bind.
  pose proof (Addon_is_valid_position_frame ac asz zc zsz padding is_circle
                pos dims w2) as Hv.
  destruct (Addon.is_valid_position _ _ _ _ _ _ _ _ w2) as [[[|]|e] w3];
    cbn in Hv; subst w3; cbn; intros [= <- <-]; done.
Qed.

(** C10: validation returns the world it was given, in the circular grid
    script, the rectangular list script and the add-on; and an attempt that
    does not commit its candidate (rejected, or cut short by an exception)
    leaves the index, the recorded positions and the trace of placements as
    they were. *)
Theorem validation_is_read_only :
  (∀ c r zones padding pos dims w,
     (DistributeAndDuplicateWithinCircle.is_valid_position
        c r zones padding pos dims w).2 = w) ∧
  (∀ zones padding pos dims w,
     (DistributeWithinSquare.is_valid_position zones padding pos dims w).2 = w) ∧
  (∀ ac asz zc zsz padding is_circle pos dims w,
     (Addon.is_valid_position ac asz zc zsz padding is_circle pos dims w).2 = w) ∧
  (∀ c r zones padding effect obj w,
     let out := DistributeAndDuplicateWithinCircle.attempt
                  c r zones padding effect obj w in
     match out.1 with
     | Ok true => True
     | _ => grid out.2 = grid w ∧ positions out.2 = positions w
            ∧ trace out.2 = trace w
     end) ∧
  (∀ amin amax zones padding obj w,
     let out := DistributeWithinSquare.attempt amin amax zones padding obj w in
     match out.1 with
     | Ok true => True
     | _ => grid out.2 = grid w ∧ positions out.2 = positions w
            ∧ trace out.2 = trace w
     end) ∧
  (∀ ac asz zc zsz padding is_circle effect obj w,
     let out := Addon.attempt ac asz zc zsz padding is_circle effect obj w in
     match out.1 with
     | Ok true => True
     | _ => grid out.2 = grid w ∧ positions out.2 = positions w
            ∧ trace out.2 = trace w
     end).
Proof.
  split; [apply DDWC_is_valid_position_frame|].
  split; [apply DWS_is_valid_position_frame|].
  split; [apply Addon_is_valid_position_frame|].
  split; [|split].
  - intros c r zones padding effect obj w out.
    pose proof (DDWC_attempt_spec c r zones padding effect obj w out.1 out.2) as H.
    specialize (H (surjective_pairing _)).
    destruct out.1 as [[|]|e] eqn:Hres; [done | |];
      by apply (step_not_committed _ _ _ _ _ _ _ _ H).
  - intros amin amax zones padding obj w out.
    pose proof (DWS_attempt_spec amin amax zones padding obj w out.1 out.2) as H.
    specialize (H (surjective_pairing _)).
    destruct out.1 as [[|]|e] eqn:Hres; [done | |];
      by apply (step_not_committed _ _ _ _ _ _ _ _ H).
  - intros ac asz zc zsz padding is_circle effect obj w out.
    pose proof (Addon_attempt_not_committed ac asz zc zsz padding is_circle
                  effect obj w out.1 out.2 (surjective_pairing _)) as H.
    destruct out.1 as [[|]|e]; [done | |]; by apply H.
Qed.

Lemma placed_pairs_separated_witness :
  min_dist (dimensions half_cube) (dimensions half_cube) (1 / 10)
    <= planar_dist (Vector.make 0 0 0) (Vector.make 1 0 0) ∧
  min_dist (dimensions half_cube) (dimensions half_cube) (1 / 10)
    <= planar_dist (Vector.make 1 0 0) (Vector.make 0 0 0).
Proof.
  split.
  - apply (proj1 placed_pairs_separated [half_cube; half_cube] origin 50 0%Z None
             (1 / 10) circle_stream 0%nat 1%nat).
    + discriminate.
    + fold circle_w0. rewrite circle_run. cbn [snd]. rewrite circle_placed.
      reflexivity.
    + fold circle_w0. rewrite circle_run. cbn [snd]. rewrite circle_placed.
      reflexivity.
    + apply circle_cells_adjacent.
  - apply (proj2 placed_pairs_separated [half_cube; half_cube] origin square_max None
             (1 / 10) square_stream 1%nat 0%nat).
    + discriminate.
    + fold square_w0. rewrite square_run. cbn [snd]. rewrite square_placed.
      reflexivity.
    + fold square_w0. rewrite square_run. cbn [snd]. rewrite square_placed.
      reflexivity.
Defined.

Lemma circle_outcomes :
  outcomes (trace circle_w2)
  = [Placed half_cube (Vector.make 0 0 0); Placed half_cube (Vector.make 1 0 0)].
Proof.
  change (outcomes (trace circle_w2))
    with [Placed half_cube (DDWC_sampled origin 50 circle_w0);
          Placed half_cube (DDWC_sampled origin 50 circle_w1)].
  by rewrite circle_pos1, circle_pos2.
Qed.

Lemma zeros_in_range n : 0 <= zeros n < 1.
Proof. unfold zeros. lra. Qed.

Lemma placed_positions_contained_witness :
  planar_dist (Vector.make 1 0 0) origin <= 50 ∧
  in_box box_min box_max (Vector.make (-10) (-10) 0).
Proof.
  split.
  - apply (proj1 placed_positions_contained [half_cube; half_cube] origin 50 0%Z None
             (1 / 10) circle_stream half_cube (Vector.make 1 0 0)).
    fold circle_w0. rewrite circle_run. cbn [snd]. rewrite circle_outcomes.
    apply list_elem_of_further, list_elem_of_here.
  - apply (proj2 placed_positions_contained [cube] box_min box_max 0%Z None
             (1 / 10) zeros cube (Vector.make (-10) (-10) 0)).
    + apply zeros_in_range.
    + cbn. lra.
    + cbn. lra.
    + rewrite box_run_outcomes. apply list_elem_of_here.
Defined.

(** * Further rules: loops with a counter *)

Lemma hoare_for_range_else_count (I : nat → world → Prop) n body orelse Q E :
  (∀ k, (k < n)%nat →
     hoare (I k) body (λ b w, if b : bool then Q tt w else I (S k) w) E) →
  hoare (I n) orelse Q E →
  hoare (I 0%nat) (for_range_else n body orelse) Q E.
Proof.
  revert I. induction n as [|n IH]; intros I Hbody Helse; [exact Helse|].
  rewrite for_range_else_S.
  eapply hoare_bind; [apply (Hbody 0%nat); lia|].
  intros [|]; [apply hoare_ret; auto|].
  apply (IH (λ k, I (S k))); [|exact Helse].
  intros k Hk. apply Hbody. lia.
Qed.

Lemma hoare_for_range_count (I : nat → world → Prop) n body E :
  (∀ k, (k < n)%nat → hoare (I k) body (λ _, I (S k)) E) →
  hoare (I 0%nat) (for_range n body) (λ _, I n) E.
Proof.
  revert I. induction n as [|n IH]; intros I Hbody; [apply hoare_ret; auto|].
  rewrite for_range_S.
  eapply hoare_bind; [apply (Hbody 0%nat); lia|].
  intros []. apply (IH (λ k, I (S k))). intros k Hk. apply Hbody. lia.
Qed.

Lemma hoare_for_each_prefix {A} (I : list A → world → Prop) (l : list A) body E :
  (∀ done a rest, l = done ++ a :: rest →
     hoare (I done) (body a) (λ _, I (done ++ [a])) E) →
  hoare (I []) (for_each l body) (λ _, I l) E.
Proof.
  revert I. induction l as [|a l IH]; intros I Hbody; [apply hoare_ret; auto|].
  rewrite for_each_cons.
  eapply hoare_bind; [apply (Hbody [] a l); reflexivity|].
  intros []. apply (IH (λ done, I (a :: done))).
  intros done b rest Hl. apply (Hbody (a :: done) b rest). by rewrite Hl.
Qed.

Lemma grid_commit_emits gs effect : commit_emits effect (grid_commit gs effect).
Proof. by intros obj pos w. Qed.

Lemma list_commit_emits : commit_emits SetLocation list_commit.
Proof. by intros obj pos w. Qed.

Section CopiesCounted.
Variable commit : object → Vector.t → world → world.
Variable fails : Prop.
Variable sampled : world → Vector.t.
Variable accepted : Vector.t → Vector.t → world → Prop.
Variable attempt : object → M bool.
Variable effect : object → Vector.t → event.
Hypothesis attempt_ok : attempt_spec commit fails sampled accepted attempt.
Hypothesis commit_ok : commit_emits effect commit.

  (** How a copy ends, with the attempts it took: it fails after all [n]
      attempts, or commits within them; every attempt draws twice. *)
Lemma copy_counted obj msg n w :
    let out := for_range_else n (attempt obj) (emit (Printed msg)) w in
    random_pos out.2 = (random_pos w + 2 * (samplings out.2 - samplings w))%nat ∧
    random_stream out.2 = random_stream w ∧
    match out.1 with
    | Ok _ =>
        (trace out.2 = trace w ++ [Printed msg] ∧
         samplings out.2 = (samplings w + n)%nat)
        ∨ (∃ pos k, (1 ≤ k ≤ n)%nat ∧
             trace out.2 = trace w ++ [effect obj pos] ∧
             samplings out.2 = (samplings w + k)%nat)
    | Raise e =>
        e = ZeroDivisionError ∧ fails ∧ trace out.2 = trace w ∧
        ∃ k, (1 ≤ k ≤ n)%nat ∧ samplings out.2 = (samplings w + k)%nat
    end.
Proof.
    set (I := λ (k : nat) w',
           samplings w' = (samplings w + k)%nat ∧
           random_pos w' = (random_pos w + 2 * k)%nat ∧
           random_stream w' = random_stream w ∧ trace w' = trace w).
    set (Q := λ w',
           random_pos w' = (random_pos w + 2 * (samplings w' - samplings w))%nat ∧
           random_stream w' = random_stream w ∧
           ((trace w' = trace w ++ [Printed msg] ∧
             samplings w' = (samplings w + n)%nat)
            ∨ (∃ pos k, (1 ≤ k ≤ n)%nat ∧
                 trace w' = trace w ++ [effect obj pos] ∧
                 samplings w' = (samplings w + k)%nat))).
    set (E := λ (e : exn) w',
           random_pos w' = (random_pos w + 2 * (samplings w' - samplings w))%nat ∧
           random_stream w' = random_stream w ∧
           e = ZeroDivisionError ∧ fails ∧ trace w' = trace w ∧
           ∃ k, (1 ≤ k ≤ n)%nat ∧ samplings w' = (samplings w + k)%nat).
    assert (hoare (I 0%nat) (for_range_else n (attempt obj) (emit (Printed msg)))
              (λ _, Q) E) as Hh.
    { apply hoare_for_range_else_count.
      - intros k Hk w1 (Hs & Hp & Hr & Ht).
        pose proof (attempt_ok obj w1) as Hstep.
        destruct (attempt obj w1) as [res w']. specialize (Hstep res w' eq_refl).
        destruct res as [[|]|e]; cbn in Hstep.
        + destruct Hstep as (_ & _ & ->).
          destruct (commit_ok obj (sampled w1) (after_sampling w1))
            as (Ht' & Hs' & Hp' & Hr').
          unfold Q. rewrite Hs', Hp', Hr', Ht'. cbn. rewrite Hs, Hp, Hr, Ht.
          split; [lia|]. split; [done|]. right.
          exists (sampled w1), (S k). split; [lia|]. split; [done|]. lia.
        + subst w'. unfold I. cbn. rewrite Hs, Hp, Hr, Ht.
          split; [lia|]. split; [lia|]. done.
        + destruct Hstep as (-> & Hf & ->). unfold E. cbn.
          rewrite Hs, Hp, Hr, Ht. split; [lia|]. split; [done|].
          split; [done|]. split; [done|]. split; [done|].
          exists (S k). lia.
      - apply hoare_emit. intros w1 (Hs & Hp & Hr & Ht). unfold Q. cbn.
        rewrite Hs, Hp, Hr, Ht. split; [lia|]. split; [done|]. by left. }
    assert (I 0%nat w) as Hw.
    { unfold I. split; [lia|]. split; [lia|]. done. }
    pose proof (hoare_run _ _ _ _ w Hh Hw) as Hrun.
    cbn zeta. destruct (for_range_else _ _ _ w) as [[[]|e] w']; cbn in *.
    - destruct Hrun as (? & ? & ?). done.
    - destruct Hrun as (? & ? & ? & ? & ? & ?). done.
Qed.
End CopiesCounted.

(** * The list scripts *)

Lemma DWC_dist_planar a b : DistributeWithinCircle.dist a b = planar_dist a b.
Proof.
  unfold DistributeWithinCircle.dist. by rewrite length_sub_planar.
Qed.

Lemma DWC_is_valid_position_eq c r zones padding pos dims w :
  ∃ ok, DistributeWithinCircle.is_valid_position c r zones padding pos dims w
        = (Ok ok, w)
        ∧ (ok = true ↔ DWC_accepted c r zones padding pos dims w).
Proof.
  unfold DistributeWithinCircle.is_valid_position, DWC_accepted, DWC_inside.
  case_bool_decide as Harea.
  { exists false. split; [done|]. split; [done|]. intros [[? _] _]. lra. }
  destruct (existsb _ zones) eqn:Hzones.
  { exists false. split; [done|]. split; [done|]. intros [[_ Hz] _].
    apply not_true_iff_false in Hzones; [done|]. apply existsb_false.
    intros [zc zr] Hin. apply bool_decide_eq_false. specialize (Hz _ _ Hin). lra. }
  assert (∀ zc zr, (zc, zr) ∈ zones → zr < Vector.length (Vector.sub pos zc)) as Hz.
  { intros zc zr Hin. rewrite existsb_false in Hzones. specialize (Hzones _ Hin).
    cbn in Hzones. apply bool_decide_eq_false in Hzones. lra. }
  unfold bind, get_positions.
  destruct (overlaps _ _ _ _ _) eqn:Hov.
  - exists false. split; [done|]. split; [done|]. intros [_ Hclear].
    apply not_true_iff_false in Hov; [done|]. apply overlaps_false.
    intros rec Hrec. rewrite DWC_dist_planar. by apply Hclear.
  - exists true. split; [done|]. split; [|done]. intros _.
    split; [split; [lra | done]|]. intros rec Hrec.
    rewrite <- DWC_dist_planar. by eapply overlaps_false in Hov.
Qed.

Lemma DWC_attempt_eq c r zones padding obj w :
  DistributeWithinCircle.attempt c r zones padding obj w
  = (ok <- DistributeWithinCircle.is_valid_position c r zones padding
             (DWC_sampled c r w) (dimensions obj) ;;
     if ok : bool then
       positions_append (DWC_sampled c r w, dimensions obj) ;;
       emit (SetLocation obj (DWC_sampled c r w)) ;;
       ret true
     else ret false) (after_sampling w).
Proof. reflexivity. Qed.

Lemma DWC_attempt_spec c r zones padding :
  attempt_spec list_commit False (DWC_sampled c r) (DWC_accepted c r zones padding)
    (DistributeWithinCircle.attempt c r zones padding).
Proof.
  intros obj w res w'. rewrite DWC_attempt_eq. unfold bind at 1.
  destruct (DWC_is_valid_position_eq c r zones padding (DWC_sampled c r w)
              (dimensions obj) (after_sampling w)) as (ok & -> & Hacc).
  destruct ok.
  - intros [= <- <-]. split; [tauto|]. split; [by apply Hacc|]. reflexivity.
  - by intros [= <- <-].
Qed.

Lemma DWC_attempt_accepts c r zones padding obj w :
  DWC_accepted c r zones padding (DWC_sampled c r w) (dimensions obj) w →
  DistributeWithinCircle.attempt c r zones padding obj w
  = (Ok true, list_commit obj (DWC_sampled c r w) (after_sampling w)).
Proof.
  intros Hacc. rewrite DWC_attempt_eq. unfold bind at 1.
  destruct (DWC_is_valid_position_eq c r zones padding (DWC_sampled c r w)
              (dimensions obj) (after_sampling w)) as (ok & -> & Hok).
  by rewrite (proj2 Hok Hacc).
Qed.

Lemma DWC_run_eq objs c r zones padding w :
  objs ≠ [] →
  DistributeWithinCircle.distribute_objects_in_area objs c r zones padding w
  = for_each objs
      (DistributeWithinCircle.place_object c r (default [] zones) padding)
      (with_positions [] w).
Proof. by destruct objs. Qed.

Section ListRuns.
Variable sampled : world → Vector.t.
Variable accepted : Vector.t → Vector.t → world → Prop.
Variable attempt : object → M bool.
Hypothesis attempt_ok : attempt_spec list_commit False sampled accepted attempt.

Lemma hoare_list_run (I : world → Prop) objs :
    (∀ w, I w → I (after_sampling w)) →
    (∀ obj w, obj ∈ objs → I w → accepted (sampled w) (dimensions obj) w →
       I (list_commit obj (sampled w) (after_sampling w))) →
    (∀ m w, I w → I (with_trace (trace w ++ [Printed m]) w)) →
    hoare I (for_each objs (list_place_object attempt)) (λ _, I) (λ _ _, False).
Proof.
    intros Hsample Hcommit Hprint. apply hoare_for_each. intros obj Hobj.
    unfold list_place_object. eapply hoare_conseq.
    - apply (hoare_place_copy _ _ _ _ _ attempt_ok I I); auto.
    - done.
    - done.
    - by intros e w (_ & ? & _).
Qed.

Lemma list_run_returns objs w :
    (for_each objs (list_place_object attempt) w).1 = Ok tt.
Proof.
    pose proof (hoare_run _ _ _ _ w
                  (hoare_list_run (λ _, True) objs (λ _ _, I) (λ _ _ _ _ _, I)
                     (λ _ _ _, I)) I) as H.
    by destruct (for_each _ _ w) as [[[]|e] w'].
Qed.

Lemma list_run_invariant (I : world → Prop) objs w :
    (∀ w, I w → I (after_sampling w)) →
    (∀ obj w, obj ∈ objs → I w → accepted (sampled w) (dimensions obj) w →
       I (list_commit obj (sampled w) (after_sampling w))) →
    (∀ m w, I w → I (with_trace (trace w ++ [Printed m]) w)) →
    I w → I (for_each objs (list_place_object attempt) w).2.
Proof.
    intros H1 H2 H3. apply hoare_invariant with (E := λ _ _, False);
      [by apply hoare_list_run | done].
Qed.

  (** Every pair of placements of a list script was checked. *)
Lemma list_run_separated padding objs w :
    (∀ pos dims w', accepted pos dims w' →
       ∀ rec, rec ∈ positions w' → min_dist dims rec.2 padding <= planar_dist pos rec.1) →
    positions w = [] → placed (trace w) = [] →
    separated planar_dist padding (λ _ _, True)
      (placed (trace (for_each objs (list_place_object attempt) w).2)).
Proof.
    intros Hacc Hpos Hw.
    apply (list_run_invariant
             (λ w', positions w' = placed (trace w') ∧
                    separated planar_dist padding (λ _ _, True) (placed (trace w')))).
    - done.
    - intros obj w1 _ [Hp Hsep] Ha. cbn.
      rewrite (placed_snoc_effect SetLocation) by apply places_SetLocation.
      split; [by rewrite Hp|].
      apply separated_snoc; [apply planar_dist_sym | done | done |].
      intros r1 Hr1 _. rewrite <- Hp in Hr1. by apply (Hacc _ _ w1).
    - intros m w1 [Hp Hsep]. cbn. by rewrite placed_snoc_printed.
    - rewrite Hpos, Hw. split; [done | apply separated_nil].
Qed.

  (** What a list script commits, validation accepted. *)
Lemma list_run_placed stream (P : Vector.t → Prop) objs w :
    (∀ w' dims, random_stream w' = stream →
       accepted (sampled w') dims w' → P (sampled w')) →
    random_stream w = stream →
    (∀ o p, Placed o p ∈ outcomes (trace w) → P p) →
    ∀ o p,
      Placed o p ∈ outcomes (trace (for_each objs (list_place_object attempt) w).2) →
      P p.
Proof.
    intros HP Hs Hw.
    apply (list_run_invariant
             (λ w', random_stream w' = stream ∧
                    ∀ o p, Placed o p ∈ outcomes (trace w') → P p)); [| | |done].
    - done.
    - intros obj w1 _ [Hs1 Hout] Ha. split; [done|]. intros o p. cbn.
      rewrite (outcomes_snoc_effect SetLocation) by apply places_SetLocation.
      intros Hin. apply elem_of_app in Hin as [Hin|Hin]; [by eapply Hout|].
      apply list_elem_of_singleton in Hin. injection Hin as -> ->. by eapply HP.
    - intros m w1 [Hs1 Hout]. split; [done|]. intros o p Hin. cbn in Hin.
      apply outcomes_snoc_printed in Hin. by eapply Hout.
Qed.
End ListRuns.

Lemma DWC_place_object_eq c r zones padding :
  DistributeWithinCircle.place_object c r zones padding
  = list_place_object (DistributeWithinCircle.attempt c r zones padding).
Proof. reflexivity. Qed.

Lemma DWS_place_object_eq amin amax zones padding :
  DistributeWithinSquare.place_object amin amax zones padding
  = list_place_object (DistributeWithinSquare.attempt amin amax zones padding).
Proof. reflexivity. Qed.

(** X1: what [DistributeWithinCircle.py] places is at most the radius away
    from the centre and strictly outside every exclusion zone, boundary
    included in the zone. *)
Theorem DistributeWithinCircle_placed_contained :
  ∀ objs c r zones padding stream o p,
    Placed o p ∈
      outcomes (trace (DistributeWithinCircle.distribute_objects_in_area
                         objs c r zones padding (initial_world stream)).2) →
    Vector.length (Vector.sub p c) <= r ∧
    ∀ zone_center zone_radius, (zone_center, zone_radius) ∈ default [] zones →
      zone_radius < Vector.length (Vector.sub p zone_center).
Proof.
  intros [|obj objs] c r zones padding stream o p Hin;
    [cbn in Hin; by inversion Hin|].
  rewrite DWC_run_eq, DWC_place_object_eq in Hin by done.
  apply (list_run_placed _ _ _ (DWC_attempt_spec c r (default [] zones) padding)
           stream (DWC_inside c r (default [] zones)) (obj :: objs)
           (with_positions [] (initial_world stream))) with (o := o);
    [| done | | done].
  - by intros w' dims _ [Hinside _].
  - intros o' p' H. by inversion H.
Qed.

(** X2: any two different placements of [DistributeWithinCircle.py] keep
    the distance of [min_dist]; the linear scan checks every pair. *)
Theorem DistributeWithinCircle_pairs_separated :
  ∀ objs c r zones padding stream i j p1 f1 p2 f2,
    let placements :=
      placed (trace (DistributeWithinCircle.distribute_objects_in_area
                       objs c r zones padding (initial_world stream)).2) in
    i ≠ j → placements !! i = Some (p1, f1) → placements !! j = Some (p2, f2) →
    min_dist f1 f2 padding <= planar_dist p1 p2.
Proof.
  intros [|o objs] c r zones padding stream i j p1 f1 p2 f2 placements
    Hij Hi Hj; [subst placements; by cbn in Hi|].
  unfold placements in Hi, Hj.
  rewrite DWC_run_eq, DWC_place_object_eq in Hi, Hj by done.
  pose proof (list_run_separated _ _ _
                (DWC_attempt_spec c r (default [] zones) padding) padding
                (o :: objs) (with_positions [] (initial_world stream))
                (λ pos dims w' Ha, proj2 Ha) eq_refl eq_refl) as Hsep.
  exact (Hsep i j (p1, f1) (p2, f2) Hij Hi Hj I).
Qed.

(** X3: what [DistributeWithinSquare.py] places is in the rectangle and in
    no exclusion zone, for corners in order and a random source in [0, 1);
    validation checks the zones only. *)
Theorem DistributeWithinSquare_placed_contained :
  ∀ objs amin amax zones padding stream o p,
    (∀ n, 0 <= stream n < 1) →
    Vector.x amin <= Vector.x amax → Vector.y amin <= Vector.y amax →
    Placed o p ∈
      outcomes (trace (DistributeWithinSquare.distribute_objects_in_area
                         objs amin amax zones padding (initial_world stream)).2) →
    in_box amin amax p ∧ outside_boxes (default [] zones) p.
Proof.
  intros [|obj objs] amin amax zones padding stream o p Hs Hx Hy Hin;
    [cbn in Hin; by inversion Hin|].
  rewrite DWS_run_eq, DWS_place_object_eq in Hin by done.
  apply (list_run_placed _ _ _
           (DWS_attempt_spec amin amax (default [] zones) padding) stream
           (λ q, in_box amin amax q ∧ outside_boxes (default [] zones) q)
           (obj :: objs) (with_positions [] (initial_world stream))) with (o := o);
    [| done | | done].
  - intros w' dims Hw' [Hout _]. split; [|done].
    apply square_sampled_in_box; [|done..]. by rewrite Hw'.
  - intros o' p' H. by inversion H.
Qed.

Lemma DWC_sampled_angle_0 c r w :
  random_stream w (random_pos w) = 0 →
  DWC_sampled c r w
  = Vector.make (Vector.x c + r * random_stream w (S (random_pos w)))
                (Vector.y c) (Vector.z c).
Proof.
  intros H0. unfold DWC_sampled. rewrite H0.
  replace (0 + (2 * PI - 0) * 0) with 0 by lra. rewrite cos_0, sin_0.
  f_equal; lra.
Qed.

Lemma ring_pos1 : DWC_sampled origin 27 ring_w0 = Vector.make 20 0 0.
Proof.
  rewrite DWC_sampled_angle_0 by reflexivity. cbn. f_equal; lra.
Qed.

Lemma ring_pos2 : DWC_sampled origin 27 ring_w1 = Vector.make 21 0 0.
Proof.
  rewrite DWC_sampled_angle_0 by reflexivity. cbn. f_equal; lra.
Qed.

Lemma ring_inside x :
  18 < x <= 27 → DWC_inside origin 27 [(origin, 18)] (Vector.make x 0 0).
Proof.
  intros Hx.
  assert (Vector.length (Vector.sub (Vector.make x 0 0) origin) = x) as Hlen
    by (rewrite length_on_axis; cbn; lra).
  split; [rewrite Hlen; lra|].
  intros zc zr Hz. apply list_elem_of_singleton in Hz. injection Hz as -> ->.
  rewrite Hlen. lra.
Qed.

Lemma ring_run :
  DistributeWithinCircle.distribute_objects_in_area
    [half_cube; half_cube] origin 27 (Some [(origin, 18)]) (1 / 10) ring_w0
  = (Ok tt, ring_w2).
Proof.
  rewrite DWC_run_eq by done.
  change (with_positions [] ring_w0) with ring_w0.
  rewrite for_each_cons. unfold bind at 1.
  unfold DistributeWithinCircle.place_object at 1.
  rewrite (for_range_else_break 999 _ _ ring_w0 ring_w1).
  2:{ apply DWC_attempt_accepts. split.
      - rewrite ring_pos1. apply ring_inside. lra.
      - intros r Hr. by inversion Hr. }
  rewrite for_each_cons. unfold bind at 1.
  unfold DistributeWithinCircle.place_object at 1.
  rewrite (for_range_else_break 999 _ _ ring_w1 ring_w2).
  2:{ apply DWC_attempt_accepts. split.
      - rewrite ring_pos2. apply ring_inside. lra.
      - intros r Hr. apply list_elem_of_singleton in Hr as ->. cbn [fst snd].
        rewrite min_dist_half_cube, ring_pos1, ring_pos2.
        rewrite planar_dist_on_axis; cbn; lra. }
  reflexivity.
Qed.

Lemma ring_placed :
  placed (trace ring_w2)
  = [(Vector.make 20 0 0, dimensions half_cube);
     (Vector.make 21 0 0, dimensions half_cube)].
Proof.
  change (placed (trace ring_w2))
    with [(DWC_sampled origin 27 ring_w0, dimensions half_cube);
          (DWC_sampled origin 27 ring_w1, dimensions half_cube)].
  by rewrite ring_pos1, ring_pos2.
Qed.

Lemma ring_outcomes :
  outcomes (trace ring_w2)
  = [Placed half_cube (Vector.make 20 0 0); Placed half_cube (Vector.make 21 0 0)].
Proof.
  change (outcomes (trace ring_w2))
    with [Placed half_cube (DWC_sampled origin 27 ring_w0);
          Placed half_cube (DWC_sampled origin 27 ring_w1)].
  by rewrite ring_pos1, ring_pos2.
Qed.

Lemma DistributeWithinCircle_placed_contained_witness :
  Vector.length (Vector.sub (Vector.make 20 0 0) origin) <= 27.
Proof.
  apply (DistributeWithinCircle_placed_contained [half_cube; half_cube] origin 27
           (Some [(origin, 18)]) (1 / 10) ring_stream half_cube (Vector.make 20 0 0)).
  fold ring_w0. rewrite ring_run. cbn [snd]. rewrite ring_outcomes.
  apply list_elem_of_here.
Defined.

Lemma DistributeWithinCircle_pairs_separated_witness :
  min_dist (dimensions half_cube) (dimensions half_cube) (1 / 10)
    <= planar_dist (Vector.make 21 0 0) (Vector.make 20 0 0).
Proof.
  apply (DistributeWithinCircle_pairs_separated [half_cube; half_cube] origin 27
           (Some [(origin, 18)]) (1 / 10) ring_stream 1%nat 0%nat).
  - discriminate.
  - fold ring_w0. rewrite ring_run. cbn [snd]. rewrite ring_placed. reflexivity.
  - fold ring_w0. rewrite ring_run. cbn [snd]. rewrite ring_placed. reflexivity.
Defined.

Lemma square_outcomes :
  outcomes (trace square_w2)
  = [Placed half_cube (Vector.make 0 0 0); Placed half_cube (Vector.make 1 0 0)].
Proof.
  change (outcomes (trace square_w2))
    with [Placed half_cube (square_sampled origin square_max square_w0);
          Placed half_cube (square_sampled origin square_max square_w1)].
  by rewrite square_pos1, square_pos2.
Qed.

Lemma square_stream_in_range n : 0 <= square_stream n < 1.
Proof. unfold square_stream. destruct (n =? 2)%nat; lra. Qed.

Lemma DistributeWithinSquare_placed_contained_witness :
  in_box origin square_max (Vector.make 1 0 0).
Proof.
  apply (DistributeWithinSquare_placed_contained [half_cube; half_cube] origin
           square_max None (1 / 10) square_stream half_cube (Vector.make 1 0 0)).
  - apply square_stream_in_range.
  - cbn. lra.
  - cbn. lra.
  - fold square_w0. rewrite square_run. cbn [snd]. rewrite square_outcomes.
    apply list_elem_of_further, list_elem_of_here.
Defined.

(** * More on the grid scripts *)

Lemma DDWS_dist_sym a b :
  DistributeAndDuplicateWithinSquare.dist a b
  = DistributeAndDuplicateWithinSquare.dist b a.
Proof. apply length_sub_sym. Qed.

(** X4: two different placements of the rectangular grid script whose cells
    are in each other's three by three neighbourhood keep the distance of
    [min_dist]. *)
Theorem DistributeAndDuplicateWithinSquare_pairs_separated :
  ∀ objs amin amax nd zones padding stream i j p1 f1 p2 f2,
    let gs := DistributeAndDuplicateWithinSquare.grid_size amin amax in
    let placements :=
      placed (trace (DistributeAndDuplicateWithinSquare.distribute_and_duplicate_objects
                       objs amin amax nd zones padding (initial_world stream)).2) in
    i ≠ j → placements !! i = Some (p1, f1) → placements !! j = Some (p2, f2) →
    adjacent (cell_of gs p1) (cell_of gs p2) →
    min_dist f1 f2 padding <= Vector.length (Vector.sub p1 p2).
Proof.
  intros [|o objs] amin amax nd zones padding stream i j p1 f1 p2 f2 gs placements
    Hij Hi Hj Hadj; [subst placements; by cbn in Hi|].
  unfold placements in Hi, Hj. rewrite DDWS_run_eq in Hi, Hj by done.
  pose proof (grid_run_separated gs DistributeAndDuplicateWithinSquare.dist padding
                _ _ _ nd (o :: objs)
                (with_grid ∅ (with_positions [] (initial_world stream)))
                DDWS_dist_sym
                (DDWS_attempt_spec amin amax (default [] zones) padding) eq_refl)
    as Hsep.
  exact (Hsep i j (p1, f1) (p2, f2) Hij Hi Hj Hadj).
Qed.

Lemma grid_run_indexed gs sampled accepted attempt nd objs w :
  (∀ effect, attempt_spec (grid_commit gs effect) (gs = 0) sampled accepted
               (attempt effect)) →
  indexed gs w →
  indexed gs (for_each objs (grid_place_object attempt nd) w).2.
Proof.
  intros Hspec.
  apply hoare_invariant
    with (E := λ e w', e = ZeroDivisionError ∧ gs = 0 ∧ indexed gs w');
    [|by intros e w' (_ & _ & ?)].
  apply (hoare_grid_run gs _ _ attempt Hspec (indexed gs)).
  - done.
  - intros effect obj w1 Heff _ Hidx _ _. by apply indexed_commit.
  - intros m w1 Hidx r Hr. cbn in *. rewrite placed_snoc_printed in Hr.
    by apply Hidx.
Qed.

(** X5: after a run of either grid script every committed placement is
    found in the index, in the cell of its own position. *)
Theorem committed_placements_are_indexed :
  (∀ objs c r nd zones padding stream rec,
     let out := DistributeAndDuplicateWithinCircle.distribute_and_duplicate_objects
                  objs c r nd zones padding (initial_world stream) in
     rec ∈ placed (trace out.2) →
     ∃ records,
       grid out.2 !! cell_of (DistributeAndDuplicateWithinCircle.grid_size r) rec.1
       = Some records ∧ rec ∈ records) ∧
  (∀ objs amin amax nd zones padding stream rec,
     let out := DistributeAndDuplicateWithinSquare.distribute_and_duplicate_objects
                  objs amin amax nd zones padding (initial_world stream) in
     rec ∈ placed (trace out.2) →
     ∃ records,
       grid out.2
         !! cell_of (DistributeAndDuplicateWithinSquare.grid_size amin amax) rec.1
       = Some records ∧ rec ∈ records).
Proof.
  split.
  - intros [|o objs] c r nd zones padding stream rec out Hrec;
      [by inversion Hrec|].
    unfold out in *. rewrite DDWC_run_eq in * by done.
    apply (grid_run_indexed _ _ _ _ nd (o :: objs) _
             (DDWC_attempt_spec c r (default [] zones) padding)); [|done].
    intros r0 Hr0. by inversion Hr0.
  - intros [|o objs] amin amax nd zones padding stream rec out Hrec;
      [by inversion Hrec|].
    unfold out in *. rewrite DDWS_run_eq in * by done.
    apply (grid_run_indexed _ _ _ _ nd (o :: objs) _
             (DDWS_attempt_spec amin amax (default [] zones) padding)); [|done].
    intros r0 Hr0. by inversion Hr0.
Qed.

Lemma not_clear_after_add dist gs padding pos dims p d w :
  gs ≠ 0 → adjacent (cell_of gs pos) (cell_of gs p) →
  dist pos p < min_dist dims d padding →
  ¬ clear_of_neighbors dist gs padding pos dims (grid (add_to_grid gs p d w).2).
Proof.
  intros Hgs Hadj Hclose Hclear.
  rewrite add_to_grid_eq, bool_decide_eq_false_2 in Hclear by done. cbn in Hclear.
  specialize (Hclear (cell_of gs p) _ (p, d) Hadj (lookup_insert_eq _ _ _)).
  cbn in Hclear. assert ((p, d) ∈ default [] (grid w !! cell_of gs p) ++ [(p, d)])
    as Hin by set_solver.
  specialize (Hclear Hin). lra.
Qed.

(** X6: insertion and query agree.  Once a record is added to the index, a
    candidate whose cell is in the neighbourhood of the record's and which is
    closer to it than [min_dist] is rejected by the validation of either
    grid script. *)
Theorem indexed_neighbor_rejects :
  (∀ c r zones padding pos dims p d w,
     let gs := DistributeAndDuplicateWithinCircle.grid_size r in
     gs ≠ 0 → adjacent (cell_of gs pos) (cell_of gs p) →
     planar_dist pos p < min_dist dims d padding →
     (DistributeAndDuplicateWithinCircle.is_valid_position c r zones padding pos dims
        (add_to_grid gs p d w).2).1 = Ok false) ∧
  (∀ amin amax zones padding pos dims p d w,
     let gs := DistributeAndDuplicateWithinSquare.grid_size amin amax in
     gs ≠ 0 → adjacent (cell_of gs pos) (cell_of gs p) →
     Vector.length (Vector.sub pos p) < min_dist dims d padding →
     (DistributeAndDuplicateWithinSquare.is_valid_position amin amax zones padding
        pos dims (add_to_grid gs p d w).2).1 = Ok false).
Proof.
  split.
  - intros c r zones padding pos dims p d w gs Hgs Hadj Hclose.
    pose proof (not_clear_after_add planar_dist gs padding pos dims p d w
                  Hgs Hadj Hclose) as Hnot.
    pose proof (DDWC_is_valid_position_eq c r zones padding pos dims
                  (add_to_grid gs p d w).2) as Hv.
    destruct (DistributeAndDuplicateWithinCircle.is_valid_position _ _ _ _ _ _ _)
      as [[[|]|e] w']; cbn.
    + destruct Hv as [_ Hacc]. destruct (Hacc eq_refl) as [_ [_ Hclear]]. done.
    + done.
    + by destruct Hv as (_ & _ & ?).
  - intros amin amax zones padding pos dims p d w gs Hgs Hadj Hclose.
    pose proof (not_clear_after_add DistributeAndDuplicateWithinSquare.dist gs
                  padding pos dims p d w Hgs Hadj Hclose) as Hnot.
    pose proof (DDWS_is_valid_position_eq amin amax zones padding pos dims
                  (add_to_grid gs p d w).2) as Hv.
    destruct (DistributeAndDuplicateWithinSquare.is_valid_position _ _ _ _ _ _ _)
      as [[[|]|e] w']; cbn.
    + destruct Hv as [_ Hacc]. destruct (Hacc eq_refl) as [_ [_ Hclear]]. done.
    + done.
    + by destruct Hv as (_ & _ & ?).
Qed.

(** * Counting attempts and outcomes *)

(** X7: a copy is reported as failed after exactly 1000 attempts and is
    committed after at most 1000; each attempt takes exactly two values from
    the random source. *)
Theorem copies_are_counted :
  (∀ c r zones padding obj w,
     ends_counted (DistributeAndDuplicateWithinCircle.grid_size r = 0) SetLocation
       (CouldNotPlaceObject (name obj)) obj 1000 w
       (DistributeAndDuplicateWithinCircle.place_original c r zones padding obj w)) ∧
  (∀ c r zones padding obj w,
     ends_counted (DistributeAndDuplicateWithinCircle.grid_size r = 0) LinkCopy
       (CouldNotPlaceDuplicate (name obj)) obj 1000 w
       (DistributeAndDuplicateWithinCircle.place_duplicate c r zones padding obj w)) ∧
  (∀ amin amax zones padding obj w,
     ends_counted (DistributeAndDuplicateWithinSquare.grid_size amin amax = 0)
       SetLocation (CouldNotPlaceObject (name obj)) obj 1000 w
       (DistributeAndDuplicateWithinSquare.place_original
          amin amax zones padding obj w)) ∧
  (∀ amin amax zones padding obj w,
     ends_counted (DistributeAndDuplicateWithinSquare.grid_size amin amax = 0)
       LinkCopy (CouldNotPlaceDuplicate (name obj)) obj 1000 w
       (DistributeAndDuplicateWithinSquare.place_duplicate
          amin amax zones padding obj w)) ∧
  (∀ c r zones padding obj w,
     ends_counted False SetLocation (CouldNotPlaceObject (name obj)) obj 1000 w
       (DistributeWithinCircle.place_object c r zones padding obj w)) ∧
  (∀ amin amax zones padding obj w,
     ends_counted False SetLocation (CouldNotPlaceObject (name obj)) obj 1000 w
       (DistributeWithinSquare.place_object amin amax zones padding obj w)).
Proof.
  split; [|split; [|split; [|split; [|split]]]].
  - intros c r zones padding obj w.
    apply (copy_counted _ _ _ _ _ SetLocation
             (DDWC_attempt_spec c r zones padding SetLocation)
             (grid_commit_emits _ _) obj (CouldNotPlaceObject (name obj)) 1000 w).
  - intros c r zones padding obj w.
    apply (copy_counted _ _ _ _ _ LinkCopy
             (DDWC_attempt_spec c r zones padding LinkCopy)
             (grid_commit_emits _ _) obj (CouldNotPlaceDuplicate (name obj)) 1000 w).
  - intros amin amax zones padding obj w.
    apply (copy_counted _ _ _ _ _ SetLocation
             (DDWS_attempt_spec amin amax zones padding SetLocation)
             (grid_commit_emits _ _) obj (CouldNotPlaceObject (name obj)) 1000 w).
  - intros amin amax zones padding obj w.
    apply (copy_counted _ _ _ _ _ LinkCopy
             (DDWS_attempt_spec amin amax zones padding LinkCopy)
             (grid_commit_emits _ _) obj (CouldNotPlaceDuplicate (name obj)) 1000 w).
  - intros c r zones padding obj w.
    apply (copy_counted _ _ _ _ _ SetLocation
             (DWC_attempt_spec c r zones padding)
             list_commit_emits obj (CouldNotPlaceObject (name obj)) 1000 w).
  - intros amin amax zones padding obj w.
    apply (copy_counted _ _ _ _ _ SetLocation
             (DWS_attempt_spec amin amax zones padding)
             list_commit_emits obj (CouldNotPlaceObject (name obj)) 1000 w).
Qed.

Lemma reported_snoc_effect effect obj pos t :
  places effect → reported (t ++ [effect obj pos]) = reported t ++ [name obj].
Proof.
  intros Heff. unfold reported. rewrite outcomes_snoc_effect by done.
  by rewrite fmap_app.
Qed.

Lemma reported_snoc_message msg obj t :
  message_names msg obj → reported (t ++ [Printed msg]) = reported t ++ [name obj].
Proof.
  intros [-> | ->]; unfold reported, outcomes; rewrite omap_app, fmap_app; done.
Qed.

Section CopiesReported.
Variable commit : object → Vector.t → world → world.
Variable fails : Prop.
Variable sampled : world → Vector.t.
Variable accepted : Vector.t → Vector.t → world → Prop.
Variable attempt : object → M bool.
Variable effect : object → Vector.t → event.
Hypothesis attempt_ok : attempt_spec commit fails sampled accepted attempt.
Hypothesis commit_ok : commit_emits effect commit.
Hypothesis effect_ok : places effect.

Lemma hoare_copy_reported obj msg n l :
    message_names msg obj →
    hoare (λ w, reported (trace w) = l)
      (for_range_else n (attempt obj) (emit (Printed msg)))
      (λ _ w, reported (trace w) = l ++ [name obj]) (λ _ _, True).
Proof.
    intros Hmsg. eapply hoare_conseq.
    - apply (hoare_place_copy _ _ _ _ _ attempt_ok (λ w, reported (trace w) = l)
               (λ w, reported (trace w) = l ++ [name obj])).
      + done.
      + intros w Hw _ _.
        rewrite (proj1 (commit_ok obj (sampled w) (after_sampling w))).
        change (trace (after_sampling w)) with (trace w).
        by rewrite reported_snoc_effect, Hw.
      + intros w Hw.
        change (trace (with_trace (trace w ++ [Printed msg]) w))
          with (trace w ++ [Printed msg]).
        by rewrite (reported_snoc_message _ obj), Hw.
    - done.
    - done.
    - done.
Qed.
End CopiesReported.

Lemma hoare_grid_object_reported gs sampled accepted attempt nd obj l :
  (∀ effect, attempt_spec (grid_commit gs effect) (gs = 0) sampled accepted
               (attempt effect)) →
  hoare (λ w, reported (trace w) = l) (grid_place_object attempt nd obj)
    (λ _ w, reported (trace w) = l ++ replicate (1 + Z.to_nat nd) (name obj))
    (λ _ _, True).
Proof.
  intros Hspec. unfold grid_place_object. eapply hoare_bind.
  - apply (hoare_copy_reported _ _ _ _ _ SetLocation (Hspec SetLocation)
             (grid_commit_emits _ _) places_SetLocation obj
             (CouldNotPlaceObject (name obj)) 1000 l); by left.
  - intros [].
    eapply hoare_conseq;
      [apply (hoare_for_range_count
                (λ k w, reported (trace w) = l ++ replicate (1 + k) (name obj)))
      | done | done | done].
    intros k _. eapply hoare_conseq.
    + apply (hoare_copy_reported _ _ _ _ _ LinkCopy (Hspec LinkCopy)
               (grid_commit_emits _ _) places_LinkCopy obj
               (CouldNotPlaceDuplicate (name obj)) 1000
               (l ++ replicate (1 + k) (name obj))); by right.
    + done.
    + intros [] w Hw. cbn beta in Hw. rewrite Hw, <- app_assoc. f_equal.
      symmetry. apply (replicate_S_end (1 + k)).
    + done.
Qed.

Lemma grid_run_reported gs sampled accepted attempt nd objs w :
  (∀ effect, attempt_spec (grid_commit gs effect) (gs = 0) sampled accepted
               (attempt effect)) →
  let out := for_each objs (grid_place_object attempt nd) w in
  match out.1 with
  | Ok _ => reported (trace out.2) = reported (trace w) ++ requested objs nd
  | Raise _ => True
  end.
Proof.
  intros Hspec.
  apply (hoare_run _ (λ w', reported (trace w') = reported (trace w) ++ requested [] nd)
           (λ _ w', reported (trace w') = reported (trace w) ++ requested objs nd)
           (λ _ _, True)); [|by rewrite app_nil_r].
  apply (hoare_for_each_prefix
           (λ done w', reported (trace w') = reported (trace w) ++ requested done nd)).
  intros done obj rest _. eapply hoare_conseq.
  - by apply (hoare_grid_object_reported gs sampled accepted attempt nd obj
                (reported (trace w) ++ requested done nd)).
  - done.
  - intros [] w' Hw'. cbn beta in Hw'. rewrite Hw', <- app_assoc. f_equal.
    unfold requested. rewrite bind_app. cbn. by rewrite app_nil_r.
  - done.
Qed.

Lemma list_run_reported sampled accepted attempt objs w :
  attempt_spec list_commit False sampled accepted attempt →
  let out := for_each objs (list_place_object attempt) w in
  out.1 = Ok tt ∧ reported (trace out.2) = reported (trace w) ++ (name <$> objs).
Proof.
  intros Hspec out. split; [by eapply list_run_returns|].
  assert (hoare (λ w', reported (trace w') = reported (trace w) ++ (name <$> []))
            (for_each objs (list_place_object attempt))
            (λ _ w', reported (trace w') = reported (trace w) ++ (name <$> objs))
            (λ _ _, True)) as Hh.
  { apply (hoare_for_each_prefix
             (λ done w', reported (trace w')
                         = reported (trace w) ++ (name <$> done))).
    intros done obj rest _. eapply hoare_conseq.
    - apply (hoare_copy_reported _ _ _ _ _ SetLocation Hspec
               list_commit_emits places_SetLocation obj
               (CouldNotPlaceObject (name obj)) 1000
               (reported (trace w) ++ (name <$> done))); by left.
    - done.
    - intros [] w' Hw'. cbn beta in Hw'. by rewrite Hw', fmap_app, <- app_assoc.
    - done. }
  pose proof (hoare_run _ _ _ _ w Hh) as Hrun. cbn beta in Hrun.
  rewrite app_nil_r in Hrun. specialize (Hrun eq_refl).
  pose proof (list_run_returns _ _ _ Hspec objs w) as Hok.
  fold out in Hrun, Hok. by rewrite Hok in Hrun.
Qed.

(** X8: the outcomes of a run follow the selection.  A grid script that
    returns has reported every object once for the original and once for
    each duplicate, the objects in the order of the selection; a list script
    always returns and has reported every object once (a negative number of
    duplicates counts as none). *)
Theorem outcomes_follow_selection :
  (∀ objs c r nd zones padding stream,
     let out := DistributeAndDuplicateWithinCircle.distribute_and_duplicate_objects
                  objs c r nd zones padding (initial_world stream) in
     match out.1 with
     | Ok _ => reported (trace out.2) = requested objs nd
     | Raise _ => True
     end) ∧
  (∀ objs amin amax nd zones padding stream,
     let out := DistributeAndDuplicateWithinSquare.distribute_and_duplicate_objects
                  objs amin amax nd zones padding (initial_world stream) in
     match out.1 with
     | Ok _ => reported (trace out.2) = requested objs nd
     | Raise _ => True
     end) ∧
  (∀ objs c r zones padding stream,
     let out := DistributeWithinCircle.distribute_objects_in_area
                  objs c r zones padding (initial_world stream) in
     out.1 = Ok tt ∧ reported (trace out.2) = name <$> objs) ∧
  (∀ objs amin amax zones padding stream,
     let out := DistributeWithinSquare.distribute_objects_in_area
                  objs amin amax zones padding (initial_world stream) in
     out.1 = Ok tt ∧ reported (trace out.2) = name <$> objs).
Proof.
  split; [|split; [|split]].
  - intros [|o objs] c r nd zones padding stream; [done|].
    cbn zeta. rewrite DDWC_run_eq by done.
    apply (grid_run_reported _ _ _ _ nd (o :: objs)
             (with_grid ∅ (with_positions [] (initial_world stream)))
             (DDWC_attempt_spec c r (default [] zones) padding)).
  - intros [|o objs] amin amax nd zones padding stream; [done|].
    cbn zeta. rewrite DDWS_run_eq by done.
    apply (grid_run_reported _ _ _ _ nd (o :: objs)
             (with_grid ∅ (with_positions [] (initial_world stream)))
             (DDWS_attempt_spec amin amax (default [] zones) padding)).
  - intros [|o objs] c r zones padding stream; [done|].
    cbn zeta. rewrite DWC_run_eq, DWC_place_object_eq by done.
    apply (list_run_reported _ _ _ (o :: objs)
             (with_positions [] (initial_world stream))
             (DWC_attempt_spec c r (default [] zones) padding)).
  - intros [|o objs] amin amax zones padding stream; [done|].
    cbn zeta. rewrite DWS_run_eq, DWS_place_object_eq by done.
    apply (list_run_reported _ _ _ (o :: objs)
             (with_positions [] (initial_world stream))
             (DWS_attempt_spec amin amax (default [] zones) padding)).
Qed.

(** * The circular samplers and the edges of the configuration *)









Lemma for_range_else_raise n body orelse w e w' :
  body w = (Raise e, w') → for_range_else (S n) body orelse w = (Raise e, w').
Proof. intros H. rewrite for_range_else_S. unfold bind. by rewrite H. Qed.

Lemma grid_run_raises attempt nd obj objs w e w' :
  attempt SetLocation obj w = (Raise e, w') →
  for_each (obj :: objs) (grid_place_object attempt nd) w = (Raise e, w').
Proof.
  intros H. rewrite for_each_cons. unfold bind at 1, grid_place_object, bind at 1.
  by rewrite (for_range_else_raise 999 _ _ w e w' H).
Qed.

Lemma DDWC_attempt_raises c r zones padding effect obj w :
  DistributeAndDuplicateWithinCircle.grid_size r = 0 →
  DDWC_inside c r zones (DDWC_sampled c r w) →
  DistributeAndDuplicateWithinCircle.attempt c r zones padding effect obj w
  = (Raise ZeroDivisionError, after_sampling w).
Proof.
  intros Hgs [Harea Hzones].
  set (pos := DDWC_sampled c r w) in *. set (dims := dimensions obj).
  assert (DistributeAndDuplicateWithinCircle.attempt c r zones padding effect obj w
          = (ok <- DistributeAndDuplicateWithinCircle.is_valid_position
                     c r zones padding pos dims ;;
             if ok : bool then
               emit (effect obj pos) ;;
               add_to_grid (DistributeAndDuplicateWithinCircle.grid_size r) pos dims ;;
               ret true
             else ret false) (after_sampling w)) as -> by reflexivity.
  unfold DistributeAndDuplicateWithinCircle.is_valid_position.
  rewrite bool_decide_eq_false_2 by lra.
  assert (existsb (λ '(zone_center, zone_radius),
             bool_decide (planar_dist pos zone_center < zone_radius)) zones = false)
    as ->.
  { apply existsb_false. intros [zc zr] Hz. apply bool_decide_eq_false.
    specialize (Hzones zc zr Hz). lra. }
  unfold overlaps_in_grid, bind. rewrite grid_cell_of_eq.
  by rewrite bool_decide_eq_true_2.
Qed.

Lemma DDWS_attempt_raises amin amax zones padding effect obj w :
  DistributeAndDuplicateWithinSquare.grid_size amin amax = 0 →
  outside_boxes zones (square_sampled amin amax w) →
  DistributeAndDuplicateWithinSquare.attempt amin amax zones padding effect obj w
  = (Raise ZeroDivisionError, after_sampling w).
Proof.
  intros Hgs Hzones.
  set (pos := square_sampled amin amax w) in *. set (dims := dimensions obj).
  assert (DistributeAndDuplicateWithinSquare.attempt amin amax zones padding effect obj w
          = (ok <- DistributeAndDuplicateWithinSquare.is_valid_position
                     amin amax zones padding pos dims ;;
             if ok : bool then
               emit (effect obj pos) ;;
               add_to_grid (DistributeAndDuplicateWithinSquare.grid_size amin amax)
                 pos dims ;;
               ret true
             else ret false) (after_sampling w)) as -> by reflexivity.
  unfold DistributeAndDuplicateWithinSquare.is_valid_position.
  rewrite (proj2 (outside_boxes_spec zones pos)) by done.
  unfold overlaps_in_grid, bind. rewrite grid_cell_of_eq.
  by rewrite bool_decide_eq_true_2.
Qed.

Lemma DDWC_sampled_radius_0 c w :
  DDWC_sampled c 0 w = Vector.make (Vector.x c) (Vector.y c) 0.
Proof. unfold DDWC_sampled. f_equal; lra. Qed.

(** X11: a cell size of zero stops a grid script at its first candidate
    that has passed the checks before the overlap check: the run raises
    [ZeroDivisionError] after one attempt, nothing placed, nothing printed.
    The circular script has this cell size for a radius of zero, where its
    candidate is the centre; the rectangular script when the larger side of
    its rectangle is zero. *)
Theorem zero_cell_size_raises :
  (∀ obj objs c nd zones padding stream,
     (∀ zone_center zone_radius, (zone_center, zone_radius) ∈ default [] zones →
        zone_radius
          <= planar_dist (Vector.make (Vector.x c) (Vector.y c) 0) zone_center) →
     DistributeAndDuplicateWithinCircle.distribute_and_duplicate_objects
       (obj :: objs) c 0 nd zones padding (initial_world stream)
     = (Raise ZeroDivisionError, after_sampling (initial_world stream))) ∧
  (∀ obj objs amin amax nd zones padding stream,
     DistributeAndDuplicateWithinSquare.grid_size amin amax = 0 →
     outside_boxes (default [] zones)
       (square_sampled amin amax (initial_world stream)) →
     DistributeAndDuplicateWithinSquare.distribute_and_duplicate_objects
       (obj :: objs) amin amax nd zones padding (initial_world stream)
     = (Raise ZeroDivisionError, after_sampling (initial_world stream))).
Proof.
  split.
  - intros obj objs c nd zones padding stream Hzones.
    rewrite DDWC_run_eq by done.
    change (with_grid ∅ (with_positions [] (initial_world stream)))
      with (initial_world stream).
    apply grid_run_raises, DDWC_attempt_raises.
    + unfold DistributeAndDuplicateWithinCircle.grid_size. lra.
    + rewrite DDWC_sampled_radius_0. split; [|done].
      rewrite planar_dist_on_axis; cbn; lra.
  - intros obj objs amin amax nd zones padding stream Hgs Hzones.
    rewrite DDWS_run_eq by done.
    change (with_grid ∅ (with_positions [] (initial_world stream)))
      with (initial_world stream).
    by apply grid_run_raises, DDWS_attempt_raises.
Qed.

Lemma zero_cell_size_raises_witness :
  (DistributeAndDuplicateWithinCircle.distribute_and_duplicate_objects
     [cube] origin 0 2 None (1 / 10) (initial_world zeros)
   = (Raise ZeroDivisionError, after_sampling (initial_world zeros))) ∧
  (DistributeAndDuplicateWithinSquare.distribute_and_duplicate_objects
     [cube] origin origin 2 None (1 / 10) (initial_world zeros)
   = (Raise ZeroDivisionError, after_sampling (initial_world zeros))).
Proof.
  split.
  - apply (proj1 zero_cell_size_raises cube [] origin 2%Z None (1 / 10) zeros).
    intros zc zr Hz. by inversion Hz.
  - apply (proj2 zero_cell_size_raises cube [] origin origin 2%Z None (1 / 10) zeros).
    + unfold DistributeAndDuplicateWithinSquare.grid_size. cbn.
      rewrite Rmax_left by lra. lra.
    + intros zmin zmax Hz. by inversion Hz.
Defined.

(** * The add-on *)

Lemma in_box_decide lo hi pos :
  bool_decide (Vector.x lo <= Vector.x pos)
  && bool_decide (Vector.x pos <= Vector.x hi)
  && bool_decide (Vector.y lo <= Vector.y pos)
  && bool_decide (Vector.y pos <= Vector.y hi) = true
  ↔ in_box lo hi pos.
Proof.
  rewrite !andb_true_iff, !bool_decide_eq_true. unfold in_box. tauto.
Qed.

Lemma Addon_is_inside_area_cases ac asz is_circle pos w :
  match Addon.is_inside_area ac asz is_circle pos w with
  | (Ok b, w') =>
      w' = w ∧ shaped is_circle asz ∧ (b = true ↔ Addon_in_area ac asz pos)
  | (Raise e, w') => w' = w ∧ e = TypeError ∧ ¬ shaped is_circle asz
  end.
Proof.
  unfold Addon.is_inside_area.
  destruct is_circle, asz as [r|wd ht]; cbn; try tauto.
  - split; [done|]. split; [done|]. apply bool_decide_eq_true.
  - split; [done|]. split; [done|].
    apply (in_box_decide (corner_min ac wd ht) (corner_max ac wd ht) pos).
Qed.

Lemma Addon_is_inside_exclusion_zone_cases zc zsz is_circle pos w :
  match Addon.is_inside_exclusion_zone zc zsz is_circle pos w with
  | (Ok b, w') =>
      w' = w ∧ shaped is_circle zsz ∧ (b = true ↔ Addon_in_zone zc zsz pos)
  | (Raise e, w') => w' = w ∧ e = TypeError ∧ ¬ shaped is_circle zsz
  end.
Proof.
  unfold Addon.is_inside_exclusion_zone.
  destruct is_circle, zsz as [r|wd ht]; cbn; try tauto.
  - unfold bind. cbn. case_bool_decide; cbn; (split; [done|]); (split; [done|]);
      split; done.
  - unfold bind. cbn.
    destruct (_ && _) eqn:Hb; cbn; (split; [done|]); (split; [done|]).
    + split; [|done]. intros _.
      by apply (in_box_decide (corner_min zc wd ht) (corner_max zc wd ht) pos).
    + split; [done|]. intros Hin.
      apply (in_box_decide (corner_min zc wd ht) (corner_max zc wd ht) pos) in Hin.
      cbn in Hin. congruence.
Qed.

Lemma Addon_is_valid_position_cases ac asz zc zsz padding is_circle pos dims w :
  match Addon.is_valid_position ac asz zc zsz padding is_circle pos dims w with
  | (Ok ok, w') =>
      w' = w ∧ shaped is_circle asz ∧
      (ok = true ↔
         shaped is_circle zsz ∧ Addon_accepted ac asz zc zsz padding pos dims w) ∧
      (shaped is_circle zsz → ok = false →
         ¬ Addon_accepted ac asz zc zsz padding pos dims w)
  | (Raise e, w') =>
      w' = w ∧ e = TypeError ∧ ¬ (shaped is_circle asz ∧ shaped is_circle zsz)
  end.
Proof.
  unfold Addon.is_valid_position, bind at 1.
  pose proof (Addon_is_inside_area_cases ac asz is_circle pos w) as Ha.
  destruct (Addon.is_inside_area _ _ _ _ w) as [[inside|e] w1];
    [|destruct Ha as (-> & -> & ?); tauto].
  destruct Ha as (-> & Hsa & Hin). destruct inside; cbn.
  2:{ split; [done|]. split; [done|]. split.
      - split; [done|]. intros [_ [Harea _]]. apply Hin in Harea. done.
      - intros _ _ [Harea _]. apply Hin in Harea. done. }
  unfold bind at 1.
  pose proof (Addon_is_inside_exclusion_zone_cases zc zsz is_circle pos w) as Hz.
  destruct (Addon.is_inside_exclusion_zone _ _ _ _ w) as [[excluded|e] w1];
    [|destruct Hz as (-> & -> & ?); tauto].
  destruct Hz as (-> & Hsz & Hex). destruct excluded.
  { split; [done|]. split; [done|]. split.
    - split; [done|]. intros [_ [_ [Hnz _]]]. destruct Hnz. by apply Hex.
    - intros _ _ [_ [Hnz _]]. destruct Hnz. by apply Hex. }
  unfold bind, get_positions.
  destruct (overlaps _ _ _ _ _) eqn:Hov.
  - split; [done|]. split; [done|]. split.
    + split; [done|]. intros [_ [_ [_ Hclear]]].
      apply not_true_iff_false in Hov; [done|].
      exact (proj2 (overlaps_false Addon.dist padding pos dims (positions w)) Hclear).
    + intros _ _ [_ [_ Hclear]].
      apply not_true_iff_false in Hov; [done|].
      exact (proj2 (overlaps_false Addon.dist padding pos dims (positions w)) Hclear).
  - split; [done|]. split; [done|]. split; [|done]. split; [|done]. intros _.
    split; [done|]. split; [by apply Hin|]. split.
    + intros Hzone. apply Hex in Hzone. done.
    + intros rec Hrec.
      exact (proj1 (overlaps_false Addon.dist padding pos dims (positions w))
               Hov rec Hrec).
Qed.

Lemma Addon_random_position_cases ac asz is_circle w :
  match Addon.random_position ac asz is_circle w with
  | (Ok pos, w') =>
      shaped is_circle asz ∧ pos = Addon_sampled ac asz w ∧
      w' = with_random_pos (S (S (random_pos w))) w
  | (Raise e, w') =>
      e = TypeError ∧ ¬ shaped is_circle asz ∧ positions w' = positions w ∧
      trace w' = trace w ∧ random_stream w' = random_stream w ∧
      samplings w' = samplings w
  end.
Proof.
  unfold Addon.random_position.
  destruct is_circle, asz as [r|wd ht]; cbn; tauto.
Qed.

(** One attempt of the add-on. *)
Lemma Addon_attempt_cases ac asz zc zsz padding is_circle effect obj w :
  match Addon.attempt ac asz zc zsz padding is_circle effect obj w with
  | (Ok true, w') =>
      shaped is_circle asz ∧ shaped is_circle zsz ∧
      Addon_accepted ac asz zc zsz padding (Addon_sampled ac asz w)
        (dimensions obj) w ∧
      w' = addon_commit effect obj (Addon_sampled ac asz w) (after_sampling w)
  | (Ok false, w') => w' = after_sampling w
  | (Raise e, w') =>
      e = TypeError ∧ ¬ (shaped is_circle asz ∧ shaped is_circle zsz) ∧
      same_placements w w' ∧ samplings w' = S (samplings w)
  end.
Proof.
  unfold Addon.attempt. unfold bind at 1. unfold tick at 1.
  set (w1 := with_samplings (S (samplings w)) w). unfold bind at 1.
  pose proof (Addon_random_position_cases ac asz is_circle w1) as Hr.
  destruct (Addon.random_position _ _ _ w1) as [[pos|e] w2].
  2:{ destruct Hr as (-> & Hs & Hp & Ht & Hrs & Hsm). split; [done|].
      split; [tauto|]. split; [by split|]. by rewrite Hsm. }
  destruct Hr as (Hsa & -> & ->).
  change (with_random_pos _ w1) with (after_sampling w).
  change (Addon_sampled ac asz w1) with (Addon_sampled ac asz w).
  unfold bind at 1.
  pose proof (Addon_is_valid_position_cases ac asz zc zsz padding is_circle
                (Addon_sampled ac asz w) (dimensions obj) (after_sampling w)) as Hv.
  destruct (Addon.is_valid_position _ _ _ _ _ _ _ _ _) as [[[|]|e] w3].
  - destruct Hv as (-> & _ & Hok & _). destruct (proj1 Hok eq_refl) as [Hsz Hacc].
    cbn. split; [done|]. split; [done|]. split; [exact Hacc|]. reflexivity.
  - by destruct Hv as (-> & _).
  - destruct Hv as (-> & -> & Hns). by repeat split.
Qed.

Lemma same_placements_after_sampling w : same_placements w (after_sampling w).
Proof. done. Qed.

Section AddonRuns.
Variables (ac : Vector.t) (asz : Addon.size) (zc : Vector.t) (zsz : Addon.size).
Variables (padding : R) (is_circle : bool).

Lemma hoare_addon_attempt (I Q : world → Prop) effect obj :
    (∀ w w', I w → same_placements w w' → I w') →
    (∀ w, I w → shaped is_circle asz → shaped is_circle zsz →
       Addon_accepted ac asz zc zsz padding (Addon_sampled ac asz w)
         (dimensions obj) w →
       Q (addon_commit effect obj (Addon_sampled ac asz w) (after_sampling w))) →
    hoare I (Addon.attempt ac asz zc zsz padding is_circle effect obj)
      (λ b w, if b : bool then Q w else I w)
      (λ e w, e = TypeError ∧ ¬ (shaped is_circle asz ∧ shaped is_circle zsz) ∧ I w).
Proof.
    intros Hframe Hcommit w Hw.
    pose proof (Addon_attempt_cases ac asz zc zsz padding is_circle effect obj w)
      as Hc.
    destruct (Addon.attempt _ _ _ _ _ _ _ _ w) as [[[|]|e] w'].
    - destruct Hc as (Hsa & Hsz & Hacc & ->). by apply Hcommit.
    - subst w'. apply (Hframe w); [done | apply same_placements_after_sampling].
    - destruct Hc as (-> & Hns & Hsame & _). split; [done|]. split; [done|].
      by apply (Hframe w).
Qed.

Lemma hoare_addon_copy (I Q : world → Prop) effect obj msg n :
    (∀ w w', I w → same_placements w w' → I w') →
    (∀ w, I w → shaped is_circle asz → shaped is_circle zsz →
       Addon_accepted ac asz zc zsz padding (Addon_sampled ac asz w)
         (dimensions obj) w →
       Q (addon_commit effect obj (Addon_sampled ac asz w) (after_sampling w))) →
    (∀ w, I w → Q (with_trace (trace w ++ [Printed msg]) w)) →
    hoare I
      (for_range_else n (Addon.attempt ac asz zc zsz padding is_circle effect obj)
         (emit (Printed msg)))
      (λ _, Q)
      (λ e w, e = TypeError ∧ ¬ (shaped is_circle asz ∧ shaped is_circle zsz) ∧ I w).
Proof.
    intros Hframe Hcommit Hprint.
    apply hoare_for_range_else; [by apply hoare_addon_attempt|].
    apply hoare_emit. auto.
Qed.

Lemma hoare_addon_run (I : world → Prop) nd distribute_only objs :
    (∀ w w', I w → same_placements w w' → I w') →
    (∀ effect obj w, addon_effect distribute_only effect →
       I w → shaped is_circle asz → shaped is_circle zsz →
       Addon_accepted ac asz zc zsz padding (Addon_sampled ac asz w)
         (dimensions obj) w →
       I (addon_commit effect obj (Addon_sampled ac asz w) (after_sampling w))) →
    (∀ m w, I w → I (with_trace (trace w ++ [Printed m]) w)) →
    hoare I
      (for_each objs
         (Addon.place_object ac asz zc zsz padding is_circle nd distribute_only))
      (λ _, I)
      (λ e w, e = TypeError ∧ ¬ (shaped is_circle asz ∧ shaped is_circle zsz) ∧ I w).
Proof.
    intros Hframe Hcommit Hprint. apply hoare_for_each. intros obj _.
    unfold Addon.place_object. eapply hoare_bind.
    - unfold Addon.place_original.
      apply (hoare_addon_copy I I SetLocation obj (CouldNotPlaceObject (name obj))
               1000 Hframe); [|apply Hprint].
      intros w Hw. apply Hcommit; [by left | done].
    - intros []. destruct distribute_only; [by apply hoare_ret|].
      apply hoare_for_range. unfold Addon.place_duplicate.
      apply (hoare_addon_copy I I LinkCopy obj (CouldNotPlaceDuplicate (name obj))
               1000 Hframe); [|apply Hprint].
      intros w Hw. apply Hcommit; [by right | done].
Qed.
End AddonRuns.

Lemma Addon_run_eq objs ac asz zc zsz nd padding is_circle distribute_only w :
  objs ≠ [] →
  Addon.distribute_and_duplicate_objects objs ac asz zc zsz nd padding is_circle
    distribute_only w
  = for_each objs
      (Addon.place_object ac asz zc zsz padding is_circle nd distribute_only)
      (with_positions [] w).
Proof. by destruct objs. Qed.

Lemma Addon_run_returns objs ac asz zc zsz nd padding is_circle distribute_only w :
  shaped is_circle asz → shaped is_circle zsz →
  (Addon.distribute_and_duplicate_objects objs ac asz zc zsz nd padding is_circle
     distribute_only w).1 = Ok tt.
Proof.
  intros Hsa Hsz. destruct objs as [|o objs]; [done|].
  rewrite Addon_run_eq by done.
  pose proof (hoare_run _ _ _ _ (with_positions [] w)
                (hoare_addon_run ac asz zc zsz padding is_circle (λ _, True) nd
                   distribute_only (o :: objs) (λ _ _ _ _, I)
                   (λ _ _ _ _ _ _ _ _, I) (λ _ _ _, I)) I) as H.
  destruct (for_each _ _ _) as [[[]|e] w']; [done|]. cbn in H. tauto.
Qed.

Lemma execute_shapes (self : Addon.operator) :
  shaped (Addon.is_CIRCLE (Addon.area_form self))
    (if Addon.is_CIRCLE (Addon.area_form self)
     then Addon.Float (Addon.area_radius self)
     else Addon.Pair (Addon.area_width self) (Addon.area_height self)) ∧
  shaped (Addon.is_CIRCLE (Addon.area_form self))
    (if Addon.is_CIRCLE (Addon.area_form self)
     then Addon.Float (Addon.exclusion_zone_radius self)
     else Addon.Pair (Addon.exclusion_zone_width self)
            (Addon.exclusion_zone_height self)).
Proof. by destruct (Addon.area_form self). Qed.

(** X12: the add-on never raises when its sizes have the shape that
    [is_circle] announces, and the operator always calls it so: [execute]
    returns [FINISHED] whatever its properties and the selection. *)
Theorem Addon_operator_never_raises :
  (∀ objs ac asz zc zsz nd padding is_circle distribute_only w,
     shaped is_circle asz → shaped is_circle zsz →
     (Addon.distribute_and_duplicate_objects objs ac asz zc zsz nd padding
        is_circle distribute_only w).1 = Ok tt) ∧
  (∀ self objs w, (Addon.execute self objs w).1 = Ok Addon.FINISHED).
Proof.
  split; [apply Addon_run_returns|].
  intros self objs w. unfold Addon.execute, bind.
  destruct (execute_shapes self) as [Hsa Hsz].
  pose proof (Addon_run_returns objs (Vector.make 0 0 0) _ (Vector.make 0 0 0) _
                (Addon.num_duplicates self) (Addon.padding self)
                (Addon.is_CIRCLE (Addon.area_form self))
                (Addon.distribute_only self) w Hsa Hsz) as Hok.
  destruct (Addon.distribute_and_duplicate_objects _ _ _ _ _ _ _ _ _ w)
    as [[[]|e] w']; [done | discriminate].
Qed.

Lemma Addon_operator_never_raises_witness :
  (Addon.distribute_and_duplicate_objects [cube] origin (Addon.Float 10) origin
     (Addon.Float 3) 2 (1 / 10) true false (initial_world zeros)).1 = Ok tt.
Proof.
  apply (proj1 Addon_operator_never_raises [cube] origin (Addon.Float 10) origin
           (Addon.Float 3) 2%Z (1 / 10) true false (initial_world zeros)).
  - exact I.
  - exact I.
Defined.

Lemma Addon_attempt_misshaped ac asz zc zsz padding is_circle effect obj w :
  ¬ shaped is_circle asz →
  ∃ w', Addon.attempt ac asz zc zsz padding is_circle effect obj w
        = (Raise TypeError, w')
        ∧ same_placements w w' ∧ samplings w' = S (samplings w).
Proof.
  intros Hns. unfold Addon.attempt. unfold bind at 1. unfold tick at 1.
  set (w1 := with_samplings (S (samplings w)) w). unfold bind at 1.
  pose proof (Addon_random_position_cases ac asz is_circle w1) as Hr.
  destruct (Addon.random_position _ _ _ w1) as [[pos|e] w2].
  - by destruct Hr as (? & _).
  - destruct Hr as (-> & _ & Hp & Ht & Hs & Hsm). exists w2. by repeat split.
Qed.

Lemma Addon_run_raises ac asz zc zsz padding is_circle nd distribute_only obj objs
    w e w' :
  Addon.attempt ac asz zc zsz padding is_circle SetLocation obj w = (Raise e, w') →
  for_each (obj :: objs)
    (Addon.place_object ac asz zc zsz padding is_circle nd distribute_only) w
  = (Raise e, w').
Proof.
  intros H. rewrite for_each_cons.
  unfold bind at 1, Addon.place_object, bind at 1, Addon.place_original.
  by rewrite (for_range_else_raise 999 _ _ w e w' H).
Qed.

(** X13: an area size that has not the shape that [is_circle] announces (a
    pair for a circle, a number for a square) makes the add-on raise
    [TypeError] in the first attempt for the first object: nothing is
    placed, nothing is printed. *)
Theorem Addon_misshaped_area_raises :
  ∀ obj objs ac asz zc zsz nd padding is_circle distribute_only w,
    ¬ shaped is_circle asz →
    let out := Addon.distribute_and_duplicate_objects (obj :: objs) ac asz zc zsz nd
                 padding is_circle distribute_only w in
    out.1 = Raise TypeError ∧ trace out.2 = trace w ∧ positions out.2 = [] ∧
    samplings out.2 = S (samplings w).
Proof.
  intros obj objs ac asz zc zsz nd padding is_circle distribute_only w Hns out.
  unfold out. rewrite Addon_run_eq by done.
  destruct (Addon_attempt_misshaped ac asz zc zsz padding is_circle SetLocation obj
              (with_positions [] w) Hns) as (w' & Heq & (Hp & Ht & _) & Hs).
  rewrite (Addon_run_raises ac asz zc zsz padding is_circle nd distribute_only obj
             objs _ _ _ Heq).
  cbn. by rewrite Hp, Ht, Hs.
Qed.

Lemma Addon_misshaped_area_raises_witness :
  (Addon.distribute_and_duplicate_objects [cube] origin (Addon.Pair 10 10) origin
     (Addon.Float 3) 2 (1 / 10) true false (initial_world zeros)).1
  = Raise TypeError.
Proof.
  apply (Addon_misshaped_area_raises cube [] origin (Addon.Pair 10 10) origin
           (Addon.Float 3) 2%Z (1 / 10) true false (initial_world zeros)).
  intros H. exact H.
Defined.

Lemma addon_effect_places distribute_only effect :
  addon_effect distribute_only effect → places effect.
Proof.
  intros [-> | [-> _]]; [apply places_SetLocation | apply places_LinkCopy].
Qed.

Lemma hoare_addon_copy_reported ac asz zc zsz padding is_circle effect obj msg n l :
  places effect → message_names msg obj →
  hoare (λ w, reported (trace w) = l)
    (for_range_else n (Addon.attempt ac asz zc zsz padding is_circle effect obj)
       (emit (Printed msg)))
    (λ _ w, reported (trace w) = l ++ [name obj]) (λ _ _, True).
Proof.
  intros Heff Hmsg. eapply hoare_conseq.
  - apply (hoare_addon_copy ac asz zc zsz padding is_circle
             (λ w, reported (trace w) = l)
             (λ w, reported (trace w) = l ++ [name obj]) effect obj msg n).
    + by intros w w' Hw (_ & -> & _).
    + intros w Hw _ _ _.
      change (trace (addon_commit effect obj (Addon_sampled ac asz w)
                       (after_sampling w)))
        with (trace w ++ [effect obj (Addon_sampled ac asz w)]).
      by rewrite reported_snoc_effect, Hw.
    + intros w Hw.
      change (trace (with_trace (trace w ++ [Printed msg]) w))
        with (trace w ++ [Printed msg]).
      by rewrite (reported_snoc_message _ obj), Hw.
  - done.
  - done.
  - done.
Qed.

Lemma hoare_addon_object_reported ac asz zc zsz padding is_circle nd distribute_only
    obj l :
  hoare (λ w, reported (trace w) = l)
    (Addon.place_object ac asz zc zsz padding is_circle nd distribute_only obj)
    (λ _ w, reported (trace w)
            = l ++ replicate (1 + Z.to_nat (Addon_duplicates distribute_only nd))
                     (name obj))
    (λ _ _, True).
Proof.
  unfold Addon.place_object. eapply hoare_bind.
  - unfold Addon.place_original.
    apply (hoare_addon_copy_reported ac asz zc zsz padding is_circle SetLocation obj
             (CouldNotPlaceObject (name obj)) 1000 l);
      [apply places_SetLocation | by left].
  - intros []. destruct distribute_only; [by apply hoare_ret|].
    eapply hoare_conseq;
      [apply (hoare_for_range_count
                (λ k w, reported (trace w) = l ++ replicate (1 + k) (name obj)))
      | done | done | done].
    intros k _. eapply hoare_conseq.
    + unfold Addon.place_duplicate.
      apply (hoare_addon_copy_reported ac asz zc zsz padding is_circle LinkCopy obj
               (CouldNotPlaceDuplicate (name obj)) 1000
               (l ++ replicate (1 + k) (name obj)));
        [apply places_LinkCopy | by right].
    + done.
    + intros [] w Hw. cbn beta in Hw. rewrite Hw, <- app_assoc. f_equal.
      symmetry. apply (replicate_S_end (1 + k)).
    + done.
Qed.

Lemma Addon_run_reported ac asz zc zsz padding is_circle nd distribute_only objs w :
  let out := for_each objs
               (Addon.place_object ac asz zc zsz padding is_circle nd distribute_only)
               w in
  match out.1 with
  | Ok _ => reported (trace out.2)
            = reported (trace w) ++ requested objs (Addon_duplicates distribute_only nd)
  | Raise _ => True
  end.
Proof.
  set (n := Addon_duplicates distribute_only nd).
  apply (hoare_run _ (λ w', reported (trace w') = reported (trace w) ++ requested [] n)
           (λ _ w', reported (trace w') = reported (trace w) ++ requested objs n)
           (λ _ _, True)); [|by rewrite app_nil_r].
  apply (hoare_for_each_prefix
           (λ done w', reported (trace w') = reported (trace w) ++ requested done n)).
  intros done obj rest _. eapply hoare_conseq.
  - apply (hoare_addon_object_reported ac asz zc zsz padding is_circle nd
             distribute_only obj (reported (trace w) ++ requested done n)).
  - done.
  - intros [] w' Hw'. cbn beta in Hw'. rewrite Hw', <- app_assoc. f_equal.
    unfold requested. rewrite bind_app. cbn. by rewrite app_nil_r.
  - done.
Qed.

Lemma Addon_run_no_copy ac asz zc zsz padding is_circle nd objs w :
  no_copy (trace w) →
  no_copy (trace (for_each objs
                    (Addon.place_object ac asz zc zsz padding is_circle nd true)
                    w).2).
Proof.
  intros Hw.
  apply hoare_invariant
    with (I := λ w, no_copy (trace w))
         (E := λ e w, e = TypeError ∧
                      ¬ (shaped is_circle asz ∧ shaped is_circle zsz) ∧
                      no_copy (trace w)).
  - apply hoare_addon_run.
    + by intros w1 w' Hw1 (_ & -> & _).
    + intros effect obj w1 [-> | [_ [=]]] Hw1 _ _ _ o p. cbn.
      rewrite elem_of_app, list_elem_of_singleton. intros [Hin | [=]].
      by apply (Hw1 o p).
    + intros m w1 Hw1 o p. cbn.
      rewrite elem_of_app, list_elem_of_singleton. intros [Hin | [=]].
      by apply (Hw1 o p).
  - by intros e w1 (_ & _ & ?).
  - done.
Qed.

(** X14: what the add-on reports.  A run that returns has reported every
    selected object once for the original and once for each duplicate, in
    the order of the selection; with [distribute_only] it makes no
    duplicate, whatever [num_duplicates] is: no copy is linked. *)
Theorem Addon_outcomes_follow_selection :
  ∀ objs ac asz zc zsz nd padding is_circle distribute_only stream,
    let out := Addon.distribute_and_duplicate_objects objs ac asz zc zsz nd padding
                 is_circle distribute_only (initial_world stream) in
    match out.1 with
    | Ok _ => reported (trace out.2)
              = requested objs (Addon_duplicates distribute_only nd)
    | Raise _ => True
    end ∧
    (distribute_only = true → no_copy (trace out.2)).
Proof.
  intros [|o objs] ac asz zc zsz nd padding is_circle distribute_only stream.
  { split; [done|]. intros _ obj pos. cbn. rewrite list_elem_of_singleton.
    intros [=]. }
  cbn zeta. rewrite Addon_run_eq by done. split.
  - apply (Addon_run_reported ac asz zc zsz padding is_circle nd distribute_only
             (o :: objs) (with_positions [] (initial_world stream))).
  - intros ->. apply Addon_run_no_copy. intros obj pos. cbn. apply not_elem_of_nil.
Qed.

Lemma Addon_attempt_accepts ac asz zc zsz padding is_circle effect obj w :
  shaped is_circle asz → shaped is_circle zsz →
  Addon_accepted ac asz zc zsz padding (Addon_sampled ac asz w) (dimensions obj) w →
  Addon.attempt ac asz zc zsz padding is_circle effect obj w
  = (Ok true, addon_commit effect obj (Addon_sampled ac asz w) (after_sampling w)).
Proof.
  intros Hsa Hsz Hacc.
  unfold Addon.attempt. unfold bind at 1. unfold tick at 1.
  set (w1 := with_samplings (S (samplings w)) w). unfold bind at 1.
  pose proof (Addon_random_position_cases ac asz is_circle w1) as Hr.
  destruct (Addon.random_position _ _ _ w1) as [[pos|e] w2];
    [|by destruct Hr as (_ & ? & _)].
  destruct Hr as (_ & -> & ->).
  change (with_random_pos _ w1) with (after_sampling w).
  change (Addon_sampled ac asz w1) with (Addon_sampled ac asz w).
  unfold bind at 1.
  pose proof (Addon_is_valid_position_cases ac asz zc zsz padding is_circle
                (Addon_sampled ac asz w) (dimensions obj) (after_sampling w)) as Hv.
  destruct (Addon.is_valid_position _ _ _ _ _ _ _ _ _) as [[[|]|e] w3].
  - by destruct Hv as (-> & _).
  - destruct Hv as (_ & _ & _ & Hno). by destruct (Hno Hsz eq_refl).
  - destruct Hv as (_ & _ & Hns). tauto.
Qed.

Lemma Addon_run_invariant ac asz zc zsz padding is_circle nd distribute_only objs
    (I : world → Prop) w :
  (∀ w w', I w → same_placements w w' → I w') →
  (∀ effect obj w, addon_effect distribute_only effect → I w →
     Addon_accepted ac asz zc zsz padding (Addon_sampled ac asz w)
       (dimensions obj) w →
     I (addon_commit effect obj (Addon_sampled ac asz w) (after_sampling w))) →
  (∀ m w, I w → I (with_trace (trace w ++ [Printed m]) w)) →
  I w →
  I (for_each objs
       (Addon.place_object ac asz zc zsz padding is_circle nd distribute_only) w).2.
Proof.
  intros Hframe Hcommit Hprint Hw.
  apply hoare_invariant
    with (I := I)
         (E := λ e w, e = TypeError ∧
                      ¬ (shaped is_circle asz ∧ shaped is_circle zsz) ∧ I w).
  - apply hoare_addon_run; [done | | done].
    intros effect obj w1 Heff Hw1 _ _ Hacc. by apply Hcommit.
  - by intros e w1 (_ & _ & ?).
  - done.
Qed.

Lemma Addon_run_separated ac asz zc zsz padding is_circle nd distribute_only objs w :
  positions w = [] → placed (trace w) = [] →
  separated Addon.dist padding (λ _ _, True)
    (placed (trace (for_each objs
                      (Addon.place_object ac asz zc zsz padding is_circle nd
                         distribute_only) w).2)).
Proof.
  intros Hpos Hw.
  apply (Addon_run_invariant ac asz zc zsz padding is_circle nd distribute_only objs
           (λ w', positions w' = placed (trace w') ∧
                  separated Addon.dist padding (λ _ _, True) (placed (trace w')))).
  - by intros w1 w' [Hp Hs] (-> & -> & _).
  - intros effect obj w1 Heff [Hp Hs] (_ & _ & Hclear).
    apply addon_effect_places in Heff.
    change (trace (addon_commit effect obj (Addon_sampled ac asz w1)
                     (after_sampling w1)))
      with (trace w1 ++ [effect obj (Addon_sampled ac asz w1)]).
    change (positions (addon_commit effect obj (Addon_sampled ac asz w1)
                         (after_sampling w1)))
      with (positions w1 ++ [(Addon_sampled ac asz w1, dimensions obj)]).
    rewrite placed_snoc_effect by done. split; [by rewrite Hp|].
    apply separated_snoc; [apply length_sub_sym | done | done |].
    intros r1 Hr1 _. rewrite <- Hp in Hr1. by apply Hclear.
  - intros m w1 [Hp Hs].
    change (trace (with_trace (trace w1 ++ [Printed m]) w1))
      with (trace w1 ++ [Printed m]).
    by rewrite placed_snoc_printed.
  - rewrite Hpos, Hw. split; [done|]. apply separated_nil.
Qed.

Lemma Addon_run_placed ac asz zc zsz padding is_circle nd distribute_only objs w :
  (∀ o p, Placed o p ∉ outcomes (trace w)) →
  ∀ o p,
    Placed o p ∈
      outcomes (trace (for_each objs
                         (Addon.place_object ac asz zc zsz padding is_circle nd
                            distribute_only) w).2) →
    Addon_in_area ac asz p ∧ ¬ Addon_in_zone zc zsz p.
Proof.
  intros Hw.
  apply (Addon_run_invariant ac asz zc zsz padding is_circle nd distribute_only objs
           (λ w', ∀ o p, Placed o p ∈ outcomes (trace w') →
                         Addon_in_area ac asz p ∧ ¬ Addon_in_zone zc zsz p)).
  - by intros w1 w' Hout (_ & -> & _).
  - intros effect obj w1 Heff Hout (Harea & Hzone & _) o p.
    apply addon_effect_places in Heff.
    change (trace (addon_commit effect obj (Addon_sampled ac asz w1)
                     (after_sampling w1)))
      with (trace w1 ++ [effect obj (Addon_sampled ac asz w1)]).
    rewrite outcomes_snoc_effect by done.
    intros Hin. apply elem_of_app in Hin as [Hin|Hin]; [by eapply Hout|].
    apply list_elem_of_singleton in Hin. by injection Hin as -> ->.
  - intros m w1 Hout o p Hin.
    change (trace (with_trace (trace w1 ++ [Printed m]) w1))
      with (trace w1 ++ [Printed m]) in Hin.
    apply outcomes_snoc_printed in Hin. by eapply Hout.
  - intros o p Hin. by destruct (Hw o p).
Qed.

(** X15: any two different placements of the add-on, originals and
    duplicates alike, keep the distance of [min_dist], measured in space;
    also in what a run that raises has placed. *)
Theorem Addon_pairs_separated :
  ∀ objs ac asz zc zsz nd padding is_circle distribute_only stream i j p1 f1 p2 f2,
    let placements :=
      placed (trace (Addon.distribute_and_duplicate_objects objs ac asz zc zsz nd
                       padding is_circle distribute_only (initial_world stream)).2) in
    i ≠ j → placements !! i = Some (p1, f1) → placements !! j = Some (p2, f2) →
    min_dist f1 f2 padding <= Vector.length (Vector.sub p1 p2).
Proof.
  intros [|o objs] ac asz zc zsz nd padding is_circle distribute_only stream
    i j p1 f1 p2 f2 placements Hij Hi Hj; [subst placements; by cbn in Hi|].
  unfold placements in Hi, Hj. rewrite Addon_run_eq in Hi, Hj by done.
  pose proof (Addon_run_separated ac asz zc zsz padding is_circle nd distribute_only
                (o :: objs) (with_positions [] (initial_world stream))
                eq_refl eq_refl) as Hsep.
  exact (Hsep i j (p1, f1) (p2, f2) Hij Hi Hj I).
Qed.

(** X16: what the add-on places is in the area (the closed disc, or the
    rectangle of the width and the height about the centre) and not in the
    exclusion zone (the open disc, or the rectangle with its border). *)
Theorem Addon_placed_contained :
  ∀ objs ac asz zc zsz nd padding is_circle distribute_only stream o p,
    Placed o p ∈
      outcomes (trace (Addon.distribute_and_duplicate_objects objs ac asz zc zsz nd
                         padding is_circle distribute_only (initial_world stream)).2) →
    Addon_in_area ac asz p ∧ ¬ Addon_in_zone zc zsz p.
Proof.
  intros [|obj objs] ac asz zc zsz nd padding is_circle distribute_only stream o p
    Hin; [cbn in Hin; by inversion Hin|].
  rewrite Addon_run_eq in Hin by done.
  apply (Addon_run_placed ac asz zc zsz padding is_circle nd distribute_only
           (obj :: objs) (with_positions [] (initial_world stream))) with (o := o);
    [|done].
  intros o' p' H. by inversion H.
Qed.

Lemma addon_pos1 : Addon_sampled origin addon_area addon_w0 = Vector.make 5 0 0.
Proof. unfold Addon_sampled, square_sampled. cbn. f_equal; lra. Qed.

Lemma addon_pos2 : Addon_sampled origin addon_area addon_w1 = Vector.make 6 0 0.
Proof. unfold Addon_sampled, square_sampled. cbn. f_equal; lra. Qed.

Lemma addon_inside x :
  1 < x <= 10 →
  Addon_in_area origin addon_area (Vector.make x 0 0) ∧
  ¬ Addon_in_zone origin addon_zone (Vector.make x 0 0).
Proof.
  intros Hx. unfold Addon_in_area, Addon_in_zone, in_box. cbn. split; [lra|].
  intros H. lra.
Qed.

Lemma addon_run :
  Addon.distribute_and_duplicate_objects [half_cube] origin addon_area origin
    addon_zone 1 (1 / 10) false false addon_w0
  = (Ok tt, addon_w2).
Proof.
  rewrite Addon_run_eq by done.
  change (with_positions [] addon_w0) with addon_w0.
  rewrite for_each_cons. unfold bind at 1.
  unfold Addon.place_object. unfold bind at 1. unfold Addon.place_original.
  rewrite (for_range_else_break 999 _ _ addon_w0 addon_w1).
  2:{ apply Addon_attempt_accepts; [exact I | exact I |].
      rewrite addon_pos1.
      destruct (addon_inside 5) as [Ha Hz]; [lra|].
      split; [done|]. split; [done|]. intros r Hr. by inversion Hr. }
  change (Z.to_nat 1) with 1%nat. rewrite for_range_S. unfold bind at 1.
  unfold Addon.place_duplicate.
  rewrite (for_range_else_break 999 _ _ addon_w1 addon_w2).
  2:{ apply Addon_attempt_accepts; [exact I | exact I |].
      rewrite addon_pos2.
      destruct (addon_inside 6) as [Ha Hz]; [lra|].
      split; [done|]. split; [done|].
      intros r Hr. apply list_elem_of_singleton in Hr as ->. cbn [fst snd].
      rewrite min_dist_half_cube, addon_pos1.
      rewrite length_on_axis; cbn; lra. }
  reflexivity.
Qed.

Lemma addon_placed :
  placed (trace addon_w2)
  = [(Vector.make 5 0 0, dimensions half_cube);
     (Vector.make 6 0 0, dimensions half_cube)].
Proof.
  change (placed (trace addon_w2))
    with [(Addon_sampled origin addon_area addon_w0, dimensions half_cube);
          (Addon_sampled origin addon_area addon_w1, dimensions half_cube)].
  by rewrite addon_pos1, addon_pos2.
Qed.

Lemma addon_outcomes :
  outcomes (trace addon_w2)
  = [Placed half_cube (Vector.make 5 0 0); Placed half_cube (Vector.make 6 0 0)].
Proof.
  change (outcomes (trace addon_w2))
    with [Placed half_cube (Addon_sampled origin addon_area addon_w0);
          Placed half_cube (Addon_sampled origin addon_area addon_w1)].
  by rewrite addon_pos1, addon_pos2.
Qed.

Lemma Addon_pairs_separated_witness :
  min_dist (dimensions half_cube) (dimensions half_cube) (1 / 10)
  <= Vector.length (Vector.sub (Vector.make 5 0 0) (Vector.make 6 0 0)).
Proof.
  apply (Addon_pairs_separated [half_cube] origin addon_area origin addon_zone 1%Z
           (1 / 10) false false addon_stream 0%nat 1%nat).
  - lia.
  - change (initial_world addon_stream) with addon_w0.
    rewrite addon_run. cbn [snd]. rewrite addon_placed. reflexivity.
  - change (initial_world addon_stream) with addon_w0.
    rewrite addon_run. cbn [snd]. rewrite addon_placed. reflexivity.
Defined.

Lemma Addon_placed_contained_witness :
  Addon_in_area origin addon_area (Vector.make 6 0 0) ∧
  ¬ Addon_in_zone origin addon_zone (Vector.make 6 0 0).
Proof.
  apply (Addon_placed_contained [half_cube] origin addon_area origin addon_zone 1%Z
           (1 / 10) false false addon_stream half_cube).
  change (initial_world addon_stream) with addon_w0.
  rewrite addon_run. cbn [snd]. rewrite addon_outcomes.
  apply list_elem_of_further, list_elem_of_here.
Defined.

Lemma lattice_grid_size :
  DistributeAndDuplicateWithinSquare.grid_size origin lattice_max = 1.
Proof.
  unfold DistributeAndDuplicateWithinSquare.grid_size. cbn.
  rewrite Rmax_left by lra. lra.
Qed.

Lemma lattice_pos1 :
  square_sampled origin lattice_max lattice_w0 = Vector.make 0 0 0.
Proof. unfold square_sampled. cbn. f_equal; lra. Qed.

Lemma lattice_pos2 :
  square_sampled origin lattice_max lattice_w1 = Vector.make 1 0 0.
Proof. unfold square_sampled. cbn. f_equal; lra. Qed.

Lemma lattice_run :
  DistributeAndDuplicateWithinSquare.distribute_and_duplicate_objects
    [half_cube; half_cube] origin lattice_max 0 None (1 / 10) lattice_w0
  = (Ok tt, lattice_w2).
Proof.
  rewrite DDWS_run_eq by done.
  change (with_grid ∅ (with_positions [] lattice_w0)) with lattice_w0.
  assert (DistributeAndDuplicateWithinSquare.grid_size origin lattice_max ≠ 0)
    as Hgs by (rewrite lattice_grid_size; lra).
  rewrite for_each_cons. unfold bind at 1.
  rewrite (grid_place_object_first _ half_cube lattice_w0 lattice_w1).
  2:{ apply DDWS_attempt_accepts; [done|]. split.
      - intros zmin zmax Hz. by inversion Hz.
      - apply clear_of_neighbors_empty. }
  rewrite for_each_cons. unfold bind at 1.
  rewrite (grid_place_object_first _ half_cube lattice_w1 lattice_w2).
  2:{ apply DDWS_attempt_accepts; [done|]. split.
      - intros zmin zmax Hz. by inversion Hz.
      - apply clear_of_neighbors_singleton. cbn [fst snd].
        rewrite min_dist_half_cube, lattice_pos1, lattice_pos2.
        unfold DistributeAndDuplicateWithinSquare.dist.
        rewrite length_on_axis; cbn; lra. }
  reflexivity.
Qed.

Lemma lattice_placed :
  placed (trace lattice_w2)
  = [(Vector.make 0 0 0, dimensions half_cube);
     (Vector.make 1 0 0, dimensions half_cube)].
Proof.
  change (placed (trace lattice_w2))
    with [(square_sampled origin lattice_max lattice_w0, dimensions half_cube);
          (square_sampled origin lattice_max lattice_w1, dimensions half_cube)].
  by rewrite lattice_pos1, lattice_pos2.
Qed.

Lemma unit_cells_adjacent :
  adjacent (cell_of 1 (Vector.make 1 0 0)) (cell_of 1 (Vector.make 0 0 0)).
Proof.
  unfold cell_of. cbn.
  rewrite (Zfloor_eq 0 (0 / 1)) by (cbn; lra).
  rewrite (Zfloor_eq 1 (1 / 1)) by (cbn; lra).
  unfold adjacent. cbn. lia.
Qed.

Lemma DistributeAndDuplicateWithinSquare_pairs_separated_witness :
  min_dist (dimensions half_cube) (dimensions half_cube) (1 / 10)
  <= Vector.length (Vector.sub (Vector.make 1 0 0) (Vector.make 0 0 0)).
Proof.
  apply (DistributeAndDuplicateWithinSquare_pairs_separated [half_cube; half_cube]
           origin lattice_max 0%Z None (1 / 10) lattice_stream 1%nat 0%nat).
  - lia.
  - fold lattice_w0. rewrite lattice_run. cbn [snd]. rewrite lattice_placed.
    reflexivity.
  - fold lattice_w0. rewrite lattice_run. cbn [snd]. rewrite lattice_placed.
    reflexivity.
  - rewrite lattice_grid_size. apply unit_cells_adjacent.
Defined.

Lemma committed_placements_are_indexed_witness :
  ∃ records,
    grid (DistributeAndDuplicateWithinSquare.distribute_and_duplicate_objects
            [half_cube; half_cube] origin lattice_max 0 None (1 / 10)
            (initial_world lattice_stream)).2
      !! cell_of (DistributeAndDuplicateWithinSquare.grid_size origin lattice_max)
           (Vector.make 1 0 0)
    = Some records ∧ (Vector.make 1 0 0, dimensions half_cube) ∈ records.
Proof.
  apply (proj2 committed_placements_are_indexed [half_cube; half_cube] origin
           lattice_max 0%Z None (1 / 10) lattice_stream
           (Vector.make 1 0 0, dimensions half_cube)).
  fold lattice_w0. rewrite lattice_run. cbn [snd]. rewrite lattice_placed.
  apply list_elem_of_further, list_elem_of_here.
Defined.

Lemma indexed_neighbor_rejects_witness :
  (DistributeAndDuplicateWithinSquare.is_valid_position origin lattice_max [] (1 / 10)
     (Vector.make 1 0 0) (dimensions cube)
     (add_to_grid (DistributeAndDuplicateWithinSquare.grid_size origin lattice_max)
        (Vector.make 0 0 0) (dimensions cube) (initial_world zeros)).2).1
  = Ok false.
Proof.
  apply (proj2 indexed_neighbor_rejects origin lattice_max [] (1 / 10)
           (Vector.make 1 0 0) (dimensions cube) (Vector.make 0 0 0)
           (dimensions cube) (initial_world zeros)).
  - rewrite lattice_grid_size. lra.
  - rewrite lattice_grid_size. apply unit_cells_adjacent.
  - rewrite length_on_axis by (cbn; lra). unfold min_dist. cbn.
    rewrite Rmax_left by lra. lra.
Defined.

(** * The attempt budget of the other scripts *)

Lemma cost_le_DWC_place_object c r zones padding obj :
  cost_le (DistributeWithinCircle.place_object c r zones padding obj) 1000.
Proof.
  unfold DistributeWithinCircle.place_object.
  eapply cost_le_place_copy;
    [apply (DWC_attempt_spec c r zones padding) | apply list_commit_samplings].
Qed.

Lemma cost_le_DWC_run objs c r zones padding :
  cost_le (DistributeWithinCircle.distribute_objects_in_area objs c r zones padding)
    (length objs * 1000).
Proof.
  destruct objs as [|o objs]; [intros w; cbn; lia|].
  intros w. rewrite DWC_run_eq by done.
  exact (cost_le_for_each (o :: objs) _ 1000
           (cost_le_DWC_place_object c r (default [] zones) padding)
           (with_positions [] w)).
Qed.

Lemma cost_le_DDWS_run objs amin amax nd zones padding :
  cost_le (DistributeAndDuplicateWithinSquare.distribute_and_duplicate_objects
             objs amin amax nd zones padding)
    (total_copies objs nd * 1000).
Proof.
  destruct objs as [|o objs]; [intros w; cbn; lia|].
  intros w. rewrite DDWS_run_eq by done.
  apply (cost_le_grid_run _ _ _ _
           (λ effect, DDWS_attempt_spec amin amax (default [] zones) padding effect)
           nd (o :: objs) (with_grid ∅ (with_positions [] w))).
Qed.

Lemma cost_le_Addon_attempt ac asz zc zsz padding is_circle effect obj :
  cost_le (Addon.attempt ac asz zc zsz padding is_circle effect obj) 1.
Proof.
  intros w.
  pose proof (Addon_attempt_cases ac asz zc zsz padding is_circle effect obj w) as Hc.
  destruct (Addon.attempt _ _ _ _ _ _ _ _ w) as [[[|]|e] w']; cbn.
  - destruct Hc as (_ & _ & _ & ->). cbn. lia.
  - subst w'. cbn. lia.
  - destruct Hc as (_ & _ & _ & ->). lia.
Qed.

Lemma cost_le_Addon_place_object ac asz zc zsz padding is_circle nd distribute_only
    obj :
  cost_le (Addon.place_object ac asz zc zsz padding is_circle nd distribute_only obj)
    (1000 + Z.to_nat (Addon_duplicates distribute_only nd) * 1000).
Proof.
  unfold Addon.place_object. apply cost_le_bind.
  - unfold Addon.place_original.
    apply (cost_le_for_range_else 1000
             (Addon.attempt ac asz zc zsz padding is_circle SetLocation obj)
             (emit (Printed (CouldNotPlaceObject (name obj)))));
      [apply cost_le_Addon_attempt | apply cost_le_emit].
  - intros _. destruct distribute_only; [apply cost_le_ret|].
    apply cost_le_for_range. unfold Addon.place_duplicate.
    apply (cost_le_for_range_else 1000
             (Addon.attempt ac asz zc zsz padding is_circle LinkCopy obj)
             (emit (Printed (CouldNotPlaceDuplicate (name obj)))));
      [apply cost_le_Addon_attempt | apply cost_le_emit].
Qed.

Lemma cost_le_Addon_run objs ac asz zc zsz nd padding is_circle distribute_only :
  cost_le (Addon.distribute_and_duplicate_objects objs ac asz zc zsz nd padding
             is_circle distribute_only)
    (total_copies objs (Addon_duplicates distribute_only nd) * 1000).
Proof.
  destruct objs as [|o objs]; [intros w; cbn; lia|].
  intros w. rewrite Addon_run_eq by done.
  pose proof (cost_le_for_each (o :: objs) _ _
                (cost_le_Addon_place_object ac asz zc zsz padding is_circle nd
                   distribute_only) (with_positions [] w)) as H.
  unfold total_copies. cbn [samplings with_positions] in H.
  change (samplings (with_positions [] w)) with (samplings w) in H. lia.
Qed.

(** X17: the attempt budget of the remaining scripts.  A run of the
    circular list script takes at most 1000 iterations of its attempt loop
    for each selected object; a run of the rectangular grid script and a run
    of the add-on at most 1000 for each copy asked for, where the add-on
    with [distribute_only] is asked for no duplicate; also when the run is
    cut short by an exception. *)
Theorem sampling_bounded_in_every_script :
  (∀ objs c r zones padding w,
     (samplings (DistributeWithinCircle.distribute_objects_in_area
                   objs c r zones padding w).2
      ≤ samplings w + length objs * 1000)%nat) ∧
  (∀ objs amin amax nd zones padding w,
     (samplings (DistributeAndDuplicateWithinSquare.distribute_and_duplicate_objects
                   objs amin amax nd zones padding w).2
      ≤ samplings w + total_copies objs nd * 1000)%nat) ∧
  (∀ objs ac asz zc zsz nd padding is_circle distribute_only w,
     (samplings (Addon.distribute_and_duplicate_objects objs ac asz zc zsz nd padding
                   is_circle distribute_only w).2
      ≤ samplings w
        + total_copies objs (Addon_duplicates distribute_only nd) * 1000)%nat).
Proof.
  split; [|split].
  - intros objs c r zones padding. apply cost_le_DWC_run.
  - intros objs amin amax nd zones padding. apply cost_le_DDWS_run.
  - intros objs ac asz zc zsz nd padding is_circle distribute_only.
    apply cost_le_Addon_run.
Qed.


